(** * srag: the transform / pipeline composition engine

    A shallow embedding of [srag/schema/pipeline.py]: the state record, the
    shared resource, the listener dispatcher, [BaseTransform] and
    [BasePipeline], together with the properties of the engine that the
    specification states.

    Python objects that are mutated in place are kept in stores: the state
    dictionaries live in a heap indexed by references, and the three fields
    of a transform that change after construction ([name], [shared],
    [_inited]) live in an object store indexed by object identity.  The
    fields fixed by [__init__] form an ordinary tree.

    [anyio] task groups are modelled by an explicit scheduler: the scheduler
    resumes one live task at a time as dictated by a schedule (an arbitrary
    list of choices), and a cancellation is delivered to a task only at a
    suspension point.  The handlers of a listener are coroutines given as
    the list of their code segments between suspension points, and the
    [_init] that a parent starts for a sub-transform runs as one segment.
    The [__call__] that a parent starts for each of its parallel children is
    a step in progress: it suspends where it has opened a task group of its
    own (for its sub-transforms in [_init], for a non-empty list of
    listeners, for parallel children), and its siblings run there.  A task
    group opened inside a task runs its own tasks before the task that
    opened it yields to its siblings.  The hooks that subclasses override
    ([transform], [stream_transform]) and the handlers are functions on the
    heap of states.  Unless a schedule is named, a statement below holds for
    all schedules. *)

From Stdlib Require Import String List Lia.
From stdpp Require Import base gmap strings list fin_maps.

Open Scope string_scope.
Open Scope list_scope.
Set Warnings "-register-all".

(** ** Values, exceptions, results *)

Definition ref := nat.
Definition oid := nat.

(** Python values that flow through the engine.  A state is a dictionary
    object, known by its reference. *)
Inductive pyval :=
  | PNone
  | PBool (b : bool)
  | PStr (s : string)
  | PStrs (l : list string)
  | PObj (tag : nat)
  | PDict (r : ref).

Inductive exn :=
  | RuntimeError (msg : string)
  | AttributeError (msg : string)
  | TypeError (msg : string)
  | UserError (code : nat)
  | ExceptionGroup (es : list exn).

Inductive result (A : Type) :=
  | Ok (a : A)
  | Raise (e : exn).
Arguments Ok {A} a.
Arguments Raise {A} e.

Abbreviation dict := (gmap string pyval).
Abbreviation heap := (gmap ref dict).

(** ** RAGState: [dict.get] *)

(** [state.get(key)] on a dictionary: the stored value, or [None]. *)
Definition dict_get (d : dict) (k : string) : pyval :=
  match d !! k with
  | Some v => v
  | None => PNone
  end.

(** ** Listeners *)

(** The code of a handler between two suspension points. *)
Definition hsegment := heap -> option exn * heap.

(** A handler applied to [(transform, state)]; of the transform it sees the
    display name. *)
Definition handler := string -> pyval -> list hsegment.

Inductive event :=
  | on_transform_enter
  | on_transform_exit
  | on_enter
  | on_exit.

Record TransformListener := {
  h_transform_enter : handler;
  h_transform_exit : handler;
  h_enter : handler;
  h_exit : handler
}.

(** The base class: every handler is [pass]. *)
Definition pass : handler := fun _ _ => [].
Definition TransformListener_base : TransformListener :=
  {| h_transform_enter := pass; h_transform_exit := pass;
     h_enter := pass; h_exit := pass |}.

(** [listener.__getattribute__(event)] *)
Definition listener_getattr (l : TransformListener) (ev : event) : handler :=
  match ev with
  | on_transform_enter => h_transform_enter l
  | on_transform_exit => h_transform_exit l
  | on_enter => h_enter l
  | on_exit => h_exit l
  end.

Record TranformBatchListener := { listeners : list TransformListener }.

(** [rid] is the identity of the instance. *)
Record SharedResource := {
  rid : nat;
  llm : nat;
  listener : TranformBatchListener
}.

(** ** The transform tree *)

Inductive key_spec :=
  | KNone
  | KStr (k : string)
  | KList (ks : list string).

(** [transform]: a state and the keyword arguments; the only keyword the
    engine passes is [return_state], with whatever object the caller gave. *)
Definition hook := pyval -> option pyval -> heap -> result pyval * heap.

(** [stream_transform(state)]: the states yielded, in order, and the
    exception that ended the generator, if any. *)
Definition stream_hook := pyval -> heap -> list pyval * option exn * heap.

Inductive klass := BaseTransform | BasePipeline.

(** What [__init__] fixes.  [attrs] are the instance attributes that hold a
    [BaseTransform], in [__dict__] order. *)
Inductive node := Node {
  oid_of : oid;
  klass_of : klass;
  class_name : string;
  shared0 : option SharedResource;
  attrs : list node;
  _transforms : option (list node);
  _run_in_parallel : bool;
  input_key : key_spec;
  output_key : key_spec;
  transform_def : option hook;
  stream_transform_def : option stream_hook
}.

(** What changes afterwards. *)
Record mut := {
  name : string;
  shared : option SharedResource;
  _inited : bool
}.

Record world := {
  objs : gmap oid mut;
  states : heap
}.

(** The fields as [__init__] leaves them. *)
Definition constructed (n : node) : mut :=
  {| name := class_name n; shared := shared0 n; _inited := false |}.

Definition attr (n : node) (w : world) : mut :=
  match objs w !! oid_of n with
  | Some m => m
  | None => constructed n
  end.

Definition set_attr (n : node) (m : mut) (w : world) : world :=
  {| objs := <[oid_of n := m]> (objs w); states := states w |}.

Definition set_name (n : node) (s : string) (w : world) : world :=
  let m := attr n w in
  set_attr n {| name := s; shared := shared m; _inited := _inited m |} w.

Definition set_shared (n : node) (s : option SharedResource) (w : world) : world :=
  let m := attr n w in
  set_attr n {| name := name m; shared := s; _inited := _inited m |} w.

Definition set_inited (n : node) (b : bool) (w : world) : world :=
  let m := attr n w in
  set_attr n {| name := name m; shared := shared m; _inited := b |} w.

Definition set_states (h : heap) (w : world) : world :=
  {| objs := objs w; states := h |}.

(** ** Task groups *)

Definition segment := world -> option exn * world.
Definition coroutine := list segment.

Inductive task :=
  | Pending (c : coroutine)
  | Suspended (c : coroutine)
  | Finished
  | Failed (e : exn)
  | Cancelled.

Definition is_live (t : task) : bool :=
  match t with
  | Pending _ | Suspended _ => true
  | _ => false
  end.

Definition is_failed (t : task) : bool :=
  match t with
  | Failed _ => true
  | _ => false
  end.

Definition failures (ts : list task) : list exn :=
  flat_map (fun t => match t with Failed e => [e] | _ => [] end) ts.

(** Run a coroutine up to its next suspension point. *)
Definition resume (c : coroutine) (w : world) : task * world :=
  match c with
  | [] => (Finished, w)
  | s :: c' =>
      match s w with
      | (Some e, w') => (Failed e, w')
      | (None, w') =>
          (match c' with [] => Finished | _ :: _ => Suspended c' end, w')
      end
  end.

(** A task that waits at a suspension point receives the cancellation; a
    task that has not run yet first runs to its first suspension point. *)
Definition step_task (cancel : bool) (t : task) (w : world) : task * world :=
  match t with
  | Pending c => resume c w
  | Suspended c => if cancel then (Cancelled, w) else resume c w
  | _ => (t, w)
  end.

(** Resume the [k]-th live task. *)
Fixpoint step_at (cancel : bool) (k : nat) (ts : list task) (w : world)
  : list task * world :=
  match ts with
  | [] => ([], w)
  | t :: ts' =>
      if is_live t then
        match k with
        | 0 => let '(t', w') := step_task cancel t w in (t' :: ts', w')
        | S k' => let '(ts'', w') := step_at cancel k' ts' w in (t :: ts'', w')
        end
      else let '(ts'', w') := step_at cancel k ts' w in (t :: ts'', w')
  end.

Fixpoint count_live (ts : list task) : nat :=
  match ts with
  | [] => 0
  | t :: ts' => (if is_live t then 1 else 0) + count_live ts'
  end.

(** The work a task may still do: an upper bound on its resumptions. *)
Definition weight (t : task) : nat :=
  match t with
  | Pending c | Suspended c => S (length c)
  | _ => 0
  end.

Fixpoint total_weight (ts : list task) : nat :=
  match ts with
  | [] => 0
  | t :: ts' => weight t + total_weight ts'
  end.

(** A schedule is a list of choices.  With [l] live tasks, a choice [k]
    resumes the task of index [k mod l]; when a task of the group has
    raised, it also tells, by the parity of [k / l], whether the
    cancellation has reached the task it resumes or whether that task, woken
    before, runs on to its next suspension point.  When the list is
    exhausted the choice is [0]. *)
Definition schedule := list nat.

Fixpoint run_tasks (fuel : nat) (sch : schedule) (ts : list task) (w : world)
  : list task * world :=
  match fuel with
  | 0 => (ts, w)
  | S fuel' =>
      match count_live ts with
      | 0 => (ts, w)
      | S l =>
          let k := hd 0 sch mod (S l) in
          let cancel := existsb is_failed ts && Nat.even (hd 0 sch / S l) in
          let '(ts', w') := step_at cancel k ts w in
          run_tasks fuel' (tl sch) ts' w'
      end
  end.

(** [async with anyio.create_task_group() as tg: ... tg.start_soon(c) ...]:
    the block is left when every task has ended, with the group of the
    exceptions raised, if any. *)
Definition task_group (sch : schedule) (cs : list coroutine) (w : world)
  : option exn * list task * world :=
  let ts := map Pending cs in
  let '(ts', w') := run_tasks (total_weight ts) sch ts w in
  (match failures ts' with
   | [] => None
   | es => Some (ExceptionGroup es)
   end, ts', w').

(** ** Steps in progress

    A sub-transform that [tg.start_soon(t.__call__, state)] starts runs
    beside its siblings.  Where it yields to them depends on what it meets
    on its way (a broadcast to a non-empty listener list, a task group of
    its own), so its code is not a fixed list of segments: a step in
    progress either has ended, or acts on the world and goes on, or waits
    at a suspension point. *)
Inductive proc :=
  | Done (r : result pyval)
  | Act (f : world -> world * proc)
  | Pause (p : proc).

(** Run up to the next suspension point. *)
Fixpoint advance (p : proc) (w : world) : proc * world :=
  match p with
  | Done r => (Done r, w)
  | Pause p' => (Pause p', w)
  | Act f => let '(w', p') := f w in advance p' w'
  end.

(** Run to the end, nothing else running at the suspension points. *)
Fixpoint run_alone (p : proc) (w : world) : result pyval * world :=
  match p with
  | Done r => (r, w)
  | Pause p' => run_alone p' w
  | Act f => let '(w', p') := f w in run_alone p' w'
  end.

(** [v = await p; k(v)]: an exception of [p] ends the whole. *)
Fixpoint and_then (p : proc) (k : pyval -> proc) : proc :=
  match p with
  | Done (Ok v) => k v
  | Done (Raise e) => Done (Raise e)
  | Act f => Act (fun w => let '(w', p') := f w in (w', and_then p' k))
  | Pause p' => Pause (and_then p' k)
  end.

Definition to_result (e : option exn) (v : pyval) : result pyval :=
  match e with
  | Some e => Raise e
  | None => Ok v
  end.

(** The tasks of a group of such steps. *)
Inductive running :=
  | Ready (p : proc)
  | Yielded (p : proc)
  | Returned
  | Raised (e : exn)
  | Stopped.

Definition is_running (t : running) : bool :=
  match t with
  | Ready _ | Yielded _ => true
  | _ => false
  end.

Definition has_raised (t : running) : bool :=
  match t with
  | Raised _ => true
  | _ => false
  end.

Definition raised_in (ts : list running) : list exn :=
  flat_map (fun t => match t with Raised e => [e] | _ => [] end) ts.

Definition settle (pw : proc * world) : running * world :=
  match pw with
  | (Done (Ok _), w) => (Returned, w)
  | (Done (Raise e), w) => (Raised e, w)
  | (Pause p, w) => (Yielded p, w)
  | (Act f, w) => (Yielded (Act f), w)
  end.

(** As for [step_task]: a task that waits at a suspension point receives
    the cancellation there, a task that has not run yet first runs to its
    first suspension point. *)
Definition step_running (cancel : bool) (t : running) (w : world)
  : running * world :=
  match t with
  | Ready p => settle (advance p w)
  | Yielded p => if cancel then (Stopped, w) else settle (advance p w)
  | _ => (t, w)
  end.

(** Resume the [k]-th task that has not ended. *)
Fixpoint step_running_at (cancel : bool) (k : nat) (ts : list running)
    (w : world) : list running * world :=
  match ts with
  | [] => ([], w)
  | t :: ts' =>
      if is_running t then
        match k with
        | 0 => let '(t', w') := step_running cancel t w in (t' :: ts', w')
        | S k' =>
            let '(ts'', w') := step_running_at cancel k' ts' w in (t :: ts'', w')
        end
      else
        let '(ts'', w') := step_running_at cancel k ts' w in (t :: ts'', w')
  end.

Fixpoint count_running (ts : list running) : nat :=
  match ts with
  | [] => 0
  | t :: ts' => (if is_running t then 1 else 0) + count_running ts'
  end.

(** Run a step to its end, or to the suspension point where the
    cancellation reaches it. *)
Fixpoint complete (cancel : bool) (p : proc) (w : world) : running * world :=
  match p with
  | Done (Ok _) => (Returned, w)
  | Done (Raise e) => (Raised e, w)
  | Pause p' => if cancel then (Stopped, w) else complete cancel p' w
  | Act f => let '(w', p') := f w in complete cancel p' w'
  end.

Definition complete_running (cancel : bool) (t : running) (w : world)
  : running * world :=
  match t with
  | Ready p => complete cancel p w
  | Yielded p => if cancel then (Stopped, w) else complete cancel p w
  | _ => (t, w)
  end.

(** The tasks that are left run one after the other, in the order in which
    they were started; [cancel] tells whether a task before them has
    raised. *)
Fixpoint complete_all (cancel : bool) (ts : list running) (w : world)
  : list running * world :=
  match ts with
  | [] => ([], w)
  | t :: ts' =>
      let '(t', w') :=
        complete_running (cancel || existsb has_raised ts') t w in
      let '(ts'', w'') := complete_all (cancel || has_raised t') ts' w' in
      (t' :: ts'', w'')
  end.

(** The schedule chooses the task to resume for as long as it lasts. *)
Fixpoint run_steps (sch : schedule) (ts : list running) (w : world)
  : list running * world :=
  match sch with
  | [] => complete_all false ts w
  | k :: sch' =>
      match count_running ts with
      | 0 => (ts, w)
      | S l =>
          let cancel := existsb has_raised ts && Nat.even (k / S l) in
          let '(ts', w') := step_running_at cancel (k mod (S l)) ts w in
          run_steps sch' ts' w'
      end
  end.

(** A task group whose tasks are steps in progress. *)
Definition par_group (sch : schedule) (ps : list proc) (w : world)
  : option exn * list running * world :=
  let '(ts', w') := run_steps sch (map Ready ps) w in
  (match raised_in ts' with
   | [] => None
   | es => Some (ExceptionGroup es)
   end, ts', w').

Inductive site :=
  | InitSite (o : oid)
  | RunSite (o : oid)
  | StreamSite (o : oid)
  | EventSite (o : oid) (ev : event).

Definition scheduler := site -> schedule.

(** ** TranformBatchListener *)

Definition lift_segment (s : hsegment) : segment :=
  fun w => let '(e, h) := s (states w) in (e, set_states h w).

(** The broadcaster that [_on_event_construct(event)] returns, applied to
    its arguments. *)
Definition _on_event (sch : schedule) (l : TranformBatchListener) (ev : event)
    (tname : string) (state : pyval) (w : world)
  : option exn * list task * world :=
  match listeners l with
  | [] => (None, [], w)
  | ls =>
      task_group sch
        (map (fun x => map lift_segment (listener_getattr x ev tname state)) ls) w
  end.

(** ** BaseTransform: initialisation *)

(** [t.name = f"{self.name}::{t.name}"] *)
Definition rename_child (self t : node) (w : world) : world :=
  set_name t (name (attr self w) +:+ "::" +:+ name (attr t w)) w.

Section Init.
Variable sched : scheduler.

(** [_init_sub_transforms].  [init_attrs] and [init_transforms] are the
    coroutines [t._init(self.shared)] of the attribute sub-transforms and of
    the declared children, in order.  In the assignment to [_to_init] the
    conditional expression has the whole sum as its first branch, so that
    without a declared list [_to_init] is empty; the loop renames each
    sub-transform and starts its task, and the tasks run when the block of
    the task group is left. *)
Definition _init_sub_transforms_with
    (init_attrs init_transforms : list coroutine)
    (self : node) (w : world) : option exn * world :=
  let _to_init :=
    match _transforms self with
    | Some ts => attrs self ++ ts
    | None => []
    end in
  match _transforms self with
  | Some _ =>
      let w1 := fold_left (fun w t => rename_child self t w) _to_init w in
      let '(e, _, w2) :=
        task_group (sched (InitSite (oid_of self)))
                   (init_attrs ++ init_transforms) w1 in
      (e, w2)
  | None => (None, w)
  end.

Fixpoint _init (self : node) (shared_arg : option SharedResource) (w : world)
  {struct self} : option exn * world :=
  if _inited (attr self w) then (None, w)
  else
    match shared (attr self w), shared_arg with
    | None, None => (Some (RuntimeError "SharedResource not provided."), w)
    | _, _ =>
        let w :=
          set_shared self
            (match shared_arg with
             | Some s => Some s
             | None => shared (attr self w)
             end) w in
        let sh := shared (attr self w) in
        let start_soon := fun t : node => [fun w' : world => _init t sh w'] in
        match
          _init_sub_transforms_with
            (map start_soon (attrs self))
            (match _transforms self with
             | Some ts => map start_soon ts
             | None => []
             end)
            self w
        with
        | (Some e, w) => (Some e, w)
        | (None, w) => (None, set_inited self true w)
        end
    end.

Definition _init_sub_transforms (self : node) (w : world) : option exn * world :=
  let sh := shared (attr self w) in
  let start_soon := fun t : node => [fun w' : world => _init t sh w'] in
  _init_sub_transforms_with
    (map start_soon (attrs self))
    (match _transforms self with
     | Some ts => map start_soon ts
     | None => []
     end)
    self w.
End Init.

(** ** BaseTransform: execution *)

(** A reference that holds no dictionary yet reads as the empty one. *)
Definition deref (h : heap) (r : ref) : dict :=
  match h !! r with
  | Some d => d
  | None => ∅
  end.

(** The truth value of an object. *)
Definition truthy (v : pyval) (h : heap) : bool :=
  match v with
  | PNone => false
  | PBool b => b
  | PStr s => negb (String.eqb s "")
  | PStrs l => match l with [] => false | _ :: _ => true end
  | PObj _ => true
  | PDict r => negb (bool_decide (deref h r = ∅))
  end.

(** [state.get(key)] for a key held in a node attribute. *)
Definition state_get (state : pyval) (k : key_spec) (h : heap) : result pyval :=
  match state with
  | PDict r =>
      match k with
      | KStr s => Ok (dict_get (deref h r) s)
      | KNone => Ok PNone
      | KList _ => Raise (TypeError "unhashable type: 'list'")
      end
  | _ => Raise (AttributeError "get")
  end.

(** [_get_input] *)
Definition _get_input (self : node) (state : dict) : gmap (option string) pyval :=
  match input_key self with
  | KList ks => fold_left (fun m k => <[Some k := dict_get state k]> m) ks ∅
  | KStr k => {[ Some k := dict_get state k ]}
  | KNone => {[ None := PNone ]}
  end.

(** [BaseTransform.transform] *)
Definition BaseTransform_transform : hook :=
  fun state _ h => (Ok state, h).

(** [BasePipeline.transform] *)
Definition BasePipeline_transform (self : node) : hook :=
  fun state return_state h =>
    if match return_state with
       | Some v => truthy v h
       | None => false
       end
    then (Ok state, h)
    else (state_get state (output_key self) h, h).

(** Method resolution for [self.transform]. *)
Definition transform (self : node) : hook :=
  match transform_def self with
  | Some f => f
  | None =>
      match klass_of self with
      | BaseTransform => BaseTransform_transform
      | BasePipeline => BasePipeline_transform self
      end
  end.

(** [BaseTransform.stream_transform]: [yield await self.transform(state)] *)
Definition BaseTransform_stream_transform (self : node) : stream_hook :=
  fun state h =>
    match transform self state None h with
    | (Ok v, h') => ([v], None, h')
    | (Raise e, h') => ([], Some e, h')
    end.

(** [BasePipeline.stream_transform]: [yield state] *)
Definition BasePipeline_stream_transform : stream_hook :=
  fun state h => ([state], None, h).

Definition stream_transform (self : node) : stream_hook :=
  match stream_transform_def self with
  | Some g => g
  | None =>
      match klass_of self with
      | BaseTransform => BaseTransform_stream_transform self
      | BasePipeline => BasePipeline_stream_transform
      end
  end.

(** The keyword arguments of a call become a new dictionary object. *)
Definition new_state (kwargs : dict) (w : world) : ref * world :=
  let r := fresh (dom (states w)) in
  (r, set_states (<[r := kwargs]> (states w)) w).

(** [t.__call__(state)] for a child [t]: [BasePipeline] overrides
    [__call__] with [return_state] as its first parameter and the state
    fields as keywords, so that the one positional argument lands in
    [return_state] and the state is a new, empty dictionary. *)
Definition bound_call
    (base_call : pyval -> option pyval -> world -> result pyval * world)
    (t : node) (state : pyval) (w : world) : result pyval * world :=
  match klass_of t with
  | BaseTransform => base_call state None w
  | BasePipeline =>
      let '(r, w') := new_state ∅ w in
      base_call (PDict r) (Some state) w'
  end.

Section Run.
Variable sched : scheduler.

(** [await self.shared.listener.<event>(self, state)] *)
Definition broadcast (self : node) (ev : event) (state : pyval) (w : world)
  : option exn * list task * world :=
  match shared (attr self w) with
  | None =>
      (Some (AttributeError "'NoneType' object has no attribute 'listener'"),
       [], w)
  | Some r =>
      _on_event (sched (EventSite (oid_of self) ev)) (listener r) ev
                (name (attr self w)) state w
  end.

(** *** A step as a task of a group

    The step of a transform that runs as a task: the same code as [_init]
    above and [__call__] below, with its suspension points.  A task group
    that the step opens (in [_init_sub_transforms], in a broadcast to
    listeners, for parallel children of its own) runs its tasks, and the
    step then waits at the end of the [async with] block, where its siblings
    run; a broadcast to an empty listener list, the [_init] of an
    initialised transform and an [_init_sub_transforms] without a declared
    list return without suspending. *)

Definition has_listeners (self : node) (w : world) : bool :=
  match shared (attr self w) with
  | Some r => match listeners (listener r) with [] => false | _ :: _ => true end
  | None => false
  end.

(** [await self._init(shared)]: [self._inited = True] comes after the
    suspension point. *)
Definition co_init (self : node) (shared_arg : option SharedResource) : proc :=
  Act (fun w =>
    if _inited (attr self w) then (w, Done (Ok PNone))
    else
      match shared (attr self w), shared_arg with
      | None, None =>
          (w, Done (Raise (RuntimeError "SharedResource not provided.")))
      | _, _ =>
          let w1 :=
            set_shared self
              (match shared_arg with
               | Some s => Some s
               | None => shared (attr self w)
               end) w in
          let '(e, w2) := _init_sub_transforms sched self w1 in
          let rest :=
            match e with
            | Some e => Done (Raise e)
            | None => Act (fun w => (set_inited self true w, Done (Ok PNone)))
            end in
          (w2, match _transforms self with
               | Some _ => Pause rest
               | None => rest
               end)
      end).

(** [await self.shared.listener.<event>(self, state)] *)
Definition co_broadcast (self : node) (ev : event) (state : pyval) : proc :=
  Act (fun w =>
         let '(e, _, w') := broadcast self ev state w in
         (w', if has_listeners self w then Pause (Done (to_result e PNone))
              else Done (to_result e PNone))).

(** [await self.transform(state, **kwargs)] *)
Definition co_transform (self : node) (state : pyval) (kwargs : option pyval)
  : proc :=
  Act (fun w =>
         let '(r, h) := transform self state kwargs (states w) in
         (set_states h w, Done r)).

(** [t.__call__(state)] for a child [t], as [bound_call]. *)
Definition co_bound (base : pyval -> option pyval -> proc) (t : node)
    (state : pyval) : proc :=
  match klass_of t with
  | BaseTransform => base state None
  | BasePipeline =>
      Act (fun w => let '(r, w') := new_state ∅ w in
                    (w', base (PDict r) (Some state)))
  end.

(** [await self._run_sub_transforms(state)], given the steps of the
    children. *)
Definition co_run_sub_with (steps : list (pyval -> proc)) (self : node)
    (state : pyval) : proc :=
  match _transforms self with
  | None => Done (Ok state)
  | Some _ =>
      if _run_in_parallel self then
        Act (fun w =>
               let '(e, _, w') :=
                 par_group (sched (RunSite (oid_of self)))
                           (map (fun step => step state) steps) w in
               (w', Pause (Done (to_result e state))))
      else
        fold_left
          (fun acc step => and_then acc step) steps (Done (Ok state))
  end.

Fixpoint co_call (self : node) (state : pyval) (kwargs : option pyval)
    {struct self} : proc :=
  and_then (co_init self None) (fun _ =>
  and_then (co_broadcast self on_transform_enter state) (fun _ =>
  and_then
    (co_run_sub_with
       (match _transforms self with
        | Some ts => map (fun t => co_bound (co_call t) t) ts
        | None => []
        end) self state) (fun state =>
  and_then (co_transform self state kwargs) (fun ret =>
  and_then (co_broadcast self on_transform_exit state) (fun _ =>
  Done (Ok ret)))))).

(** The tasks that [tg.start_soon(t.__call__, state)] starts for the
    children. *)
Definition child_steps (self : node) (state : pyval) : list proc :=
  match _transforms self with
  | Some ts => map (fun t => co_bound (co_call t) t state) ts
  | None => []
  end.

(** [_run_sub_transforms], given the [__call__] of the children. *)
Definition _run_sub_transforms_with
    (calls : list (pyval -> world -> result pyval * world))
    (self : node) (state : pyval) (w : world) : result pyval * world :=
  match _transforms self with
  | None => (Ok state, w)
  | Some _ =>
      if _run_in_parallel self then
        let '(e, _, w') :=
          par_group (sched (RunSite (oid_of self))) (child_steps self state) w in
        match e with
        | Some e => (Raise e, w')
        | None => (Ok state, w')
        end
      else
        fold_left
          (fun acc call =>
             match acc with
             | (Ok state, w) => call state w
             | (Raise e, w) => (Raise e, w)
             end)
          calls (Ok state, w)
  end.

Fixpoint __call__ (self : node) (state : pyval) (kwargs : option pyval)
    (w : world) {struct self} : result pyval * world :=
  match _init sched self None w with
  | (Some e, w) => (Raise e, w)
  | (None, w) =>
  match broadcast self on_transform_enter state w with
  | (Some e, _, w) => (Raise e, w)
  | (None, _, w) =>
  match
    _run_sub_transforms_with
      (match _transforms self with
       | Some ts => map (fun t => bound_call (__call__ t) t) ts
       | None => []
       end) self state w
  with
  | (Raise e, w) => (Raise e, w)
  | (Ok state, w) =>
  match transform self state kwargs (states w) with
  | (Raise e, h) => (Raise e, set_states h w)
  | (Ok ret, h) =>
  match broadcast self on_transform_exit state (set_states h w) with
  | (Some e, _, w) => (Raise e, w)
  | (None, _, w) => (Ok ret, w)
  end end end end end.

Definition _run_sub_transforms (self : node) (state : pyval) (w : world)
  : result pyval * world :=
  _run_sub_transforms_with
    (match _transforms self with
     | Some ts => map (fun t => bound_call (__call__ t) t) ts
     | None => []
     end) self state w.

(** [_run_sub_streams], given the [__stream__] of the children. *)
Definition _run_sub_streams_with
    (streams : list (pyval -> world -> list pyval * option exn * world))
    (self : node) (state : pyval) (w : world)
  : list pyval * option exn * world :=
  match _transforms self with
  | None => ([], None, w)
  | Some _ =>
      if _run_in_parallel self then
        let '(e, _, w') :=
          par_group (sched (StreamSite (oid_of self)))
                    (child_steps self state) w in
        match e with
        | Some e => ([], Some e, w')
        | None => ([state], None, w')
        end
      else
        fold_left
          (fun acc stream =>
             match acc with
             | (ys, None, w) =>
                 let '(ys', e, w') := stream state w in (ys ++ ys', e, w')
             | (ys, Some e, w) => (ys, Some e, w)
             end)
          streams ([], None, w)
  end.

Fixpoint __stream__ (self : node) (state : pyval) (w : world) {struct self}
  : list pyval * option exn * world :=
  match _init sched self None w with
  | (Some e, w) => ([], Some e, w)
  | (None, w) =>
  match broadcast self on_transform_enter state w with
  | (Some e, _, w) => ([], Some e, w)
  | (None, _, w) =>
  match
    _run_sub_streams_with
      (match _transforms self with
       | Some ts => map (fun t state w => __stream__ t state w) ts
       | None => []
       end) self state w
  with
  | (ys, Some e, w) => (ys, Some e, w)
  | (ys, None, w) =>
  match stream_transform self state (states w) with
  | (ys', Some e, h) => (ys ++ ys', Some e, set_states h w)
  | (ys', None, h) =>
  match broadcast self on_transform_exit state (set_states h w) with
  | (Some e, _, w) => (ys ++ ys', Some e, w)
  | (None, _, w) => (ys ++ ys', None, w)
  end end end end end.

Definition _run_sub_streams (self : node) (state : pyval) (w : world)
  : list pyval * option exn * world :=
  _run_sub_streams_with
    (match _transforms self with
     | Some ts => map (fun t state w => __stream__ t state w) ts
     | None => []
     end) self state w.

(** [t.__call__(state)], as [_run_sub_transforms] and [_run_sub_streams]
    call it. *)
Definition call (t : node) (state : pyval) (w : world) : result pyval * world :=
  bound_call (__call__ t) t state w.

(** ** BasePipeline: the two entry points *)

(** [BasePipeline.__call__], with the keyword arguments as a dictionary *)
Definition BasePipeline_call (self : node) (return_state : bool)
    (kwargs : dict) (w : world) : result pyval * world :=
  let '(r, w) := new_state kwargs w in
  __call__ self (PDict r) (Some (PBool return_state)) w.

(** [BasePipeline.stream], with the keyword arguments as a dictionary *)
Definition BasePipeline_stream (self : node) (kwargs : dict) (w : world)
  : list pyval * option exn * world :=
  let '(r, w) := new_state kwargs w in
  __stream__ self (PDict r) w.
End Run.

(** ** The nodes that initialisation reaches *)

(** The sub-transforms that [_init_sub_transforms] starts. *)
Definition sub (n : node) : list node :=
  match _transforms n with
  | Some ts => attrs n ++ ts
  | None => []
  end.

Fixpoint nodes (n : node) : list node :=
  n :: match _transforms n with
       | Some ts => flat_map nodes (attrs n) ++ flat_map nodes ts
       | None => []
       end.

Definition ids (n : node) : list oid := map oid_of (nodes n).

(** No node of the tree has been initialised. *)
Definition fresh_tree (n : node) (w : world) : Prop :=
  forall x, In x (nodes n) -> _inited (attr x w) = false.

(** Every node of the tree holds the resource [r] and is marked. *)
Definition ready (r : SharedResource) (n : node) (w : world) : Prop :=
  forall x, In x (nodes n) ->
            shared (attr x w) = Some r /\ _inited (attr x w) = true.

(** A tree ready to run with the resource [r]: just built, of distinct
    nodes, with [r] at its root, or initialised with [r] before. *)
Definition runnable (r : SharedResource) (n : node) (w : world) : Prop :=
  (NoDup (ids n) /\ fresh_tree n w /\ shared (attr n w) = Some r) \/
  ready r n w.

Definition inited_at (o : oid) (w : world) : bool :=
  match objs w !! o with
  | Some m => _inited m
  | None => false
  end.

(** [n] calls of [initialize], each with its own argument. *)
Definition initialize_each (sched : scheduler) (n : node)
    (args : list (option SharedResource)) (w : world) : world :=
  fold_left (fun w a => (_init sched n a w).2) args w.

(** ** Properties of segments and worlds *)

(** The code a task has still to run. *)
Definition task_code (t : task) : coroutine :=
  match t with
  | Pending c | Suspended c => c
  | _ => []
  end.

Definition keeps (I : world -> Prop) (s : segment) : Prop :=
  forall w, I w -> I (s w).2.

Definition safe (I : world -> Prop) (s : segment) : Prop :=
  forall w, I w -> (s w).1 = None /\ I (s w).2.

(** What a step in progress, about to run in the world [w], keeps: each of
    its actions, taken in a world with the property [I], leaves a world
    with that property, related to the one before by [G]; at a suspension
    point the world may change by [G], the doing of the other tasks, before
    the step goes on. *)
Fixpoint proc_rg (I : world -> Prop) (G : world -> world -> Prop)
    (p : proc) (w : world) : Prop :=
  match p with
  | Done _ => True
  | Pause p' => forall w', G w w' -> proc_rg I G p' w'
  | Act f => I w -> I (f w).1 /\ G w (f w).1 /\ proc_rg I G (f w).2 (f w).1
  end.

Definition running_rg (I : world -> Prop) (G : world -> world -> Prop)
    (t : running) (w : world) : Prop :=
  match t with
  | Ready p | Yielded p => forall w', G w w' -> proc_rg I G p w'
  | _ => True
  end.

(** A property of the world that no write to the fields of the given nodes
    can break. *)
Definition stable_on (I : world -> Prop) (xs : list node) : Prop :=
  forall x m w, In x xs -> I w -> I (set_attr x m w).

(** ** Listeners that only observe *)

(** A handler segment that neither raises nor changes a state. *)
Definition observer_segment (s : hsegment) : Prop :=
  forall h, s h = (None, h).

Definition observer (l : TransformListener) : Prop :=
  forall ev tname state,
    Forall observer_segment (listener_getattr l ev tname state).

Definition observers (r : SharedResource) : Prop :=
  Forall observer (listeners (listener r)).

(** ** Folding the children's transforms by hand *)

(** [for c in cs: state = c.transform(state)], stopping at the first
    exception. *)
Definition fold_transforms (cs : list node) (state : pyval) (h : heap)
  : result pyval * heap :=
  fold_left
    (fun acc c =>
       match acc with
       | (Ok state, h) => transform c state None h
       | (Raise e, h) => (Raise e, h)
       end)
    cs (Ok state, h).

(** ** The same pipeline without its listeners *)

(** The resource with an empty listener list. *)
Definition strip_resource (r : SharedResource) : SharedResource :=
  {| rid := rid r; llm := llm r; listener := {| listeners := [] |} |}.

Definition strip_shared (s : option SharedResource) : option SharedResource :=
  match s with
  | Some r => Some (strip_resource r)
  | None => None
  end.

Definition strip_mut (m : mut) : mut :=
  {| name := name m; shared := strip_shared (shared m); _inited := _inited m |}.

Fixpoint strip_node (n : node) : node :=
  match n with
  | Node o k c s a t p i u f g =>
      Node o k c (strip_shared s) (map strip_node a)
           (match t with
            | Some ts => Some (map strip_node ts)
            | None => None
            end) p i u f g
  end.

Definition strip_world (w : world) : world :=
  {| objs := strip_mut <$> objs w; states := states w |}.

(** Every listener that the fields of a node, a tree or a world refer to
    only observes. *)
Definition quiet_mut (m : mut) : Prop :=
  forall r, shared m = Some r -> observers r.

Definition quiet_tree (n : node) : Prop :=
  forall x, In x (nodes n) -> quiet_mut (constructed x).

Definition quiet_world (w : world) : Prop :=
  forall o m, objs w !! o = Some m -> quiet_mut m.

(** No node of the tree runs its children in parallel. *)
Definition sequential (n : node) : Prop :=
  forall x, In x (nodes n) -> _run_in_parallel x = false.

(** Two segments that do the same to worlds related by [f]. *)
Definition seg_sim (f : world -> world) (I : world -> Prop) (s s' : segment)
  : Prop :=
  forall w, I w -> s' (f w) = ((s w).1, f (s w).2) /\ I (s w).2.

Inductive task_sim (f : world -> world) (I : world -> Prop) : task -> task -> Prop :=
  | sim_pending c c' :
      Forall2 (seg_sim f I) c c' -> task_sim f I (Pending c) (Pending c')
  | sim_suspended c c' :
      Forall2 (seg_sim f I) c c' -> task_sim f I (Suspended c) (Suspended c')
  | sim_finished : task_sim f I Finished Finished
  | sim_failed e : task_sim f I (Failed e) (Failed e)
  | sim_cancelled : task_sim f I Cancelled Cancelled.

(** ** Scenarios *)

Definition no_schedule : scheduler := fun _ => [].

Definition empty_world : world := {| objs := ∅; states := ∅ |}.

(** A resource without listeners, as [BasePipeline(listeners=None)] builds. *)
Definition quiet_resource : SharedResource :=
  {| rid := 1; llm := 0; listener := {| listeners := [] |} |}.

(** A transform without children, built without a resource. *)
Definition leaf (o : oid) (cls : string) (f : option hook) (g : option stream_hook)
  : node :=
  Node o BaseTransform cls None [] None false KNone KNone f g.

(** [BasePipeline(transforms=ts, listeners=ls)] *)
Definition pipeline (o : oid) (r : SharedResource) (ts : list node) : node :=
  Node o BasePipeline "BasePipeline" (Some r) [] (Some ts) false
       (KList ["query"; "history"; "doc_ids"]) (KStr "response") None None.

(** A transform that keeps a sub-transform in an attribute and declares no
    children, as [PromptAgent] does with its generation step. *)
Definition embedding (o : oid) (r : SharedResource) (g : node) : node :=
  Node o BaseTransform "PromptAgent" (Some r) [g] None false KNone KNone
       None None.

Definition two_leaves : node :=
  pipeline 0 quiet_resource
    [leaf 1 "Retriever" None None; leaf 2 "Generation" None None].

(** A state [{query: "hi"}] held at reference 0. *)
Definition hi_state : dict := {[ "query" := PStr "hi" ]}.

Definition hi_world : world := {| objs := ∅; states := {[ 0 := hi_state ]} |}.

(** A hook that leaves a mark in the state it is given. *)
Definition marking (key value : string) : hook :=
  fun state _ h =>
    match state with
    | PDict r => (Ok state, <[r := <[key := PStr value]> (deref h r)]> h)
    | _ => (Ok state, h)
    end.

(** A listener whose enter handler raises at once. *)
Definition failing_listener : TransformListener :=
  {| h_transform_enter := fun _ _ => [fun h => (Some (UserError 1), h)];
     h_transform_exit := pass; h_enter := pass; h_exit := pass |}.

(** A listener whose enter handler suspends once before it ends. *)
Definition slow_listener : TransformListener :=
  {| h_transform_enter := fun _ _ => [fun h => (None, h); fun h => (None, h)];
     h_transform_exit := pass; h_enter := pass; h_exit := pass |}.

Definition guarded_resource : SharedResource :=
  {| rid := 2; llm := 0;
     listener := {| listeners := [slow_listener; failing_listener] |} |}.

(** A node with one child; both would mark the state if they ran. *)
Definition guarded_node : node :=
  Node 0 BaseTransform "Retriever" (Some guarded_resource) []
       (Some [leaf 1 "Reranker" (Some (marking "child" "ran")) None])
       false KNone KNone (Some (marking "self" "ran")) None.

(** The slow listener runs to its suspension point, then the failing one
    runs, then the slow one is resumed. *)
Definition interleaved : scheduler := fun _ => [0; 1; 0].

(** A listener whose exit handler records the state it is handed, in a
    dictionary of its own at reference 99. *)
Definition recording_listener : TransformListener :=
  {| h_transform_enter := pass;
     h_transform_exit :=
       fun _ state => [fun h => (None, <[99 := {[ "seen" := state ]}]> h)];
     h_enter := pass; h_exit := pass |}.

Definition recorded_resource : SharedResource :=
  {| rid := 3; llm := 0; listener := {| listeners := [recording_listener] |} |}.

(** A pipeline whose only child writes the response. *)
Definition answering_pipeline : node :=
  pipeline 0 recorded_resource
    [leaf 1 "Generation" (Some (marking "response" "42")) None].



(** A generator that yields three new states, each with a longer response. *)
Definition three_chunks : stream_hook :=
  fun state h =>
    match state with
    | PDict r =>
        let d := deref h r in
        ([PDict 1; PDict 2; PDict 3], None,
         <[3 := <["response" := PStr "abc"]> d]>
           (<[2 := <["response" := PStr "ab"]> d]>
              (<[1 := <["response" := PStr "a"]> d]> h)))
    | _ => ([], Some (TypeError "state"), h)
    end.

Definition streaming_pipeline : node :=
  pipeline 0 quiet_resource [leaf 1 "Generation" None (Some three_chunks)].

(** A pipeline of two leaves that mark the state in turn. *)
Definition marking_pipeline : node :=
  pipeline 0 quiet_resource
    [leaf 1 "Retriever" (Some (marking "context" "found")) None;
     leaf 2 "Generation" (Some (marking "response" "42")) None].

(** The pipeline of two marking leaves, with two listeners of the base
    class. *)
Definition observed_resource : SharedResource :=
  {| rid := 4; llm := 0;
     listener :=
       {| listeners := [TransformListener_base; TransformListener_base] |} |}.


(** ** Invariants of the object store *)

(** Every object marked as initialised holds a resource. *)
Definition consistent (w : world) : Prop :=
  forall o m, objs w !! o = Some m -> _inited m = true -> shared m <> None.

(** The object [o] has been written and holds a resource. *)
Definition has_resource (o : oid) (w : world) : Prop :=
  exists m, objs w !! o = Some m /\ shared m <> None.

(** No object loses its resource. *)
Definition keeps_resources (w w' : world) : Prop :=
  forall o, has_resource o w -> has_resource o w'.

(** ** Streaming the children by hand *)

(** [for c in cs: for s in c.stream_transform(state): yield s], every child
    on the same [state], stopping at the first exception. *)
Definition fold_streams (cs : list node) (state : pyval) (h : heap)
  : list pyval * option exn * heap :=
  fold_left
    (fun acc c =>
       match acc with
       | (ys, None, h) =>
           let '(ys', e, h') := stream_transform c state h in (ys ++ ys', e, h')
       | (ys, Some e, h) => (ys, Some e, h)
       end)
    cs ([], None, h).

(** ** More scenarios *)

(** A transform built without a resource and never initialised. *)
Definition orphan : node := leaf 7 "Generation" (Some (marking "response" "42")) None.

(** A hook that raises. *)
Definition failing (code : nat) : hook := fun _ _ h => (Raise (UserError code), h).

(** A pipeline of three leaves, the second of which fails. *)
Definition broken_pipeline : node :=
  pipeline 0 quiet_resource
    [leaf 1 "Retriever" (Some (marking "context" "found")) None;
     leaf 2 "Reranker" (Some (failing 2)) None;
     leaf 3 "Generation" (Some (marking "response" "42")) None].

(** A generator that yields the state it is given, twice. *)
Definition twice : stream_hook := fun state h => ([state; state], None, h).

(** A pipeline of two streaming leaves. *)
Definition two_streams : node :=
  pipeline 0 quiet_resource
    [leaf 1 "Retriever" None (Some twice);
     leaf 2 "Generation" None (Some three_chunks)].


(** A leaf that holds its own resource. *)
Definition lone_leaf : node :=
  Node 5 BaseTransform "Generation" (Some quiet_resource) [] None false
       KNone KNone (Some (marking "response" "42")) None.

(** A pipeline used as a step: [BasePipeline(transforms=[...])] *)
Definition inner_pipeline : node :=
  pipeline 1 quiet_resource
    [leaf 2 "Retriever" (Some (marking "context" "found")) None].

(** A pipeline with an observing listener and a streaming step. *)
Definition observed_stream : node :=
  Node 0 BasePipeline "BasePipeline" (Some observed_resource) []
       (Some [leaf 1 "Generation" None (Some three_chunks)]) false
       (KList ["query"; "history"; "doc_ids"]) (KStr "response") None None.

(** * Documents and chunks

    [srag/schema/document.py]: the two models and the methods of [Document]
    that read and extend its chunk list.  The fields are plain attributes;
    a method that mutates its object takes the object before the call and
    returns the object after it. *)

From Stdlib Require PrimFloat.

Module Chunk.

Inductive chunk_type_literal :=
  | text | image | markdown | table_md | code | table_desc | container.

Inductive t := mk {
  id : string;
  index : option Z;
  parent_chunk_id : option string;
  child_chunk_ids : option (list string);
  doc_id : option string;
  chunk_type : chunk_type_literal;
  content : option string;
  num_tokens : option Z;
  score : option PrimFloat.float;
  source : option string;
  description : option string;
  created_at : string;
  updated_at : string;
  metadata : option dict;
  children : list t
}.

(** [get_content_to_embed] *)
Definition get_content_to_embed (self : t) : option string := content self.

End Chunk.

Module Document.

Record t := mk {
  id : string;
  source : option string;
  description : option string;
  num_chunks : option Z;
  child_chunk_ids : option (list string);
  created_at : string;
  updated_at : string;
  index_name : option string;
  index_time : option PrimFloat.float;
  metadata : option dict;
  chunks : list Chunk.t
}.

(** [get_chunks]: the loop over [self.chunks], the accumulator being
    [flatten_chunks]. *)
Definition get_chunks (self : t) : list Chunk.t :=
  fold_left
    (fun flatten_chunks chunk =>
       match Chunk.children chunk with
       | _ :: _ => flatten_chunks ++ Chunk.children chunk
       | [] => flatten_chunks ++ [chunk]
       end)
    (chunks self) [].

(** [add_chunk] *)
Definition add_chunk (self : t) (chunk : Chunk.t) : t :=
  let chunks1 := chunks self ++ [chunk] in
  {| id := id self;
     source := source self;
     description := description self;
     num_chunks := Some (Z.of_nat (length chunks1));
     child_chunk_ids := Some (map Chunk.id chunks1);
     created_at := created_at self;
     updated_at := updated_at self;
     index_name := index_name self;
     index_time := index_time self;
     metadata := metadata self;
     chunks := chunks1 |}.

End Document.

(** What one chunk of a document contributes to [get_chunks]. *)
Definition leaves_of (c : Chunk.t) : list Chunk.t :=
  match Chunk.children c with
  | _ :: _ => Chunk.children c
  | [] => [c]
  end.

(** A text chunk with the given children, every other field at its default. *)
Definition chunk (i : string) (cs : list Chunk.t) : Chunk.t :=
  Chunk.mk i None None None None Chunk.text None None None None None
           "2024-01-01 00:00:00" "2024-01-01 00:00:00" None cs.

(** [Document(id=i)], before any chunk is added. *)
Definition empty_document (i : string) : Document.t :=
  Document.mk i None None None None
              "2024-01-01 00:00:00" "2024-01-01 00:00:00" None None None [].

(** A section with two paragraphs, and a paragraph on its own. *)
Definition section_chunk : Chunk.t := chunk "s" [chunk "p1" []; chunk "p2" []].
Definition lone_chunk : Chunk.t := chunk "q" [].

(** * Steps grouped in a transform *)

(** The steps a child stands for: itself, or the children it groups. *)
Definition steps_of (c : node) : list node :=
  match _transforms c with
  | Some gs => gs
  | None => [c]
  end.

(** [BaseTransform(transforms=ts)] *)
Definition group (o : oid) (ts : list node) : node :=
  Node o BaseTransform "BaseTransform" None [] (Some ts) false KNone KNone
       None None.

(** A pipeline whose last two steps are grouped. *)
Definition grouped_pipeline : node :=
  pipeline 0 quiet_resource
    [leaf 1 "Retriever" (Some (marking "context" "found")) None;
     group 2 [leaf 3 "Reranker" (Some (marking "context" "ranked")) None;
              leaf 4 "Generation" (Some (marking "response" "42")) None]].

(** [BasePipeline(output_key=["response", "cost"])] *)
Definition listkey_pipeline : node :=
  Node 0 BasePipeline "BasePipeline" (Some quiet_resource) []
       (Some [leaf 1 "Generation" (Some (marking "response" "42")) None]) false
       (KList ["query"; "history"; "doc_ids"]) (KList ["response"; "cost"])
       None None.

(** * The prompt of a [PromptAgent]

    [srag/agent/agent.py]: the prompt is the docstring of the class with
    every line stripped.  A string is the list of its code points. *)

Definition str := list N.

(** The code points of an ASCII literal. *)
Definition codes (s : string) : str :=
  map (fun a => N.of_nat (Ascii.nat_of_ascii a)) (String.list_ascii_of_string s).

Definition newline : N := 10%N.

(** [s.split(sep)] for a separator of one character *)
Fixpoint split (sep : N) (s : str) : list str :=
  match s with
  | [] => [[]]
  | c :: s' =>
      if N.eqb c sep then [] :: split sep s'
      else match split sep s' with
           | l :: ls => (c :: l) :: ls
           | [] => [[c]]
           end
  end.

(** [sep.join(ls)] for a separator of one character *)
Fixpoint join (sep : N) (ls : list str) : str :=
  match ls with
  | [] => []
  | [l] => l
  | l :: ls' => l ++ sep :: join sep ls'
  end.

Section Strip.
(** [str.isspace] on one character *)
Variable isspace : N -> bool.

Fixpoint lstrip (s : str) : str :=
  match s with
  | [] => []
  | c :: s' => if isspace c then lstrip s' else s
  end.

Definition rstrip (s : str) : str := rev (lstrip (rev s)).

(** [s.strip()] *)
Definition strip (s : str) : str := lstrip (rstrip s).

(** [PromptAgent.__init__]: the value assigned to [self.prompt], from the
    [__doc__] of the class, which is [None] for a class without docstring. *)
Definition prompt_of (doc : option str) : result str :=
  match doc with
  | None => Raise (AttributeError "'NoneType' object has no attribute 'split'")
  | Some d => Ok (join newline (map strip (split newline d)))
  end.
End Strip.

(** Whitespace among the ASCII characters. *)
Definition ascii_isspace (c : N) : bool :=
  ((9 <=? c) && (c <=? 13) || (28 <=? c) && (c <=? 32))%N.

(** * Scenarios for the corrected claims *)





(** [BasePipeline(transforms=[BasePipeline()])] *)
Definition nesting_pipeline : node :=
  pipeline 0 quiet_resource
    [Node 1 BasePipeline "BasePipeline" (Some quiet_resource) [] None false
          (KList ["query"; "history"; "doc_ids"]) (KStr "response") None None].

(** A transform that keeps its one child in an attribute and also lists
    it: [self.generation = Generation()] with
    [transforms=[self.generation]]. *)
Definition twice_reached : node :=
  Node 0 BaseTransform "PromptAgent" (Some quiet_resource)
       [leaf 1 "Generation" None None] (Some [leaf 1 "Generation" None None])
       false KNone KNone None None.

(** A resource of its own, for a transform used before it joins a tree. *)
Definition private_resource : SharedResource :=
  {| rid := 5; llm := 0; listener := {| listeners := [] |} |}.

(** A world in which the first leaf of [two_leaves] has already been
    initialised by itself, with its own resource. *)
Definition used_world : world :=
  (_init no_schedule (leaf 1 "Retriever" None None) (Some private_resource)
         empty_world).2.

(** * Induction on the transform tree *)

Section node_induction.
Variable P : node -> Prop.
Hypothesis step : forall n,
  Forall P (attrs n) ->
  Forall P (match _transforms n with Some ts => ts | None => [] end) ->
  P n.

Fixpoint node_ind_nested (n : node) : P n :=
  let go :=
    fix go (l : list node) : Forall P l :=
      match l with
      | [] => List.Forall_nil P
      | x :: l' => @List.Forall_cons node P x l' (node_ind_nested x) (go l')
      end in
  match n with
  | Node o k c s a t p i u f g =>
      step (Node o k c s a t p i u f g) (go a)
           (match t with Some ts => go ts | None => List.Forall_nil P end)
  end.
End node_induction.

(** * Properties of the scheduler *)

Lemma step_task_weight cancel t w :
  is_live t = true -> weight (step_task cancel t w).1 < weight t.
Proof.
  destruct t as [c|c| | |]; simpl; try discriminate; intros _.
  - destruct c as [|s c]; simpl; [lia|].
    destruct (s w) as [[e|] w']; simpl; [lia|].
    destruct c; simpl; lia.
  - destruct cancel; simpl; [lia|].
    destruct c as [|s c]; simpl; [lia|].
    destruct (s w) as [[e|] w']; simpl; [lia|].
    destruct c; simpl; lia.
Qed.

Lemma step_at_spec cancel k ts w :
  k < count_live ts ->
  exists i t,
    ts !! i = Some t /\ is_live t = true /\
    step_at cancel k ts w =
      (<[i := (step_task cancel t w).1]> ts, (step_task cancel t w).2).
Proof.
  revert k. induction ts as [|t ts IH]; simpl; intros k Hk; [lia|].
  destruct (is_live t) eqn:Hl.
  - destruct k as [|k].
    + exists 0, t. split; [done|]. split; [done|].
      by destruct (step_task cancel t w).
    + destruct (IH k) as (i & t0 & Hi & Hl0 & Heq); [simpl in Hk; lia|].
      exists (S i), t0. rewrite Heq. done.
  - destruct (IH k) as (i & t0 & Hi & Hl0 & Heq); [simpl in Hk; lia|].
    exists (S i), t0. rewrite Heq. done.
Qed.

Lemma total_weight_insert ts i t t' :
  ts !! i = Some t -> weight t' < weight t ->
  total_weight (<[i := t']> ts) < total_weight ts.
Proof.
  revert i. induction ts as [|x ts IH]; intros [|i]; simpl; try done.
  - intros [= ->] ?. lia.
  - intros Hi Hw. specialize (IH i Hi Hw). lia.
Qed.

Lemma count_live_weight ts : count_live ts <= total_weight ts.
Proof.
  induction ts as [|t ts IH]; simpl; [lia|].
  destruct t; simpl; lia.
Qed.

Lemma run_tasks_S fuel sch ts w :
  run_tasks (S fuel) sch ts w =
    match count_live ts with
    | 0 => (ts, w)
    | S l =>
        let '(ts', w') :=
          step_at (existsb is_failed ts && Nat.even (hd 0 sch / S l))
                  (hd 0 sch mod (S l)) ts w in
        run_tasks fuel (tl sch) ts' w'
    end.
Proof. reflexivity. Qed.

(** A property of the tasks and the world that every resumption keeps is
    kept by the whole run. *)
Lemma run_tasks_inv (P : list task -> world -> Prop) :
  (forall ts w i t cancel,
      P ts w -> ts !! i = Some t -> is_live t = true ->
      P (<[i := (step_task cancel t w).1]> ts) (step_task cancel t w).2) ->
  forall fuel sch ts w,
    P ts w -> P (run_tasks fuel sch ts w).1 (run_tasks fuel sch ts w).2.
Proof.
  intros Hstep. induction fuel as [|fuel IH]; intros sch ts w HP; [done|].
  rewrite run_tasks_S.
  destruct (count_live ts) as [|l] eqn:Hc; [done|].
  destruct (step_at_spec (existsb is_failed ts && Nat.even (hd 0 sch / S l))
              (hd 0 sch mod S l) ts w)
    as (i & t & Hi & Hl & Heq).
  { rewrite Hc. apply Nat.mod_upper_bound. lia. }
  rewrite Heq. apply IH. by apply Hstep.
Qed.

(** With fuel for every remaining resumption, the run stops only when no
    task is live. *)
Lemma run_tasks_terminal fuel sch ts w :
  total_weight ts <= fuel -> count_live (run_tasks fuel sch ts w).1 = 0.
Proof.
  revert sch ts w. induction fuel as [|fuel IH]; intros sch ts w Hf.
  - simpl. pose proof (count_live_weight ts). lia.
  - rewrite run_tasks_S.
    destruct (count_live ts) as [|l] eqn:Hc; [done|].
    destruct (step_at_spec (existsb is_failed ts && Nat.even (hd 0 sch / S l))
              (hd 0 sch mod S l) ts w)
      as (i & t & Hi & Hl & Heq).
    { rewrite Hc. apply Nat.mod_upper_bound. lia. }
    rewrite Heq. apply IH.
    pose proof (total_weight_insert ts i t
                  (step_task (existsb is_failed ts && Nat.even (hd 0 sch / S l)) t w).1 Hi
                  (step_task_weight _ t w Hl)).
    lia.
Qed.

Lemma task_group_terminal sch cs w :
  count_live (task_group sch cs w).1.2 = 0.
Proof.
  unfold task_group.
  pose proof (run_tasks_terminal (total_weight (map Pending cs)) sch
                (map Pending cs) w (Nat.le_refl _)) as H.
  destruct (run_tasks _ sch (map Pending cs) w) as [ts' w']. exact H.
Qed.

Lemma step_task_keeps I cancel t w :
  Forall (keeps I) (task_code t) -> I w ->
  I (step_task cancel t w).2 /\
  Forall (keeps I) (task_code (step_task cancel t w).1).
Proof.
  intros Hc HI.
  assert (forall c, Forall (keeps I) c ->
            I (resume c w).2 /\ Forall (keeps I) (task_code (resume c w).1)) as Hr.
  { intros [|s c] Hsc; simpl; [done|].
    apply Forall_cons in Hsc as [Hs Hsc]. specialize (Hs w HI).
    destruct (s w) as [[e|] w']; simpl in *; [done|].
    destruct c; simpl; done. }
  destruct t as [c|c| | |]; simpl in *; try done.
  - by apply Hr.
  - destruct cancel; simpl; [done|]. by apply Hr.
Qed.

Lemma task_group_keeps I sch cs w :
  Forall (Forall (keeps I)) cs -> I w -> I (task_group sch cs w).2.
Proof.
  intros Hcs HI. unfold task_group.
  set (P := fun (ts : list task) (w : world) =>
              I w /\ Forall (fun t => Forall (keeps I) (task_code t)) ts).
  assert (P (run_tasks (total_weight (map Pending cs)) sch (map Pending cs) w).1
            (run_tasks (total_weight (map Pending cs)) sch (map Pending cs) w).2)
    as [H _].
  { apply run_tasks_inv.
    - intros ts0 w0 i t cancel [HI0 Hts0] Hi Hl.
      destruct (step_task_keeps I cancel t w0) as [? ?]; [|done|].
      { eapply Forall_lookup_1 in Hts0; eauto. }
      split; [done|]. by apply Forall_insert.
    - split; [done|]. apply Forall_map. simpl. done. }
  by destruct (run_tasks _ sch (map Pending cs) w) as [ts' w'].
Qed.

Lemma step_task_safe I cancel t w :
  Forall (safe I) (task_code t) -> is_failed t = false -> I w ->
  I (step_task cancel t w).2 /\
  Forall (safe I) (task_code (step_task cancel t w).1) /\
  is_failed (step_task cancel t w).1 = false.
Proof.
  intros Hc Hf HI.
  assert (forall c, Forall (safe I) c ->
            I (resume c w).2 /\ Forall (safe I) (task_code (resume c w).1) /\
            is_failed (resume c w).1 = false) as Hr.
  { intros [|s c] Hsc; simpl; [done|].
    apply Forall_cons in Hsc as [Hs Hsc]. destruct (Hs w HI) as [Hn HI'].
    destruct (s w) as [[e|] w']; simpl in *; [done|].
    destruct c; simpl; done. }
  destruct t as [c|c| | |]; simpl in *; try done.
  - by apply Hr.
  - destruct cancel; simpl; [done|]. by apply Hr.
Qed.

Lemma failures_nil ts :
  Forall (fun t => is_failed t = false) ts -> failures ts = [].
Proof.
  induction 1 as [|t ts Ht _ IH]; simpl; [done|].
  rewrite IH. by destruct t.
Qed.

(** Tasks whose code never raises leave the group without an exception. *)
Lemma task_group_safe I sch cs w :
  Forall (Forall (safe I)) cs -> I w ->
  (task_group sch cs w).1.1 = None /\ I (task_group sch cs w).2.
Proof.
  intros Hcs HI. unfold task_group.
  set (P := fun (ts : list task) (w : world) =>
       I w /\
       Forall (fun t => Forall (safe I) (task_code t) /\ is_failed t = false) ts).
  assert (P (run_tasks (total_weight (map Pending cs)) sch (map Pending cs) w).1
            (run_tasks (total_weight (map Pending cs)) sch (map Pending cs) w).2)
    as [HI' Hts'].
  { apply run_tasks_inv.
    - intros ts0 w0 i t cancel [HI0 Hts0] Hi Hl.
      pose proof (Forall_lookup_1 _ _ _ _ Hts0 Hi) as [Hc Hf].
      destruct (step_task_safe I cancel t w0) as (? & ? & ?);
        [done..|].
      split; [done|]. by apply Forall_insert.
    - split; [done|]. apply Forall_map. simpl.
      eapply Forall_impl; [exact Hcs|]. done. }
  destruct (run_tasks _ sch (map Pending cs) w) as [ts' w']. simpl in *.
  split; [|done].
  rewrite failures_nil; [done|].
  eapply Forall_impl; [exact Hts'|]. by intros ? [_ ?].
Qed.

(** * Properties of initialisation *)

Lemma nodes_eq n : nodes n = n :: flat_map nodes (sub n).
Proof.
  destruct n as [o k c s a t p i u f g]; unfold sub; simpl.
  destruct t; simpl; [|done]. by rewrite flat_map_app.
Qed.

Lemma nodes_self n : In n (nodes n).
Proof. rewrite nodes_eq. by left. Qed.

Lemma nodes_sub n c x : In c (sub n) -> In x (nodes c) -> In x (nodes n).
Proof.
  intros Hc Hx. rewrite nodes_eq. right. apply in_flat_map. eauto.
Qed.

Lemma ids_sub n c o : In c (sub n) -> In o (ids c) -> In o (ids n).
Proof.
  unfold ids. rewrite !in_map_iff. intros Hc (x & <- & Hx).
  exists x. split; [done|]. by eapply nodes_sub.
Qed.

Lemma ids_self n : In (oid_of n) (ids n).
Proof. unfold ids. apply in_map, nodes_self. Qed.

Section InitFacts.
Variable sched : scheduler.

Lemma _init_sub_transforms_eq self w :
  _init_sub_transforms sched self w =
    match _transforms self with
    | Some _ =>
        let w1 := fold_left (fun w t => rename_child self t w) (sub self) w in
        let '(e, _, w2) :=
          task_group (sched (InitSite (oid_of self)))
            (map (fun t => [fun w' => _init sched t (shared (attr self w)) w'])
                 (sub self)) w1 in
        (e, w2)
    | None => (None, w)
    end.
Proof.
  unfold _init_sub_transforms, _init_sub_transforms_with, sub.
  destruct (_transforms self); [|done]. by rewrite map_app.
Qed.

Lemma _init_eq self shared_arg w :
  _init sched self shared_arg w =
    if _inited (attr self w) then (None, w)
    else
      match shared (attr self w), shared_arg with
      | None, None => (Some (RuntimeError "SharedResource not provided."), w)
      | _, _ =>
          let w1 :=
            set_shared self
              (match shared_arg with
               | Some s => Some s
               | None => shared (attr self w)
               end) w in
          match _init_sub_transforms sched self w1 with
          | (Some e, w2) => (Some e, w2)
          | (None, w2) => (None, set_inited self true w2)
          end
      end.
Proof. destruct self; reflexivity. Qed.

Lemma attr_set_attr_eq n m w : attr n (set_attr n m w) = m.
Proof. unfold attr, set_attr; simpl. by rewrite lookup_insert_eq. Qed.

Lemma objs_set_attr_ne n m w o :
  o <> oid_of n -> objs (set_attr n m w) !! o = objs w !! o.
Proof. intros. unfold set_attr; simpl. by rewrite lookup_insert_ne. Qed.

Lemma shared_set_shared n s w : shared (attr n (set_shared n s w)) = s.
Proof. unfold set_shared. by rewrite attr_set_attr_eq. Qed.

Lemma inited_set_shared n s w :
  _inited (attr n (set_shared n s w)) = _inited (attr n w).
Proof. unfold set_shared. by rewrite attr_set_attr_eq. Qed.

Lemma inited_set_inited n b w : _inited (attr n (set_inited n b w)) = b.
Proof. unfold set_inited. by rewrite attr_set_attr_eq. Qed.

Lemma shared_set_inited n b w :
  shared (attr n (set_inited n b w)) = shared (attr n w).
Proof. unfold set_inited. by rewrite attr_set_attr_eq. Qed.

Lemma _init_sub_transforms_ok n r w :
  Forall (fun c => forall r w, (_init sched c (Some r) w).1 = None) (sub n) ->
  shared (attr n w) = Some r ->
  (_init_sub_transforms sched n w).1 = None.
Proof.
  intros Hall Hr. rewrite _init_sub_transforms_eq, Hr.
  destruct (_transforms n) as [ts|] eqn:Hts; [|done].
  cbv zeta.
  match goal with |- context [task_group ?s ?cs ?w1] =>
    pose proof (task_group_safe (fun _ => True) s cs w1) as Hs;
    destruct (task_group s cs w1) as [[e tks] w2]
  end.
  simpl in *. apply Hs; [|done].
  apply Forall_map. apply Forall_forall. intros c Hc.
  apply Forall_cons. split; [|done]. intros w' _. split; [|done].
  rewrite Forall_forall in Hall. by apply Hall.
Qed.

(** Initialisation with a resource at hand never raises: every
    sub-transform is handed the resource of its parent. *)
Lemma _init_with_resource n :
  forall r w, (_init sched n (Some r) w).1 = None.
Proof.
  induction n as [n IHa IHt] using node_ind_nested. intros r w.
  rewrite _init_eq. destruct (_inited (attr n w)); [done|].
  assert ((_init_sub_transforms sched n (set_shared n (Some r) w)).1 = None)
    as Hsub.
  { apply (_init_sub_transforms_ok n r); [|by rewrite shared_set_shared].
    unfold sub. destruct (_transforms n); [|done]. by apply Forall_app. }
  destruct (shared (attr n w)); cbv zeta;
    destruct (_init_sub_transforms sched n _) as [[e|] w2]; simpl in *; done.
Qed.

Lemma _init_available n shared_arg w :
  shared_arg <> None \/ shared (attr n w) <> None ->
  (_init sched n shared_arg w).1 = None.
Proof.
  intros Hav. destruct shared_arg as [r|]; [apply _init_with_resource|].
  destruct Hav as [?|Hown]; [done|].
  rewrite _init_eq. destruct (_inited (attr n w)); [done|].
  destruct (shared (attr n w)) as [r|] eqn:Hr; [|done]. cbv zeta.
  assert ((_init_sub_transforms sched n (set_shared n (Some r) w)).1 = None)
    as Hsub.
  { apply (_init_sub_transforms_ok n r); [|by rewrite shared_set_shared].
    apply Forall_forall. intros c _. apply _init_with_resource. }
  destruct (_init_sub_transforms sched n _) as [[e|] w2]; simpl in *; done.
Qed.

(** The only exception initialisation raises is the one for the missing
    resource, raised before anything is changed. *)
Lemma _init_raises n shared_arg w e :
  (_init sched n shared_arg w).1 = Some e ->
  e = RuntimeError "SharedResource not provided." /\
  shared_arg = None /\ shared (attr n w) = None /\
  _inited (attr n w) = false /\ (_init sched n shared_arg w).2 = w.
Proof.
  intros He.
  destruct shared_arg as [r|].
  { by rewrite _init_with_resource in He. }
  destruct (shared (attr n w)) as [r|] eqn:Hr.
  { rewrite _init_available in He; [done|]. right. by rewrite Hr. }
  rewrite _init_eq in He |- *. rewrite Hr in He |- *.
  destruct (_inited (attr n w)); simpl in *; [done|].
  by injection He as <-.
Qed.

Lemma _init_marks n shared_arg w :
  (_init sched n shared_arg w).1 = None ->
  _inited (attr n (_init sched n shared_arg w).2) = true.
Proof.
  rewrite _init_eq. destruct (_inited (attr n w)) eqn:Hi; [done|].
  destruct (shared (attr n w)), shared_arg; cbv zeta; try done;
    destruct (_init_sub_transforms sched n _) as [[e|] w2]; simpl;
    try done; intros _; apply inited_set_inited.
Qed.

Lemma _init_again n shared_arg w :
  _inited (attr n w) = true -> _init sched n shared_arg w = (None, w).
Proof. intros Hi. by rewrite _init_eq, Hi. Qed.
End InitFacts.

(** ** Tasks that run without suspension *)

Lemma count_live_0 ts i t :
  count_live ts = 0 -> ts !! i = Some t -> is_live t = false.
Proof.
  revert i. induction ts as [|x ts IH]; intros [|i]; simpl; try done.
  - intros H [= ->]. destruct (is_live t); [lia|done].
  - intros H Hi. apply (IH i); [|done]. destruct (is_live x); lia.
Qed.

(** Tasks of one segment each, every one with a precondition that the others
    keep and a postcondition that the others keep: all of them run, none
    raises, and every postcondition holds when the group is left. *)
Lemma task_group_atomic_rule (segs : list segment)
    (Pre Post : nat -> world -> Prop) sch w :
  (forall i s w, segs !! i = Some s -> Pre i w ->
                 (s w).1 = None /\ Post i (s w).2) ->
  (forall i j s w, segs !! i = Some s -> j < length segs -> i <> j -> Pre i w ->
                   (Pre j w -> Pre j (s w).2) /\ (Post j w -> Post j (s w).2)) ->
  (forall i, i < length segs -> Pre i w) ->
  (task_group sch (map (fun s => [s]) segs) w).1.1 = None /\
  forall i, i < length segs ->
            Post i (task_group sch (map (fun s => [s]) segs) w).2.
Proof.
  intros H1 H2 H0. unfold task_group.
  set (ts0 := map Pending (map (fun s => [s]) segs)).
  set (P := fun (ts : list task) (w : world) =>
    length ts = length segs /\
    forall i s, segs !! i = Some s ->
      (ts !! i = Some (Pending [s]) /\ Pre i w) \/
      (ts !! i = Some Finished /\ Post i w)).
  assert (P (run_tasks (total_weight ts0) sch ts0 w).1
            (run_tasks (total_weight ts0) sch ts0 w).2) as [Hlen HP].
  { apply run_tasks_inv.
    - intros ts w1 i t cancel [Hlen HP] Hi Hl.
      assert (i < length segs) as Hlt.
      { rewrite <- Hlen. by eapply lookup_lt_Some. }
      destruct (lookup_lt_is_Some_2 segs i Hlt) as [s Hs].
      destruct (HP i s Hs) as [[Hp Hpre]|[Hf _]];
        [|rewrite Hi in Hf; by injection Hf as ->].
      rewrite Hi in Hp. injection Hp as ->. simpl.
      destruct (H1 i s w1 Hs Hpre) as [Hnone Hpost].
      destruct (s w1) as [[e|] w1'] eqn:Hsw; simpl in *; [done|].
      split; [by rewrite length_insert|].
      intros j s' Hs'. destruct (decide (i = j)) as [<-|Hne].
      + right. rewrite list_lookup_insert_eq; [|by eapply lookup_lt_Some].
        split; [done|]. rewrite Hs in Hs'. by injection Hs' as <-.
      + rewrite list_lookup_insert_ne; [|done].
        assert (j < length segs) as Hj by by eapply lookup_lt_Some.
        destruct (H2 i j s w1 Hs Hj Hne Hpre) as [Hk1 Hk2].
        rewrite Hsw in Hk1, Hk2. simpl in *.
        destruct (HP j s' Hs') as [[? ?]|[? ?]]; [left|right]; auto.
    - split; [unfold ts0; by rewrite !length_map|].
      intros i s Hs. left. split.
      + unfold ts0. rewrite !list_lookup_fmap, Hs. done.
      + apply H0. by eapply lookup_lt_Some. }
  pose proof (run_tasks_terminal (total_weight ts0) sch ts0 w (Nat.le_refl _))
    as Hterm.
  destruct (run_tasks (total_weight ts0) sch ts0 w) as [ts' w']. simpl in *.
  assert (forall i s, segs !! i = Some s ->
            ts' !! i = Some Finished /\ Post i w') as Hfin.
  { intros i s Hs. destruct (HP i s Hs) as [[Hp _]|?]; [|done].
    by pose proof (count_live_0 _ _ _ Hterm Hp). }
  split.
  - rewrite failures_nil; [done|].
    apply Forall_lookup. intros i t Hi.
    assert (i < length segs) as Hlt.
    { rewrite <- Hlen. by eapply lookup_lt_Some. }
    destruct (lookup_lt_is_Some_2 segs i Hlt) as [s Hs].
    destruct (Hfin i s Hs) as [Hf _]. rewrite Hi in Hf. by injection Hf as ->.
  - intros i Hlt. destruct (lookup_lt_is_Some_2 segs i Hlt) as [s Hs].
    by destruct (Hfin i s Hs).
Qed.

(** ** What initialisation changes *)

Lemma Forall_sub (P : node -> Prop) n :
  Forall P (attrs n) ->
  Forall P (match _transforms n with Some ts => ts | None => [] end) ->
  Forall P (sub n).
Proof.
  unfold sub. destruct (_transforms n); [|done]. intros. by apply Forall_app.
Qed.

Section InitTree.
Variable sched : scheduler.

Lemma _init_eq_effective self shared_arg w :
  _init sched self shared_arg w =
    if _inited (attr self w) then (None, w)
    else
      match
        match shared_arg with
        | Some s => Some s
        | None => shared (attr self w)
        end
      with
      | None => (Some (RuntimeError "SharedResource not provided."), w)
      | Some r =>
          match _init_sub_transforms sched self (set_shared self (Some r) w) with
          | (Some e, w2) => (Some e, w2)
          | (None, w2) => (None, set_inited self true w2)
          end
      end.
Proof.
  rewrite _init_eq.
  destruct (_inited (attr self w)), (shared (attr self w)), shared_arg;
    reflexivity.
Qed.

Lemma fold_rename_keeps I self cs w :
  stable_on I cs -> I w ->
  I (fold_left (fun w t => rename_child self t w) cs w).
Proof.
  revert w. induction cs as [|c cs IH]; simpl; intros w Hst HI; [done|].
  apply IH.
  - intros x m w' Hx. apply Hst. by right.
  - apply Hst; [by left|done].
Qed.

Lemma _init_keeps n :
  forall I, stable_on I (nodes n) ->
  forall shared_arg w, I w -> I (_init sched n shared_arg w).2.
Proof.
  induction n as [n IHa IHt] using node_ind_nested.
  intros I Hst shared_arg w HI.
  pose proof (Forall_sub _ n IHa IHt) as IH. clear IHa IHt.
  rewrite List.Forall_forall in IH.
  rewrite _init_eq_effective. destruct (_inited (attr n w)); [done|].
  destruct (match shared_arg with Some s => Some s | None => shared (attr n w) end)
    as [r|]; [|done].
  assert (I (set_shared n (Some r) w)) as HI1.
  { apply Hst; [apply nodes_self|done]. }
  assert (I (_init_sub_transforms sched n (set_shared n (Some r) w)).2) as HI2.
  { rewrite _init_sub_transforms_eq.
    destruct (_transforms n) as [ts|] eqn:Hts; [|done]. cbv zeta.
    match goal with |- context [task_group ?s ?cs ?w1] =>
      pose proof (task_group_keeps I s cs w1) as Hk;
      destruct (task_group s cs w1) as [[e tks] w2]
    end.
    simpl in *. apply Hk.
    - apply Forall_map, List.Forall_forall. intros c Hc.
      apply Forall_cons. split; [|done]. intros w' HI'.
      apply IH; [done| |done].
      intros x m w'' Hx. apply Hst. by eapply nodes_sub.
    - apply fold_rename_keeps; [|done].
      intros x m w' Hx. apply Hst. eapply nodes_sub; [done|apply nodes_self]. }
  destruct (_init_sub_transforms sched n _) as [[e|] w2]; simpl in *; [done|].
  apply Hst; [apply nodes_self|done].
Qed.

(** Initialisation writes only to the nodes it reaches, and never to a
    state. *)
Lemma _init_frame n shared_arg w o :
  ~ In o (ids n) ->
  objs (_init sched n shared_arg w).2 !! o = objs w !! o.
Proof.
  intros Ho.
  apply (_init_keeps n (fun w' => objs w' !! o = objs w !! o)); [|done].
  intros x m w' Hx Hw'. rewrite objs_set_attr_ne; [done|].
  intros ->. apply Ho. unfold ids. by apply in_map.
Qed.

Lemma _init_states n shared_arg w :
  states (_init sched n shared_arg w).2 = states w.
Proof.
  apply (_init_keeps n (fun w' => states w' = states w)); [|done].
  by intros x m w' _ Hw'.
Qed.
End InitTree.

(** ** Trees without sharing *)

Lemma ids_eq n : ids n = oid_of n :: flat_map ids (sub n).
Proof.
  unfold ids at 1. rewrite nodes_eq. simpl. f_equal.
  induction (sub n) as [|c cs IH]; simpl; [done|].
  by rewrite map_app, IH.
Qed.

Lemma NoDup_flat_map_elem {A B} (f : A -> list B) l a :
  NoDup (flat_map f l) -> In a l -> NoDup (f a).
Proof.
  induction l as [|x l IH]; simpl; [done|].
  intros Hnd [->|Ha].
  - by apply NoDup_app in Hnd as (? & _ & _).
  - apply IH; [|done]. by apply NoDup_app in Hnd as (_ & _ & ?).
Qed.

Lemma NoDup_flat_map_lookup {A B} (f : A -> list B) l i j a b :
  NoDup (flat_map f l) -> l !! i = Some a -> l !! j = Some b -> i <> j ->
  forall x, In x (f a) -> ~ In x (f b).
Proof.
  revert i j. induction l as [|y l IH]; intros i j Hnd Hi Hj Hne x Ha Hb;
    [done|].
  simpl in Hnd. apply NoDup_app in Hnd as (_ & Hdis & Hnd).
  destruct i as [|i], j as [|j]; simpl in *; try done.
  - injection Hi as ->. apply (Hdis x); [by apply list_elem_of_In|].
    apply list_elem_of_In, in_flat_map. exists b. split; [|done].
    apply list_elem_of_In. by eapply list_elem_of_lookup_2.
  - injection Hj as ->. apply (Hdis x); [by apply list_elem_of_In|].
    apply list_elem_of_In, in_flat_map. exists a. split; [|done].
    apply list_elem_of_In. by eapply list_elem_of_lookup_2.
  - eapply (IH i j); eauto.
Qed.

Lemma NoDup_ids_sub n c : NoDup (ids n) -> In c (sub n) -> NoDup (ids c).
Proof.
  rewrite ids_eq. intros Hnd Hc. apply NoDup_cons in Hnd as [_ Hnd].
  by eapply NoDup_flat_map_elem.
Qed.

Lemma NoDup_ids_root n c :
  NoDup (ids n) -> In c (sub n) -> ~ In (oid_of n) (ids c).
Proof.
  rewrite ids_eq. intros Hnd Hc Hin.
  apply NoDup_cons in Hnd as [Hn _]. apply Hn.
  apply list_elem_of_In, in_flat_map. eauto.
Qed.

Lemma NoDup_ids_disjoint n i j a b :
  NoDup (ids n) -> sub n !! i = Some a -> sub n !! j = Some b -> i <> j ->
  forall o, In o (ids a) -> ~ In o (ids b).
Proof.
  rewrite ids_eq. intros Hnd. apply NoDup_cons in Hnd as [_ Hnd].
  by apply NoDup_flat_map_lookup.
Qed.

Lemma In_lookup {A} (l : list A) x : In x l -> exists i, l !! i = Some x.
Proof. intros H. by apply list_elem_of_lookup_1, list_elem_of_In. Qed.

Lemma lookup_In {A} (l : list A) i x : l !! i = Some x -> In x l.
Proof. intros H. apply list_elem_of_In. by eapply list_elem_of_lookup_2. Qed.

(** ** Resource propagation *)

Lemma inited_attr x w : _inited (attr x w) = inited_at (oid_of x) w.
Proof. unfold attr, inited_at. by destruct (objs w !! oid_of x). Qed.

Lemma attr_ext x w w' :
  objs w' !! oid_of x = objs w !! oid_of x -> attr x w' = attr x w.
Proof. unfold attr. by intros ->. Qed.

Lemma inited_at_set_name t s w o :
  inited_at o (set_name t s w) = inited_at o w.
Proof.
  unfold set_name, set_attr, inited_at at 1; simpl.
  destruct (decide (oid_of t = o)) as [<-|Hne].
  - rewrite lookup_insert_eq. simpl. apply inited_attr.
  - by rewrite lookup_insert_ne.
Qed.

Lemma inited_at_set_shared t s w o :
  inited_at o (set_shared t s w) = inited_at o w.
Proof.
  unfold set_shared, set_attr, inited_at at 1; simpl.
  destruct (decide (oid_of t = o)) as [<-|Hne].
  - rewrite lookup_insert_eq. simpl. apply inited_attr.
  - by rewrite lookup_insert_ne.
Qed.

Lemma inited_at_fold_rename self cs w o :
  inited_at o (fold_left (fun w t => rename_child self t w) cs w) = inited_at o w.
Proof.
  revert w. induction cs as [|c cs IH]; simpl; intros w; [done|].
  rewrite IH. apply inited_at_set_name.
Qed.

Section Propagation.
Variable sched : scheduler.

Lemma sub_None n : _transforms n = None -> sub n = [].
Proof. unfold sub. by intros ->. Qed.

(** On a tree that has not been initialised, initialisation hands the one
    resource to every node it reaches and marks each of them. *)
Lemma _init_propagates n :
  forall r shared_arg w,
    NoDup (ids n) -> fresh_tree n w ->
    match shared_arg with
    | Some s => Some s
    | None => shared (attr n w)
    end = Some r ->
    ready r n (_init sched n shared_arg w).2.
Proof.
  induction n as [n IHa IHt] using node_ind_nested.
  intros r shared_arg w Hnd Hfr Heff.
  pose proof (Forall_sub _ n IHa IHt) as IH. clear IHa IHt.
  rewrite List.Forall_forall in IH.
  rewrite _init_eq_effective, (Hfr n (nodes_self n)), Heff.
  rewrite _init_sub_transforms_eq, shared_set_shared.
  destruct (_transforms n) as [ts|] eqn:Hts.
  - cbv zeta.
    set (w1 := fold_left (fun w t => rename_child n t w) (sub n)
                         (set_shared n (Some r) w)).
    set (segs := map (fun t w' => _init sched t (Some r) w') (sub n)).
    replace (map (fun t => [fun w' => _init sched t (Some r) w']) (sub n))
      with (map (fun s : segment => [s]) segs)
      by (unfold segs; rewrite map_map; done).
    set (Pre := fun i w => exists c, sub n !! i = Some c /\ fresh_tree c w).
    set (Post := fun i w => exists c, sub n !! i = Some c /\ ready r c w).
    destruct (task_group_atomic_rule segs Pre Post
                (sched (InitSite (oid_of n))) w1) as [Hnone Hpost].
    { intros i s w' Hs (c & Hc & Hfc).
      unfold segs in Hs. rewrite list_lookup_fmap, Hc in Hs.
      injection Hs as <-. split; [apply _init_with_resource|].
      exists c. split; [done|].
      apply IH; [by eapply lookup_In| |done|done].
      eapply NoDup_ids_sub; [done|by eapply lookup_In]. }
    { intros i j s w' Hs Hj Hne (c & Hc & Hfc).
      unfold segs in Hs. rewrite list_lookup_fmap, Hc in Hs.
      injection Hs as <-.
      assert (forall d x, sub n !! j = Some d -> In x (nodes d) ->
                attr x (_init sched c (Some r) w').2 = attr x w') as Hsame.
      { intros d x Hd Hx. apply attr_ext, _init_frame.
        intros Hin. eapply (NoDup_ids_disjoint n i j c d); eauto.
        unfold ids. by apply in_map. }
      split.
      - intros (d & Hd & Hfd). exists d. split; [done|].
        intros x Hx. rewrite (Hsame d x Hd Hx). by apply Hfd.
      - intros (d & Hd & Hrd). exists d. split; [done|].
        intros x Hx. rewrite (Hsame d x Hd Hx). by apply Hrd. }
    { intros i Hi. unfold segs in Hi. rewrite length_map in Hi.
      destruct (lookup_lt_is_Some_2 _ _ Hi) as [c Hc].
      exists c. split; [done|]. intros x Hx.
      unfold w1. rewrite inited_attr, inited_at_fold_rename,
        inited_at_set_shared, <- inited_attr.
      apply Hfr. eapply nodes_sub; [by eapply lookup_In|done]. }
    assert (objs (task_group (sched (InitSite (oid_of n)))
                    (map (fun s : segment => [s]) segs) w1).2 !! oid_of n
            = objs (set_shared n (Some r) w) !! oid_of n) as Hroot.
    { apply (task_group_keeps
               (fun w' => objs w' !! oid_of n
                          = objs (set_shared n (Some r) w) !! oid_of n)).
      - unfold segs. rewrite map_map. apply Forall_map, List.Forall_forall.
        intros c Hc. apply Forall_cons. split; [|done].
        intros w' Hw'. rewrite _init_frame; [done|].
        by apply NoDup_ids_root.
      - unfold w1. apply fold_rename_keeps; [|done].
        intros x m w' Hx Hw'. rewrite objs_set_attr_ne; [done|].
        intros Heq. apply (NoDup_ids_root n x Hnd Hx).
        rewrite Heq. apply ids_self. }
    destruct (task_group _ _ w1) as [[e tks] w2]. cbn [fst snd] in *. subst e.
    cbn [snd]. intros x Hx. rewrite nodes_eq in Hx. destruct Hx as [<-|Hx].
    + rewrite shared_set_inited, inited_set_inited. split; [|done].
      rewrite (attr_ext n (set_shared n (Some r) w) w2 Hroot).
      apply shared_set_shared.
    + apply in_flat_map in Hx as (c & Hc & Hx).
      destruct (In_lookup _ _ Hc) as [i Hi].
      destruct (Hpost i) as (c' & Hc' & Hrc).
      { unfold segs. rewrite length_map. by eapply lookup_lt_Some. }
      rewrite Hi in Hc'. injection Hc' as <-.
      rewrite (attr_ext x w2 (set_inited n true w2)); [by apply Hrc|].
      unfold set_inited. rewrite objs_set_attr_ne; [done|].
      intros Heq. apply (NoDup_ids_root n c Hnd Hc).
      rewrite <- Heq. unfold ids. by apply in_map.
  - cbn [fst snd]. intros x Hx. rewrite nodes_eq, (sub_None n Hts) in Hx.
    destruct Hx as [<-|[]].
    by rewrite shared_set_inited, inited_set_inited, shared_set_shared.
Qed.
End Propagation.

(** * Properties of execution *)

Lemma set_states_id w : set_states (states w) w = w.
Proof. by destruct w. Qed.

Lemma lift_observer s w : observer_segment s -> lift_segment s w = (None, w).
Proof.
  intros Hs. unfold lift_segment. rewrite Hs. by rewrite set_states_id.
Qed.

(** Listeners that only observe leave the world as it is, and the
    broadcast raises nothing. *)
Lemma _on_event_observers sch l ev tname state w :
  Forall observer (listeners l) ->
  (_on_event sch l ev tname state w).1.1 = None /\
  (_on_event sch l ev tname state w).2 = w.
Proof.
  intros Hobs. unfold _on_event.
  destruct (listeners l) as [|x ls] eqn:Hls; [done|].
  rewrite <- Hls in *. clear Hls x ls.
  apply (task_group_safe (fun w' => w' = w)); [|done].
  apply Forall_map. eapply Forall_impl; [exact Hobs|].
  intros x Hx. apply Forall_map.
  eapply Forall_impl; [exact (Hx ev tname state)|].
  intros s Hs w' ->. by rewrite lift_observer.
Qed.

Section RunFacts.
Variable sched : scheduler.

Lemma fold_left_map_fun {A B C} (f : A -> C -> A) (g : B -> C) l a :
  fold_left f (map g l) a = fold_left (fun a x => f a (g x)) l a.
Proof. revert a. induction l as [|x l IH]; simpl; intros a; [done|]. apply IH. Qed.

Lemma __call___eq self state kwargs w :
  __call__ sched self state kwargs w =
    match _init sched self None w with
    | (Some e, w) => (Raise e, w)
    | (None, w) =>
    match broadcast sched self on_transform_enter state w with
    | (Some e, _, w) => (Raise e, w)
    | (None, _, w) =>
    match _run_sub_transforms sched self state w with
    | (Raise e, w) => (Raise e, w)
    | (Ok state, w) =>
    match transform self state kwargs (states w) with
    | (Raise e, h) => (Raise e, set_states h w)
    | (Ok ret, h) =>
    match broadcast sched self on_transform_exit state (set_states h w) with
    | (Some e, _, w) => (Raise e, w)
    | (None, _, w) => (Ok ret, w)
    end end end end end.
Proof. destruct self; reflexivity. Qed.

Lemma _run_sub_transforms_eq self state w :
  _run_sub_transforms sched self state w =
    match _transforms self with
    | None => (Ok state, w)
    | Some ts =>
        if _run_in_parallel self then
          let '(e, _, w') :=
            par_group (sched (RunSite (oid_of self)))
                      (child_steps sched self state) w in
          match e with
          | Some e => (Raise e, w')
          | None => (Ok state, w')
          end
        else
          fold_left
            (fun acc t =>
               match acc with
               | (Ok state, w) => call sched t state w
               | (Raise e, w) => (Raise e, w)
               end)
            ts (Ok state, w)
    end.
Proof.
  unfold _run_sub_transforms, _run_sub_transforms_with.
  destruct (_transforms self) as [ts|]; [|done].
  destruct (_run_in_parallel self); [done|].
  by rewrite fold_left_map_fun.
Qed.

Lemma call_BaseTransform t state w :
  klass_of t = BaseTransform ->
  call sched t state w = __call__ sched t state None w.
Proof. intros Hk. unfold call, bound_call. by rewrite Hk. Qed.

Lemma broadcast_observers self ev state w r :
  shared (attr self w) = Some r -> observers r ->
  (broadcast sched self ev state w).1.1 = None /\
  (broadcast sched self ev state w).2 = w.
Proof.
  intros Hr Hobs. unfold broadcast. rewrite Hr.
  by apply _on_event_observers.
Qed.

Lemma broadcast_terminal self ev state w :
  count_live (broadcast sched self ev state w).1.2 = 0.
Proof.
  unfold broadcast, _on_event.
  destruct (shared (attr self w)) as [r|]; [|done].
  destruct (listeners (listener r)); [done|].
  apply task_group_terminal.
Qed.
End RunFacts.

Lemma count_live_none ts :
  count_live ts = 0 -> Forall (fun t => is_live t = false) ts.
Proof.
  intros H. apply Forall_lookup. intros i t Hi. by eapply count_live_0.
Qed.

Lemma _get_input_list_other (state : dict) (ks : list string) (k : string)
    (m : gmap (option string) pyval) :
  ~ In k ks ->
  fold_left (fun (m : gmap (option string) pyval) k =>
               <[Some k := dict_get state k]> m) ks m !! Some k
  = m !! Some k.
Proof.
  revert m. induction ks as [|k0 ks IH]; simpl; intros m Hk; [done|].
  rewrite IH; [|tauto]. rewrite lookup_insert_ne; [done|].
  intros [= ->]. tauto.
Qed.

Lemma _get_input_list (state : dict) (ks : list string) (k : string)
    (m : gmap (option string) pyval) :
  In k ks ->
  fold_left (fun (m : gmap (option string) pyval) k =>
               <[Some k := dict_get state k]> m) ks m !! Some k
  = Some (dict_get state k).
Proof.
  revert m. induction ks as [|k0 ks IH]; simpl; intros m Hk; [done|].
  destruct (in_dec string_dec k ks) as [Hin|Hnin]; [by apply IH|].
  destruct Hk as [->|Hk]; [|done].
  rewrite _get_input_list_other; [|done]. by rewrite lookup_insert_eq.
Qed.

Lemma failures_In ts e : In (Failed e) ts -> In e (failures ts).
Proof.
  intros H. unfold failures. apply in_flat_map.
  exists (Failed e). split; [done|]. by left.
Qed.

(** * Leaves and sequential children *)

Lemma attr_set_states x h w : attr x (set_states h w) = attr x w.
Proof. reflexivity. Qed.

Lemma set_states_set_states h h' w :
  set_states h' (set_states h w) = set_states h' w.
Proof. reflexivity. Qed.

Lemma states_set_states h w : states (set_states h w) = h.
Proof. reflexivity. Qed.

Section Leaves.
Variable sched : scheduler.

Lemma __stream___eq self state w :
  __stream__ sched self state w =
    match _init sched self None w with
    | (Some e, w) => ([], Some e, w)
    | (None, w) =>
    match broadcast sched self on_transform_enter state w with
    | (Some e, _, w) => ([], Some e, w)
    | (None, _, w) =>
    match _run_sub_streams sched self state w with
    | (ys, Some e, w) => (ys, Some e, w)
    | (ys, None, w) =>
    match stream_transform self state (states w) with
    | (ys', Some e, h) => (ys ++ ys', Some e, set_states h w)
    | (ys', None, h) =>
    match broadcast sched self on_transform_exit state (set_states h w) with
    | (Some e, _, w) => (ys ++ ys', Some e, w)
    | (None, _, w) => (ys ++ ys', None, w)
    end end end end end.
Proof. destruct self; reflexivity. Qed.

Lemma broadcast_quiet self ev state w r :
  shared (attr self w) = Some r -> observers r ->
  exists tks, broadcast sched self ev state w = (None, tks, w).
Proof.
  intros Hr Hobs.
  destruct (broadcast_observers sched self ev state w r Hr Hobs) as [H1 H2].
  destruct (broadcast sched self ev state w) as [[e tks] w'].
  simpl in *. subst. eauto.
Qed.

(** A leaf that is initialised and whose listeners only observe: its step
    is its transform. *)
Lemma __call___leaf c state kwargs w r :
  _transforms c = None -> _inited (attr c w) = true ->
  shared (attr c w) = Some r -> observers r ->
  __call__ sched c state kwargs w =
    let '(res, h) := transform c state kwargs (states w) in
    (res, set_states h w).
Proof.
  intros Hts Hin Hr Hobs.
  rewrite __call___eq, (_init_again sched c None w Hin).
  destruct (broadcast_quiet c on_transform_enter state w r Hr Hobs) as [t1 ->].
  rewrite _run_sub_transforms_eq, Hts.
  destruct (transform c state kwargs (states w)) as [[ret|e] h]; [|done].
  destruct (broadcast_quiet c on_transform_exit state (set_states h w) r Hr Hobs)
    as [t2 ->].
  done.
Qed.

Lemma __stream___leaf c state w r :
  _transforms c = None -> _inited (attr c w) = true ->
  shared (attr c w) = Some r -> observers r ->
  __stream__ sched c state w =
    let '(ys, e, h) := stream_transform c state (states w) in
    (ys, e, set_states h w).
Proof.
  intros Hts Hin Hr Hobs.
  rewrite __stream___eq, (_init_again sched c None w Hin).
  destruct (broadcast_quiet c on_transform_enter state w r Hr Hobs) as [t1 ->].
  unfold _run_sub_streams, _run_sub_streams_with. rewrite Hts.
  destruct (stream_transform c state (states w)) as [[ys [e|]] h]; [done|].
  destruct (broadcast_quiet c on_transform_exit state (set_states h w) r Hr Hobs)
    as [t2 ->].
  done.
Qed.

(** The first step of a tree that has not been initialised, up to the
    children. *)
Lemma first_init p r w :
  runnable r p w ->
  _init sched p None w = (None, (_init sched p None w).2) /\
  ready r p (_init sched p None w).2 /\
  states (_init sched p None w).2 = states w.
Proof.
  intros [(Hnd & Hfr & Hr)|Hready]; (split; [|split]).
  - pose proof (_init_available sched p None w) as H.
    destruct (_init sched p None w) as [e w1]. simpl in *.
    rewrite H; [done|]. right. by rewrite Hr.
  - by apply _init_propagates.
  - apply _init_states.
  - destruct (Hready p (nodes_self p)) as [_ Hi].
    by rewrite (_init_again sched p None w Hi).
  - destruct (Hready p (nodes_self p)) as [_ Hi].
    by rewrite (_init_again sched p None w Hi).
  - apply _init_states.
Qed.

(** Sequential children that are leaves: the step of the parent folds their
    transforms over the state and applies its own to the outcome. *)
Lemma __call___sequential_leaves p cs r state kwargs w :
  _transforms p = Some cs -> _run_in_parallel p = false ->
  Forall (fun c => klass_of c = BaseTransform /\ _transforms c = None) cs ->
  runnable r p w -> observers r ->
  __call__ sched p state kwargs w =
    match fold_transforms cs state (states w) with
    | (Raise e, h) => (Raise e, set_states h (_init sched p None w).2)
    | (Ok state', h) =>
        let '(res, h') := transform p state' kwargs h in
        (res, set_states h' (_init sched p None w).2)
    end.
Proof.
  intros Hts Hpar Hleaf Hrun Hobs.
  destruct (first_init p r w Hrun) as (Hinit & Hready & Hst).
  set (w1 := (_init sched p None w).2) in *.
  rewrite __call___eq, Hinit.
  destruct (Hready p (nodes_self p)) as [Hrp _].
  destruct (broadcast_quiet p on_transform_enter state w1 r Hrp Hobs) as [t1 ->].
  rewrite _run_sub_transforms_eq, Hts, Hpar.
  assert (forall cs' res h,
            (forall c, In c cs' -> In c cs) ->
            fold_left
              (fun acc t =>
                 match acc with
                 | (Ok state, w) => call sched t state w
                 | (Raise e, w) => (Raise e, w)
                 end)
              cs' (res, set_states h w1)
            = let '(res', h') :=
                fold_left
                  (fun acc c =>
                     match acc with
                     | (Ok state, h) => transform c state None h
                     | (Raise e, h) => (Raise e, h)
                     end)
                  cs' (res, h) in
              (res', set_states h' w1)) as Hfold.
  { induction cs' as [|c cs' IH]; intros res h Hsub; simpl; [done|].
    destruct res as [st|e].
    - assert (In c (nodes p)) as Hc.
      { eapply nodes_sub; [|apply nodes_self].
        unfold sub. rewrite Hts. apply in_or_app. right. apply Hsub. by left. }
      destruct (Hready c Hc) as [Hrc Hic].
      rewrite List.Forall_forall in Hleaf.
      destruct (Hleaf c (Hsub c (or_introl eq_refl))) as [Hkc Htc].
      rewrite (call_BaseTransform sched c st _ Hkc).
      rewrite (__call___leaf c st None (set_states h w1) r); try done.
      rewrite states_set_states.
      destruct (transform c st None h) as [res' h'].
      rewrite set_states_set_states. apply IH. intros; apply Hsub; by right.
    - apply IH. intros; apply Hsub; by right. }
  specialize (Hfold cs (Ok state) (states w1) (fun c H => H)).
  rewrite set_states_id in Hfold. rewrite Hfold. clear Hfold.
  unfold fold_transforms. rewrite Hst.
  destruct (fold_left _ cs (Ok state, states w)) as [[state'|e] h]; [|done].
  rewrite states_set_states.
  destruct (transform p state' kwargs h) as [[ret|e] h']; [|done].
  destruct (broadcast_quiet p on_transform_exit state'
              (set_states h' (set_states h w1)) r Hrp Hobs) as [t2 ->].
  done.
Qed.
End Leaves.

Lemma runnable_new_state r p kwargs w :
  runnable r p w -> runnable r p (new_state kwargs w).2.
Proof. intros H. exact H. Qed.

(** * Two runs of the scheduler side by side *)

Section Simulation.
Variable f : world -> world.
Variable I : world -> Prop.

Lemma task_sim_live t t' : task_sim f I t t' -> is_live t' = is_live t.
Proof. by destruct 1. Qed.

Lemma task_sim_failed t t' : task_sim f I t t' -> is_failed t' = is_failed t.
Proof. by destruct 1. Qed.

Lemma task_sim_weight t t' : task_sim f I t t' -> weight t' = weight t.
Proof.
  destruct 1 as [c c' H|c c' H| | |]; simpl; try done;
    by rewrite (Forall2_length _ _ _ H).
Qed.

Lemma tasks_sim_count ts ts' :
  Forall2 (task_sim f I) ts ts' -> count_live ts' = count_live ts.
Proof.
  induction 1 as [|t t' ts ts' Ht _ IH]; simpl; [done|].
  by rewrite (task_sim_live _ _ Ht), IH.
Qed.

Lemma tasks_sim_weight ts ts' :
  Forall2 (task_sim f I) ts ts' -> total_weight ts' = total_weight ts.
Proof.
  induction 1 as [|t t' ts ts' Ht _ IH]; simpl; [done|].
  by rewrite (task_sim_weight _ _ Ht), IH.
Qed.

Lemma tasks_sim_cancel ts ts' :
  Forall2 (task_sim f I) ts ts' ->
  existsb is_failed ts' = existsb is_failed ts.
Proof.
  induction 1 as [|t t' ts ts' Ht _ IH]; simpl; [done|].
  by rewrite (task_sim_failed _ _ Ht), IH.
Qed.

Lemma tasks_sim_failures ts ts' :
  Forall2 (task_sim f I) ts ts' -> failures ts' = failures ts.
Proof.
  induction 1 as [|t t' ts ts' Ht _ IH]; simpl; [done|].
  rewrite IH. by destruct Ht.
Qed.

Lemma resume_sim c c' w :
  Forall2 (seg_sim f I) c c' -> I w ->
  task_sim f I (resume c w).1 (resume c' (f w)).1 /\
  (resume c' (f w)).2 = f (resume c w).2 /\
  I (resume c w).2.
Proof.
  intros Hc HI. destruct Hc as [|s s' c c' Hs Hc]; simpl.
  - split; [constructor|done].
  - destruct (Hs w HI) as [Heq HI']. rewrite Heq.
    destruct (s w) as [[e|] w1]; simpl in *.
    + split; [constructor|done].
    + split; [|done]. destruct Hc; constructor. by constructor.
Qed.

Lemma step_task_sim cancel t t' w :
  task_sim f I t t' -> I w ->
  task_sim f I (step_task cancel t w).1 (step_task cancel t' (f w)).1 /\
  (step_task cancel t' (f w)).2 = f (step_task cancel t w).2 /\
  I (step_task cancel t w).2.
Proof.
  intros Ht HI. destruct Ht as [c c' H|c c' H| | |]; simpl.
  - by apply resume_sim.
  - destruct cancel; simpl; [split; [constructor|done]|]. by apply resume_sim.
  - split; [constructor|done].
  - split; [constructor|done].
  - split; [constructor|done].
Qed.

Lemma step_at_sim cancel ts ts' :
  Forall2 (task_sim f I) ts ts' ->
  forall k w, I w ->
    Forall2 (task_sim f I) (step_at cancel k ts w).1
            (step_at cancel k ts' (f w)).1 /\
    (step_at cancel k ts' (f w)).2 = f (step_at cancel k ts w).2 /\
    I (step_at cancel k ts w).2.
Proof.
  induction 1 as [|t t' ts ts' Ht Hts IH]; intros k w HI; simpl.
  - split; [constructor|done].
  - rewrite (task_sim_live _ _ Ht). destruct (is_live t).
    + destruct k as [|k].
      * destruct (step_task_sim cancel t t' w Ht HI) as (H1 & H2 & H3).
        destruct (step_task cancel t w) as [t1 w1].
        destruct (step_task cancel t' (f w)) as [t1' w1'].
        simpl in *. split; [by constructor|done].
      * destruct (IH k w HI) as (H1 & H2 & H3).
        destruct (step_at cancel k ts w) as [ts1 w1].
        destruct (step_at cancel k ts' (f w)) as [ts1' w1'].
        simpl in *. split; [by constructor|done].
    + destruct (IH k w HI) as (H1 & H2 & H3).
      destruct (step_at cancel k ts w) as [ts1 w1].
      destruct (step_at cancel k ts' (f w)) as [ts1' w1'].
      simpl in *. split; [by constructor|done].
Qed.

Lemma run_tasks_sim fuel :
  forall sch ts ts' w,
    Forall2 (task_sim f I) ts ts' -> I w ->
    Forall2 (task_sim f I) (run_tasks fuel sch ts w).1
            (run_tasks fuel sch ts' (f w)).1 /\
    (run_tasks fuel sch ts' (f w)).2 = f (run_tasks fuel sch ts w).2 /\
    I (run_tasks fuel sch ts w).2.
Proof.
  induction fuel as [|fuel IH]; intros sch ts ts' w Hts HI; [done|].
  rewrite !run_tasks_S, (tasks_sim_count _ _ Hts), (tasks_sim_cancel _ _ Hts).
  destruct (count_live ts) as [|l]; [done|].
  set (c := existsb is_failed ts && Nat.even (hd 0 sch / S l)).
  destruct (step_at_sim c ts ts' Hts (hd 0 sch mod S l) w HI)
    as (H1 & H2 & H3).
  destruct (step_at c (hd 0 sch mod S l) ts w) as [ts1 w1].
  destruct (step_at c (hd 0 sch mod S l) ts' (f w)) as [ts1' w1'].
  simpl in *. subst w1'. by apply IH.
Qed.

(** Two groups whose tasks do the same, segment by segment, on related
    worlds end in related worlds with the same outcome. *)
Lemma task_group_sim sch cs cs' w :
  Forall2 (Forall2 (seg_sim f I)) cs cs' -> I w ->
  (task_group sch cs' (f w)).1.1 = (task_group sch cs w).1.1 /\
  (task_group sch cs' (f w)).2 = f (task_group sch cs w).2 /\
  I (task_group sch cs w).2.
Proof.
  intros Hcs HI. unfold task_group.
  assert (Forall2 (task_sim f I) (map Pending cs) (map Pending cs')) as Hts.
  { induction Hcs; simpl; constructor; [by constructor|done]. }
  rewrite (tasks_sim_weight _ _ Hts).
  destruct (run_tasks_sim (total_weight (map Pending cs)) sch _ _ w Hts HI)
    as (H1 & H2 & H3).
  destruct (run_tasks _ sch (map Pending cs) w) as [ts1 w1].
  destruct (run_tasks _ sch (map Pending cs') (f w)) as [ts1' w1'].
  simpl in *. by rewrite (tasks_sim_failures _ _ H1).
Qed.
End Simulation.

(** * A pipeline and the same pipeline without listeners *)

Lemma oid_strip x : oid_of (strip_node x) = oid_of x.
Proof. by destruct x. Qed.

Lemma constructed_strip x : constructed (strip_node x) = strip_mut (constructed x).
Proof. by destruct x. Qed.

Lemma transforms_strip x :
  _transforms (strip_node x)
  = match _transforms x with
    | Some ts => Some (map strip_node ts)
    | None => None
    end.
Proof. by destruct x. Qed.

Lemma parallel_strip x : _run_in_parallel (strip_node x) = _run_in_parallel x.
Proof. by destruct x. Qed.

Lemma sub_strip x : sub (strip_node x) = map strip_node (sub x).
Proof.
  destruct x as [o k c s a t p i u g1 g2]. unfold sub. simpl.
  destruct t; [|done]. by rewrite map_app.
Qed.


Lemma attr_strip x w : attr (strip_node x) (strip_world w) = strip_mut (attr x w).
Proof.
  unfold attr, strip_world. simpl. rewrite oid_strip, lookup_fmap.
  destruct (objs w !! oid_of x); simpl; [done|apply constructed_strip].
Qed.

Lemma set_attr_strip x m w :
  set_attr (strip_node x) (strip_mut m) (strip_world w)
  = strip_world (set_attr x m w).
Proof.
  unfold set_attr, strip_world. simpl. by rewrite oid_strip, fmap_insert.
Qed.

Lemma set_name_strip x s w :
  set_name (strip_node x) s (strip_world w) = strip_world (set_name x s w).
Proof. unfold set_name. by rewrite attr_strip, <- set_attr_strip. Qed.

Lemma set_shared_strip x s w :
  set_shared (strip_node x) (strip_shared s) (strip_world w)
  = strip_world (set_shared x s w).
Proof. unfold set_shared. by rewrite attr_strip, <- set_attr_strip. Qed.

Lemma set_inited_strip x b w :
  set_inited (strip_node x) b (strip_world w) = strip_world (set_inited x b w).
Proof. unfold set_inited. by rewrite attr_strip, <- set_attr_strip. Qed.

Lemma fold_rename_strip self cs w :
  fold_left (fun w t => rename_child (strip_node self) t w)
            (map strip_node cs) (strip_world w)
  = strip_world (fold_left (fun w t => rename_child self t w) cs w).
Proof.
  revert w. induction cs as [|c cs IH]; simpl; intros w; [done|].
  rewrite <- IH. f_equal. unfold rename_child.
  by rewrite !attr_strip, set_name_strip.
Qed.

Section Strip.
Variable sched : scheduler.

Lemma _init_sub_transforms_strip n w :
  Forall (fun c => forall shared_arg w,
            _init sched (strip_node c) (strip_shared shared_arg) (strip_world w)
            = ((_init sched c shared_arg w).1,
               strip_world (_init sched c shared_arg w).2)) (sub n) ->
  _init_sub_transforms sched (strip_node n) (strip_world w)
  = ((_init_sub_transforms sched n w).1,
     strip_world (_init_sub_transforms sched n w).2).
Proof.
  intros IH. rewrite !_init_sub_transforms_eq, transforms_strip.
  destruct (_transforms n) as [ts|]; [|done]. cbv zeta.
  rewrite sub_strip, fold_rename_strip, oid_strip, attr_strip, map_map.
  match goal with |- context [task_group ?s ?cs' (strip_world ?w1)] =>
    match goal with |- context [task_group s ?cs w1] =>
      destruct (task_group_sim strip_world (fun _ => True) s cs cs' w1)
        as (H1 & H2 & _)
    end
  end.
  - apply Forall2_fmap, Forall_Forall2_diag.
    eapply Forall_impl; [exact IH|]. intros c Hc.
    constructor; [|constructor]. intros w' _. split; [|done].
    apply (Hc (shared (attr n w)) w').
  - done.
  - destruct (task_group _ _ (strip_world _)) as [[e' tks'] w2'].
    destruct (task_group _ _ _) as [[e tks] w2].
    simpl in *. by subst.
Qed.

(** Initialisation does not look at the listeners. *)
Lemma _init_strip n :
  forall shared_arg w,
    _init sched (strip_node n) (strip_shared shared_arg) (strip_world w)
    = ((_init sched n shared_arg w).1,
       strip_world (_init sched n shared_arg w).2).
Proof.
  induction n as [n IHa IHt] using node_ind_nested. intros shared_arg w.
  pose proof (Forall_sub _ n IHa IHt) as IH. clear IHa IHt.
  rewrite !_init_eq_effective, attr_strip. simpl.
  destruct (_inited (attr n w)); [done|].
  replace (match strip_shared shared_arg with
           | Some s => Some s
           | None => strip_shared (shared (attr n w))
           end)
    with (strip_shared (match shared_arg with
                        | Some s => Some s
                        | None => shared (attr n w)
                        end))
    by (by destruct shared_arg).
  destruct (match shared_arg with Some s => Some s | None => shared (attr n w) end)
    as [r|]; simpl; [|done].
  change (Some (strip_resource r)) with (strip_shared (Some r)).
  rewrite set_shared_strip, (_init_sub_transforms_strip n _ IH).
  destruct (_init_sub_transforms sched n (set_shared n (Some r) w))
    as [[e|] w2]; simpl; [done|].
  by rewrite set_inited_strip.
Qed.
End Strip.

Lemma quiet_attr x w :
  quiet_world w -> quiet_mut (constructed x) -> quiet_mut (attr x w).
Proof.
  intros Hw Hx. unfold attr.
  destruct (objs w !! oid_of x) as [m|] eqn:Hm; [by eapply Hw|done].
Qed.

Lemma quiet_set_attr x m w :
  quiet_world w -> quiet_mut m -> quiet_world (set_attr x m w).
Proof.
  intros Hw Hm o m' Ho. unfold set_attr in Ho. simpl in Ho.
  destruct (decide (oid_of x = o)) as [<-|Hne].
  - rewrite lookup_insert_eq in Ho. by injection Ho as <-.
  - rewrite lookup_insert_ne in Ho; [|done]. by eapply Hw.
Qed.

Lemma quiet_tree_sub n c : quiet_tree n -> In c (sub n) -> quiet_tree c.
Proof. intros Hn Hc x Hx. apply Hn. by eapply nodes_sub. Qed.

Section Quiet.
Variable sched : scheduler.

Lemma _init_quiet n :
  forall shared_arg w,
    quiet_tree n -> (forall r, shared_arg = Some r -> observers r) ->
    quiet_world w -> quiet_world (_init sched n shared_arg w).2.
Proof.
  induction n as [n IHa IHt] using node_ind_nested.
  intros shared_arg w Hn Harg Hw.
  pose proof (Forall_sub _ n IHa IHt) as IH. clear IHa IHt.
  rewrite List.Forall_forall in IH.
  pose proof (Hn n (nodes_self n)) as Hcn.
  rewrite _init_eq_effective. destruct (_inited (attr n w)); [done|].
  destruct (match shared_arg with Some s => Some s | None => shared (attr n w) end)
    as [r|] eqn:Heff; [|done].
  assert (observers r) as Hr.
  { destruct shared_arg as [r'|]; [injection Heff as ->; by apply Harg|].
    by apply (quiet_attr n w Hw Hcn). }
  assert (quiet_world (set_shared n (Some r) w)) as Hw1.
  { unfold set_shared. apply quiet_set_attr; [done|].
    intros r' [= <-]. done. }
  assert (quiet_world (_init_sub_transforms sched n (set_shared n (Some r) w)).2)
    as Hw2.
  { rewrite _init_sub_transforms_eq, shared_set_shared.
    destruct (_transforms n) as [ts|] eqn:Hts; [|done]. cbv zeta.
    match goal with |- context [task_group ?s ?cs ?w1] =>
      pose proof (task_group_keeps quiet_world s cs w1) as Hk;
      destruct (task_group s cs w1) as [[e tks] w2]
    end.
    simpl in *. apply Hk.
    - apply Forall_map, List.Forall_forall. intros c Hc.
      apply Forall_cons. split; [|done]. intros w' Hw'.
      apply IH; [done|by eapply quiet_tree_sub| |done].
      by intros r' [= <-].
    - assert (forall cs w0, (forall c, In c cs -> In c (sub n)) ->
                quiet_world w0 ->
                quiet_world (fold_left (fun w t => rename_child n t w) cs w0))
        as Hfold.
      { induction cs as [|c cs IHcs]; simpl; intros w0 Hsub Hw0; [done|].
        apply IHcs; [intros; apply Hsub; by right|].
        unfold rename_child, set_name. apply quiet_set_attr; [done|].
        simpl. apply (quiet_attr c w0 Hw0). apply Hn.
        eapply nodes_sub; [apply Hsub; by left|apply nodes_self]. }
      by apply Hfold. }
  destruct (_init_sub_transforms sched n _) as [[e|] w2]; simpl in *; [done|].
  unfold set_inited. apply quiet_set_attr; [done|].
  simpl. by apply quiet_attr.
Qed.

Lemma broadcast_strip n ev state w :
  quiet_world w -> quiet_mut (constructed n) ->
  (broadcast sched (strip_node n) ev state (strip_world w)).1.1
    = (broadcast sched n ev state w).1.1 /\
  (broadcast sched (strip_node n) ev state (strip_world w)).2
    = strip_world (broadcast sched n ev state w).2 /\
  (broadcast sched n ev state w).2 = w.
Proof.
  intros Hw Hn. unfold broadcast. rewrite attr_strip. simpl.
  pose proof (quiet_attr n w Hw Hn) as Hq.
  destruct (shared (attr n w)) as [r|] eqn:Hr; simpl; [|done].
  destruct (_on_event_observers (sched (EventSite (oid_of n) ev)) (listener r)
              ev (name (attr n w)) state w (Hq r Hr)) as [H1 H2].
  rewrite H1, H2. done.
Qed.



Lemma sequential_sub n c : sequential n -> In c (sub n) -> sequential c.
Proof. intros Hn Hc x Hx. apply Hn. by eapply nodes_sub. Qed.


End Quiet.

(** * The names after initialisation *)

Lemma nodes_trans n :
  forall x y, In x (nodes n) -> In y (nodes x) -> In y (nodes n).
Proof.
  induction n as [n IHa IHt] using node_ind_nested. intros x y Hx Hy.
  pose proof (Forall_sub _ n IHa IHt) as IH. clear IHa IHt.
  rewrite List.Forall_forall in IH.
  rewrite nodes_eq in Hx. destruct Hx as [<-|Hx]; [done|].
  apply in_flat_map in Hx as (c & Hc & Hx).
  eapply nodes_sub; [exact Hc|]. by eapply IH.
Qed.

Lemma sub_below c x d :
  In x (nodes c) -> In d (sub x) -> In (oid_of d) (flat_map ids (sub c)).
Proof.
  intros Hx Hd. rewrite nodes_eq in Hx. destruct Hx as [<-|Hx].
  - apply in_flat_map. exists d. split; [done|apply ids_self].
  - apply in_flat_map in Hx as (c' & Hc' & Hx).
    apply in_flat_map. exists c'. split; [done|].
    unfold ids. apply in_map. eapply nodes_trans; [exact Hx|].
    eapply nodes_sub; [exact Hd|apply nodes_self].
Qed.

Lemma sub_below_ne c x d :
  NoDup (ids c) -> In x (nodes c) -> In d (sub x) -> oid_of d <> oid_of c.
Proof.
  rewrite ids_eq. intros Hnd Hx Hd Heq.
  apply NoDup_cons in Hnd as [Hn _]. apply Hn.
  rewrite <- Heq. apply list_elem_of_In. by eapply sub_below.
Qed.

Lemma NoDup_oids cs : NoDup (flat_map ids cs) -> NoDup (map oid_of cs).
Proof.
  induction cs as [|c cs IH]; simpl; [constructor|].
  intros Hnd. apply NoDup_app in Hnd as (_ & Hdis & Hnd).
  apply NoDup_cons. split; [|by apply IH].
  intros Hin. apply list_elem_of_In, in_map_iff in Hin as (d & Hd & Hin).
  apply (Hdis (oid_of c)); [apply list_elem_of_In, ids_self|].
  apply list_elem_of_In, in_flat_map. exists d. split; [done|].
  rewrite <- Hd. apply ids_self.
Qed.

Lemma attr_set_attr_ne x n m w :
  oid_of x <> oid_of n -> attr x (set_attr n m w) = attr x w.
Proof. intros Hne. apply attr_ext. by apply objs_set_attr_ne. Qed.

Lemma fold_rename_other self cs w o :
  ~ In o (map oid_of cs) ->
  objs (fold_left (fun w t => rename_child self t w) cs w) !! o = objs w !! o.
Proof.
  revert w. induction cs as [|c cs IH]; simpl; intros w Ho; [done|].
  rewrite IH; [|tauto].
  unfold rename_child, set_name. rewrite objs_set_attr_ne; [done|].
  intros ->. apply Ho. by left.
Qed.

Lemma fold_rename_name self cs w d :
  NoDup (map oid_of cs) -> ~ In (oid_of self) (map oid_of cs) -> In d cs ->
  name (attr d (fold_left (fun w t => rename_child self t w) cs w))
  = name (attr self w) +:+ "::" +:+ name (attr d w).
Proof.
  revert w. induction cs as [|c cs IH]; simpl; intros w Hnd Hself Hd; [done|].
  apply NoDup_cons in Hnd as [Hc Hnd].
  destruct Hd as [<-|Hd].
  - rewrite (attr_ext c (rename_child self c w)).
    + unfold rename_child, set_name. by rewrite attr_set_attr_eq.
    + apply fold_rename_other. intros Hin. apply Hc. by apply list_elem_of_In.
  - rewrite IH; [|done|tauto|done].
    assert (oid_of d <> oid_of c) as Hdc.
    { intros Heq. apply Hc. rewrite <- Heq.
      apply list_elem_of_In. by apply in_map. }
    assert (oid_of self <> oid_of c) as Hsc by (intros Heq; apply Hself; by left).
    unfold rename_child, set_name.
    rewrite (attr_set_attr_ne d c) by done.
    by rewrite (attr_set_attr_ne self c) by done.
Qed.

Section Names.
Variable sched : scheduler.

(** On a tree of distinct nodes that has not been initialised, the root keeps
    its name and every other node reached is renamed once: to the name of its
    parent, two colons, and the name it had. *)
Lemma _init_names n :
  forall r shared_arg w,
    NoDup (ids n) -> fresh_tree n w ->
    match shared_arg with
    | Some s => Some s
    | None => shared (attr n w)
    end = Some r ->
    name (attr n (_init sched n shared_arg w).2) = name (attr n w) /\
    forall x d, In x (nodes n) -> In d (sub x) ->
      name (attr d (_init sched n shared_arg w).2)
      = name (attr x (_init sched n shared_arg w).2) +:+ "::"
        +:+ name (attr d w).
Proof.
  induction n as [n IHa IHt] using node_ind_nested.
  intros r shared_arg w Hnd Hfr Heff.
  pose proof (Forall_sub _ n IHa IHt) as IH. clear IHa IHt.
  rewrite List.Forall_forall in IH.
  rewrite _init_eq_effective, (Hfr n (nodes_self n)), Heff.
  rewrite _init_sub_transforms_eq, shared_set_shared.
  assert (name (attr n (set_shared n (Some r) w)) = name (attr n w)) as Hns.
  { unfold set_shared. by rewrite attr_set_attr_eq. }
  destruct (_transforms n) as [ts|] eqn:Hts.
  2:{ cbn [fst snd]. split.
      - unfold set_inited. by rewrite attr_set_attr_eq.
      - intros x d Hx Hd. rewrite nodes_eq, (sub_None n Hts) in Hx.
        destruct Hx as [<-|[]]. by rewrite (sub_None n Hts) in Hd. }
  cbv zeta.
  set (ws := set_shared n (Some r) w) in *.
  set (w1 := fold_left (fun w t => rename_child n t w) (sub n) ws).
  set (segs := map (fun t w' => _init sched t (Some r) w') (sub n)).
  replace (map (fun t => [fun w' => _init sched t (Some r) w']) (sub n))
    with (map (fun s : segment => [s]) segs)
    by (unfold segs; rewrite map_map; done).
  pose proof Hnd as Hnd'. rewrite ids_eq in Hnd'.
  apply NoDup_cons in Hnd' as [Hroot Hsubs].
  assert (~ In (oid_of n) (map oid_of (sub n))) as Hroot'.
  { intros Hin. apply Hroot, list_elem_of_In.
    apply in_map_iff in Hin as (c & Hc & Hin).
    apply in_flat_map. exists c. split; [done|]. rewrite <- Hc. apply ids_self. }
  assert (forall o, o <> oid_of n -> ~ In o (map oid_of (sub n)) ->
            objs w1 !! o = objs w !! o) as Hdeep.
  { intros o Ho1 Ho2. unfold w1. rewrite fold_rename_other; [|done].
    unfold ws, set_shared. by rewrite objs_set_attr_ne. }
  set (Pre := fun i w' =>
    exists c, sub n !! i = Some c /\
      forall o, In o (ids c) -> objs w' !! o = objs w1 !! o).
  set (Post := fun i w' =>
    exists c, sub n !! i = Some c /\
      name (attr c w') = name (attr c w1) /\
      forall x d, In x (nodes c) -> In d (sub x) ->
        name (attr d w') = name (attr x w') +:+ "::" +:+ name (attr d w1)).
  assert (forall c, In c (sub n) -> fresh_tree c w1) as Hfr1.
  { intros c Hc x Hx. unfold w1, ws.
    rewrite inited_attr, inited_at_fold_rename, inited_at_set_shared,
      <- inited_attr.
    apply Hfr. by eapply nodes_sub. }
  destruct (task_group_atomic_rule segs Pre Post
              (sched (InitSite (oid_of n))) w1) as [_ Hpost].
  { intros i s w' Hs (c & Hc & Hsame).
    unfold segs in Hs. rewrite list_lookup_fmap, Hc in Hs.
    injection Hs as <-. split; [apply _init_with_resource|].
    assert (forall x, In x (nodes c) -> attr x w' = attr x w1) as Hattr.
    { intros x Hx. apply attr_ext, Hsame. unfold ids. by apply in_map. }
    destruct (IH c (lookup_In _ _ _ Hc) r (Some r) w') as [Hn1 Hn2].
    { eapply NoDup_ids_sub; [done|by eapply lookup_In]. }
    { intros x Hx. rewrite (Hattr x Hx).
      by apply (Hfr1 c (lookup_In _ _ _ Hc)). }
    { done. }
    exists c. split; [done|]. split.
    - rewrite Hn1. by rewrite (Hattr c (nodes_self c)).
    - intros x d Hx Hd. rewrite (Hn2 x d Hx Hd). f_equal. f_equal.
      apply f_equal, Hattr. eapply nodes_trans; [exact Hx|].
      eapply nodes_sub; [exact Hd|apply nodes_self]. }
  { intros i j s w' Hs Hj Hne (c & Hc & Hsame).
    unfold segs in Hs. rewrite list_lookup_fmap, Hc in Hs.
    injection Hs as <-.
    assert (forall d o, sub n !! j = Some d -> In o (ids d) ->
              objs (_init sched c (Some r) w').2 !! o = objs w' !! o) as Hfrm.
    { intros d o Hd Ho. apply _init_frame.
      intros Hin. by eapply (NoDup_ids_disjoint n i j c d). }
    assert (forall d x, sub n !! j = Some d -> In x (nodes d) ->
              attr x (_init sched c (Some r) w').2 = attr x w') as Hsame'.
    { intros d x Hd Hx. apply attr_ext, (Hfrm d); [done|].
      unfold ids. by apply in_map. }
    split.
    - intros (d & Hd & Hdd). exists d. split; [done|].
      intros o Ho. rewrite (Hfrm d o Hd Ho). by apply Hdd.
    - intros (d & Hd & Hd1 & Hd2). exists d. split; [done|]. split.
      + by rewrite (Hsame' d d Hd (nodes_self d)).
      + intros x y Hx Hy.
        rewrite (Hsame' d y Hd), (Hsame' d x Hd Hx); [by apply Hd2|].
        eapply nodes_trans; [exact Hx|].
        eapply nodes_sub; [exact Hy|apply nodes_self]. }
  { intros i Hi. unfold segs in Hi. rewrite length_map in Hi.
    destruct (lookup_lt_is_Some_2 _ _ Hi) as [c Hc]. by exists c. }
  assert (objs (task_group (sched (InitSite (oid_of n)))
                  (map (fun s : segment => [s]) segs) w1).2 !! oid_of n
          = objs ws !! oid_of n) as Hrootw.
  { apply (task_group_keeps
             (fun w' => objs w' !! oid_of n = objs ws !! oid_of n)).
    - unfold segs. rewrite map_map. apply Forall_map, List.Forall_forall.
      intros c Hc. apply Forall_cons. split; [|done].
      intros w' Hw'. rewrite _init_frame; [done|].
      by apply NoDup_ids_root.
    - unfold w1. by apply fold_rename_other. }
  destruct (task_group _ _ w1) as [[e tks] w2]. cbn [fst snd] in *.
  assert (name (attr n w2) = name (attr n w)) as Hnw2.
  { by rewrite (attr_ext n ws w2 Hrootw). }
  assert (forall x, In x (nodes n) -> x = n \/ oid_of x <> oid_of n) as Hxn.
  { intros x Hx. rewrite nodes_eq in Hx. destruct Hx as [<-|Hx]; [by left|].
    right. intros Heq. apply Hroot, list_elem_of_In.
    apply in_flat_map in Hx as (c & Hc & Hx).
    apply in_flat_map. exists c. split; [done|].
    rewrite <- Heq. unfold ids. by apply in_map. }
  assert (forall x, In x (nodes n) ->
            name (attr x (match e with
                          | Some e0 => (Some e0, w2)
                          | None => (None, set_inited n true w2)
                          end).2) = name (attr x w2)) as Hfinal.
  { intros x Hx. destruct e; [done|]. cbn [snd].
    destruct (Hxn x Hx) as [->|Hne].
    - unfold set_inited. by rewrite attr_set_attr_eq.
    - unfold set_inited. by rewrite attr_set_attr_ne. }
  split.
  - by rewrite (Hfinal n (nodes_self n)).
  - intros x d Hx Hd.
    assert (In d (nodes n)) as Hdn.
    { eapply nodes_trans; [exact Hx|].
      eapply nodes_sub; [exact Hd|apply nodes_self]. }
    rewrite (Hfinal d Hdn), (Hfinal x Hx).
    rewrite nodes_eq in Hx. destruct Hx as [<-|Hx].
    + destruct (In_lookup _ _ Hd) as [i Hi].
      destruct (Hpost i) as (c' & Hc' & Hp1 & _).
      { unfold segs. rewrite length_map. by eapply lookup_lt_Some. }
      rewrite Hi in Hc'. injection Hc' as <-.
      rewrite Hp1, Hnw2. unfold w1.
      rewrite fold_rename_name; [|by apply NoDup_oids|done|done].
      rewrite Hns. f_equal. f_equal. unfold ws, set_shared.
      rewrite attr_set_attr_ne; [done|].
      intros Heq. apply Hroot'. rewrite <- Heq. by apply in_map.
    + apply in_flat_map in Hx as (c & Hc & Hx).
      destruct (In_lookup _ _ Hc) as [i Hi].
      destruct (Hpost i) as (c' & Hc' & _ & Hp2).
      { unfold segs. rewrite length_map. by eapply lookup_lt_Some. }
      rewrite Hi in Hc'. injection Hc' as <-.
      rewrite (Hp2 x d Hx Hd). f_equal. f_equal.
      apply f_equal, attr_ext, Hdeep.
      * intros Heq. apply Hroot, list_elem_of_In.
        apply in_flat_map. exists c. split; [done|].
        rewrite <- Heq. unfold ids. apply in_map.
        eapply nodes_trans; [exact Hx|].
        eapply nodes_sub; [exact Hd|apply nodes_self].
      * intros Hin. apply in_map_iff in Hin as (c2 & Hc2 & Hin).
        destruct (In_lookup _ _ Hin) as [j Hj].
        destruct (decide (i = j)) as [<-|Hij].
        -- rewrite Hi in Hj. injection Hj as <-.
           apply (sub_below_ne c x d); [|done|done|done].
           by eapply NoDup_ids_sub.
        -- apply (NoDup_ids_disjoint n i j c c2 Hnd Hi Hj Hij (oid_of d)).
           ++ unfold ids. apply in_map. eapply nodes_trans; [exact Hx|].
              eapply nodes_sub; [exact Hd|apply nodes_self].
           ++ rewrite <- Hc2. apply ids_self.
Qed.
End Names.

(** * Steps in progress *)

Section proc_induction.
Variable P : proc -> Prop.
Hypothesis HDone : forall r, P (Done r).
Hypothesis HAct : forall f, (forall w, P (f w).2) -> P (Act f).
Hypothesis HPause : forall p, P p -> P (Pause p).

Fixpoint proc_ind_act (p : proc) : P p :=
  match p with
  | Done r => HDone r
  | Act f => HAct f (fun w => proc_ind_act (f w).2)
  | Pause p' => HPause p' (proc_ind_act p')
  end.
End proc_induction.

Lemma run_steps_cons k sch ts w :
  run_steps (k :: sch) ts w =
    match count_running ts with
    | 0 => (ts, w)
    | S l =>
        let '(ts', w') :=
          step_running_at (existsb has_raised ts && Nat.even (k / S l))
                          (k mod (S l)) ts w in
        run_steps sch ts' w'
    end.
Proof. reflexivity. Qed.

Lemma advance_head p :
  forall w, match (advance p w).1 with Act _ => False | _ => True end.
Proof.
  induction p as [r|f IH|p IH] using proc_ind_act; intros w; simpl; try done.
  specialize (IH w). destruct (f w) as [w' p']. apply IH.
Qed.

Section StepsKeep.
Variable I : world -> Prop.
Variable G : world -> world -> Prop.
Hypothesis G_refl : forall w, G w w.
Hypothesis G_trans : forall w1 w2 w3, G w1 w2 -> G w2 w3 -> G w1 w3.

Lemma advance_rg p :
  forall w, I w -> proc_rg I G p w ->
            I (advance p w).2 /\ G w (advance p w).2 /\
            proc_rg I G (advance p w).1 (advance p w).2.
Proof.
  induction p as [r|f IH|p IH] using proc_ind_act; intros w HI Hp.
  - simpl. auto.
  - simpl in Hp. destruct (Hp HI) as (HI' & HG & Hp'). simpl.
    specialize (IH w). destruct (f w) as [w' p']. simpl in *.
    destruct (IH w' HI' Hp') as (H1 & H2 & H3).
    split; [done|]. split; [by eapply G_trans|done].
  - simpl. auto.
Qed.

Lemma running_rg_mono t w w' :
  G w w' -> running_rg I G t w -> running_rg I G t w'.
Proof.
  intros HG Ht. destruct t as [p|p| | |]; simpl in *; try done;
    intros w'' HG'; apply Ht; by eapply G_trans.
Qed.

Lemma step_running_rg cancel t w :
  I w -> running_rg I G t w ->
  I (step_running cancel t w).2 /\ G w (step_running cancel t w).2 /\
  running_rg I G (step_running cancel t w).1 (step_running cancel t w).2.
Proof.
  intros HI Ht.
  assert (forall p, (forall w', G w w' -> proc_rg I G p w') ->
            I (settle (advance p w)).2 /\ G w (settle (advance p w)).2 /\
            running_rg I G (settle (advance p w)).1 (settle (advance p w)).2)
    as Hrun.
  { intros p Hp.
    destruct (advance_rg p w HI (Hp w (G_refl w))) as (H1 & H2 & H3).
    pose proof (advance_head p w) as Hh.
    destruct (advance p w) as [p' w'].
    destruct p' as [[v|e]|f|q]; simpl in *; done. }
  destruct t as [p|p| | |]; simpl; auto.
  destruct cancel; [|by apply Hrun]. simpl. auto.
Qed.

Lemma step_running_at_rg cancel k ts :
  forall w, I w -> Forall (fun t => running_rg I G t w) ts ->
            I (step_running_at cancel k ts w).2 /\
            G w (step_running_at cancel k ts w).2 /\
            Forall (fun t => running_rg I G t (step_running_at cancel k ts w).2)
                   (step_running_at cancel k ts w).1.
Proof.
  revert k. induction ts as [|t ts IH]; intros k w HI Hts; simpl.
  - auto.
  - inversion Hts as [|? ? Ht Hts']; subst.
    assert (forall w', G w w' ->
              Forall (fun t => running_rg I G t w') ts) as Hrest.
    { intros w' HG. eapply Forall_impl; [exact Hts'|].
      intros t0 Ht0. by eapply running_rg_mono. }
    destruct (is_running t).
    + destruct k as [|k].
      * destruct (step_running_rg cancel t w HI Ht) as (H1 & H2 & H3).
        destruct (step_running cancel t w) as [t' w']. simpl in *.
        split; [done|]. split; [done|]. constructor; [done|by apply Hrest].
      * destruct (IH k w HI Hts') as (H1 & H2 & H3).
        destruct (step_running_at cancel k ts w) as [ts' w']. simpl in *.
        split; [done|]. split; [done|].
        constructor; [by eapply running_rg_mono|done].
    + destruct (IH k w HI Hts') as (H1 & H2 & H3).
      destruct (step_running_at cancel k ts w) as [ts' w']. simpl in *.
      split; [done|]. split; [done|].
      constructor; [by eapply running_rg_mono|done].
Qed.

Lemma complete_rg cancel p :
  forall w, I w -> proc_rg I G p w ->
            I (complete cancel p w).2 /\ G w (complete cancel p w).2.
Proof.
  induction p as [r|f IH|p IH] using proc_ind_act; intros w HI Hp.
  - simpl. destruct r; simpl; auto.
  - simpl in Hp. destruct (Hp HI) as (HI' & HG & Hp'). simpl.
    specialize (IH w). destruct (f w) as [w' p']. simpl in *.
    destruct (IH w' HI' Hp') as [H1 H2].
    split; [done|]. by eapply G_trans.
  - simpl. destruct cancel; simpl; [auto|].
    apply IH; [done|]. apply Hp, G_refl.
Qed.

Lemma complete_running_rg cancel t w :
  I w -> running_rg I G t w ->
  I (complete_running cancel t w).2 /\ G w (complete_running cancel t w).2.
Proof.
  intros HI Ht. destruct t as [p|p| | |]; simpl; auto.
  - apply complete_rg; [done|]. apply Ht, G_refl.
  - destruct cancel; simpl; [auto|].
    apply complete_rg; [done|]. apply Ht, G_refl.
Qed.

Lemma complete_all_rg ts :
  forall cancel w, I w -> Forall (fun t => running_rg I G t w) ts ->
                   I (complete_all cancel ts w).2 /\
                   G w (complete_all cancel ts w).2.
Proof.
  induction ts as [|t ts IH]; intros cancel w HI Hts; simpl; [auto|].
  inversion Hts as [|? ? Ht Hts']; subst.
  destruct (complete_running_rg (cancel || existsb has_raised ts) t w HI Ht)
    as [H1 H2].
  destruct (complete_running _ t w) as [t' w']. simpl in *.
  destruct (IH (cancel || has_raised t') w' H1) as [H3 H4].
  { eapply Forall_impl; [exact Hts'|].
    intros t0 Ht0. by eapply running_rg_mono. }
  destruct (complete_all _ ts w') as [ts'' w'']. simpl in *.
  split; [done|]. by eapply G_trans.
Qed.

Lemma run_steps_rg sch :
  forall ts w, I w -> Forall (fun t => running_rg I G t w) ts ->
               I (run_steps sch ts w).2 /\ G w (run_steps sch ts w).2.
Proof.
  induction sch as [|k sch IH]; intros ts w HI Hts.
  - by apply complete_all_rg.
  - rewrite run_steps_cons.
    destruct (count_running ts) as [|l]; [auto|].
    set (c := existsb has_raised ts && Nat.even (k / S l)).
    destruct (step_running_at_rg c (k mod S l) ts w HI Hts) as (H1 & H2 & H3).
    destruct (step_running_at c (k mod S l) ts w) as [ts' w']. simpl in *.
    destruct (IH ts' w' H1 H3) as [H4 H5].
    split; [done|]. by eapply G_trans.
Qed.

Lemma par_group_rg sch ps w :
  I w -> Forall (fun p => forall w', G w w' -> proc_rg I G p w') ps ->
  I (par_group sch ps w).2 /\ G w (par_group sch ps w).2.
Proof.
  intros HI Hps. unfold par_group.
  pose proof (run_steps_rg sch (map Ready ps) w HI) as H.
  destruct (run_steps sch (map Ready ps) w) as [ts' w']. simpl in *.
  apply H. apply Forall_map. exact Hps.
Qed.

Lemma and_then_rg p k :
  (forall v w, proc_rg I G (k v) w) ->
  forall w, proc_rg I G p w -> proc_rg I G (and_then p k) w.
Proof.
  intros Hk. induction p as [r|f IH|p IH] using proc_ind_act; intros w Hp.
  - destruct r; simpl; [apply Hk|done].
  - simpl in *. intros HI. destruct (Hp HI) as (HI' & HG & Hp').
    specialize (IH w). destruct (f w) as [w' p']. simpl in *.
    split; [done|]. split; [done|]. by apply IH.
  - simpl in *. intros w' HG. apply IH. by apply Hp.
Qed.

Lemma run_alone_rg p :
  forall w, I w -> proc_rg I G p w ->
            I (run_alone p w).2 /\ G w (run_alone p w).2.
Proof.
  induction p as [r|f IH|p IH] using proc_ind_act; intros w HI Hp.
  - simpl. auto.
  - simpl in Hp. destruct (Hp HI) as (HI' & HG & Hp'). simpl.
    specialize (IH w). destruct (f w) as [w' p']. simpl in *.
    destruct (IH w' HI' Hp') as [H1 H2].
    split; [done|]. by eapply G_trans.
  - simpl. apply IH; [done|]. apply Hp, G_refl.
Qed.
End StepsKeep.

Lemma co_call_eq sched self state kwargs :
  co_call sched self state kwargs =
    and_then (co_init sched self None) (fun _ =>
    and_then (co_broadcast sched self on_transform_enter state) (fun _ =>
    and_then
      (co_run_sub_with sched
         (match _transforms self with
          | Some ts => map (fun t => co_bound (co_call sched t) t) ts
          | None => []
          end) self state) (fun state =>
    and_then (co_transform self state kwargs) (fun ret =>
    and_then (co_broadcast sched self on_transform_exit state) (fun _ =>
    Done (Ok ret)))))).
Proof. destruct self; reflexivity. Qed.

(** ** A step that runs as the only task

    The step of a transform as a task and its [__call__] are two readings
    of the same code: with nothing else to run at its suspension points, the
    step does what the call does. *)

Lemma run_alone_and_then p k :
  forall w,
    run_alone (and_then p k) w =
      match run_alone p w with
      | (Ok v, w') => run_alone (k v) w'
      | (Raise e, w') => (Raise e, w')
      end.
Proof.
  induction p as [r|f IH|p IH] using proc_ind_act; intros w; simpl.
  - by destruct r.
  - specialize (IH w). by destruct (f w) as [w' p'].
  - apply IH.
Qed.

Section Alone.
Variable sched : scheduler.

Lemma run_alone_co_init n shared_arg w :
  run_alone (co_init sched n shared_arg) w
  = (to_result (_init sched n shared_arg w).1 PNone,
     (_init sched n shared_arg w).2).
Proof.
  rewrite _init_eq. unfold co_init. cbn [run_alone].
  destruct (_inited (attr n w)); [done|].
  destruct (shared (attr n w)) as [r|], shared_arg as [a|]; try done;
    cbv zeta;
    match goal with |- context [_init_sub_transforms sched n ?w1] =>
      destruct (_init_sub_transforms sched n w1) as [[e|] w2]
    end;
    by destruct (_transforms n).
Qed.

Lemma run_alone_co_broadcast n ev state w :
  run_alone (co_broadcast sched n ev state) w
  = (to_result (broadcast sched n ev state w).1.1 PNone,
     (broadcast sched n ev state w).2).
Proof.
  simpl. destruct (broadcast sched n ev state w) as [[e tks] w'].
  by destruct (has_listeners n w).
Qed.

Lemma co_call_alone n :
  forall state kwargs w,
    run_alone (co_call sched n state kwargs) w = __call__ sched n state kwargs w.
Proof.
  induction n as [n _ IHt] using node_ind_nested. intros state kwargs w.
  assert (forall c st w0,
            In c (match _transforms n with Some ts => ts | None => [] end) ->
            run_alone (co_bound (co_call sched c) c st) w0
            = call sched c st w0) as Hkid.
  { intros c st w0 Hc. rewrite List.Forall_forall in IHt.
    unfold co_bound, call, bound_call.
    destruct (klass_of c); [by apply IHt|].
    simpl. destruct (new_state ∅ w0) as [r w']. by apply IHt. }
  rewrite co_call_eq, __call___eq, run_alone_and_then, run_alone_co_init.
  destruct (_init sched n None w) as [[e|] w0]; [done|].
  cbn [fst snd to_result].
  rewrite run_alone_and_then, run_alone_co_broadcast.
  destruct (broadcast sched n on_transform_enter state w0)
    as [[[e|] t1] w1]; [done|].
  cbn [fst snd to_result].
  rewrite run_alone_and_then.
  assert (run_alone
            (co_run_sub_with sched
               (match _transforms n with
                | Some ts => map (fun t => co_bound (co_call sched t) t) ts
                | None => []
                end) n state) w1
          = _run_sub_transforms sched n state w1) as ->.
  { rewrite _run_sub_transforms_eq. unfold co_run_sub_with, child_steps.
    destruct (_transforms n) as [ts|]; [|done].
    destruct (_run_in_parallel n).
    - simpl. rewrite map_map.
      by destruct (par_group _ _ w1) as [[[e|] tks] w2].
    - rewrite fold_left_map_fun.
      assert (forall cs p,
                (forall c, In c cs -> In c ts) ->
                run_alone
                  (fold_left
                     (fun acc t =>
                        and_then acc (co_bound (co_call sched t) t)) cs p) w1
                = fold_left
                    (fun acc t =>
                       match acc with
                       | (Ok state, w) => call sched t state w
                       | (Raise e, w) => (Raise e, w)
                       end) cs (run_alone p w1)) as Hfold.
      { induction cs as [|c cs IHcs]; intros p Hsub; simpl; [done|].
        rewrite IHcs by (intros; apply Hsub; by right).
        rewrite run_alone_and_then.
        destruct (run_alone p w1) as [[st|e] w2]; [|done].
        by rewrite Hkid by (apply Hsub; by left). }
      by rewrite Hfold. }
  destruct (_run_sub_transforms sched n state w1) as [[state1|e] w2]; [|done].
  rewrite run_alone_and_then. cbn [run_alone co_transform].
  destruct (transform n state1 kwargs (states w2)) as [[ret|e] h]; [|done].
  cbn [run_alone]. rewrite run_alone_and_then, run_alone_co_broadcast.
  by destruct (broadcast sched n on_transform_exit state1 (set_states h w2))
    as [[[e|] t2] w3].
Qed.
End Alone.

(** * Claims *)

(** ** Initialisation of sub-transforms (C1) *)

(** C1, on the code as it is: a node that keeps a sub-transform in an
    attribute and has no declared children list is initialised and marked,
    while the sub-transform is neither renamed nor given the resource nor
    initialised. *)
Theorem C1_attribute_without_children_list_is_skipped :
  let g := leaf 1 "Generation" None None in
  let p := embedding 0 quiet_resource g in
  let r := _init no_schedule p None empty_world in
  r.1 = None /\
  _inited (attr p r.2) = true /\
  _inited (attr g r.2) = false /\
  name (attr g r.2) = "Generation" /\
  shared (attr g r.2) = None.
Proof. vm_compute. repeat split. Qed.

(** With a declared children list, an attribute sub-transform is reached:
    the same two nodes, and an empty list of declared children. *)
Lemma attribute_with_children_list_is_initialised :
  let g := leaf 1 "Generation" None None in
  let p := Node 0 BaseTransform "PromptAgent" (Some quiet_resource) [g]
                (Some []) false KNone KNone None None in
  let r := _init no_schedule p None empty_world in
  r.1 = None /\
  _inited (attr g r.2) = true /\
  name (attr g r.2) = "PromptAgent::Generation" /\
  shared (attr g r.2) = Some quiet_resource.
Proof. vm_compute. repeat split. Qed.

(** Without a declared children list, initialisation writes to the node
    itself only. *)
Lemma _init_without_children_list sched n shared_arg w o :
  _transforms n = None -> o <> oid_of n ->
  objs (_init sched n shared_arg w).2 !! o = objs w !! o.
Proof.
  intros Hts Ho. apply _init_frame.
  rewrite ids_eq, (sub_None n Hts). simpl. intros [?|[]]. done.
Qed.

(** ** Streaming and calling a pipeline of one leaf (C2) *)

(** C2, as the code has it: a pipeline of one leaf whose [stream_transform]
    yields three states streams those three, in order, followed by a fourth
    one, the input state that the pipeline's own [stream_transform] yields;
    [__call__] does not run [stream_transform] at all and returns what
    [BasePipeline.transform] makes of the result of the leaf's [transform]. *)
Theorem C2_stream_yields_leaf_states_then_input
    sched p c r kwargs w s1 s2 s3 h1 :
  klass_of p = BasePipeline ->
  transform_def p = None -> stream_transform_def p = None ->
  _transforms p = Some [c] -> _run_in_parallel p = false ->
  klass_of c = BaseTransform -> _transforms c = None ->
  runnable r p w -> observers r ->
  let s := (new_state kwargs w).1 in
  let h0 := states (new_state kwargs w).2 in
  stream_transform c (PDict s) h0 = ([s1; s2; s3], None, h1) ->
  (BasePipeline_stream sched p kwargs w).1 = ([s1; s2; s3; PDict s], None) /\
  forall b,
    (BasePipeline_call sched p b kwargs w).1 =
      match transform c (PDict s) None h0 with
      | (Ok state', h) =>
          (BasePipeline_transform p state' (Some (PBool b)) h).1
      | (Raise e, _) => Raise e
      end.
Proof.
  intros Hk Hdef Hsdef Hts Hpar Hkc Hleaf Hrun Hobs s h0. subst s h0.
  unfold BasePipeline_stream, BasePipeline_call.
  destruct (new_state kwargs w) as [s w0] eqn:Hnew. cbn [fst snd].
  intros Hyield.
  set (h0 := states w0) in *. assert (h0 = states w0) as Hh0 by done.
  assert (runnable r p w0) as Hrun0.
  { pose proof (runnable_new_state r p kwargs w Hrun) as H.
    by rewrite Hnew in H. }
  split.
  - destruct (first_init sched p r w0 Hrun0) as (Hinit & Hready & Hst).
    set (w1 := (_init sched p None w0).2) in *.
    rewrite __stream___eq, Hinit.
    destruct (Hready p (nodes_self p)) as [Hrp _].
    destruct (broadcast_quiet sched p on_transform_enter (PDict s) w1 r Hrp Hobs)
      as [t1 ->].
    unfold _run_sub_streams, _run_sub_streams_with. rewrite Hts, Hpar.
    assert (In c (nodes p)) as Hc.
    { eapply nodes_sub; [|apply nodes_self].
      unfold sub. rewrite Hts. apply in_or_app. right. by left. }
    destruct (Hready c Hc) as [Hrc Hic].
    simpl.
    rewrite (__stream___leaf sched c (PDict s) w1 r); try done.
    rewrite Hst, <- Hh0, Hyield.
    unfold stream_transform. rewrite Hsdef, Hk.
    unfold BasePipeline_stream_transform.
    destruct (broadcast_quiet sched p on_transform_exit (PDict s)
                (set_states (states (set_states h1 w1)) (set_states h1 w1))
                r Hrp Hobs) as [t2 ->].
    done.
  - intros b.
    rewrite (__call___sequential_leaves sched p [c] r (PDict s)
               (Some (PBool b)) w0); try done.
    2:{ by apply Forall_cons. }
    unfold fold_transforms. simpl. rewrite <- Hh0.
    destruct (transform c (PDict s) None h0) as [[state'|e] h]; [|done].
    unfold transform at 1. rewrite Hdef, Hk.
    by destruct (BasePipeline_transform p state' (Some (PBool b)) h).
Qed.

Lemma quiet_resource_observers : observers quiet_resource.
Proof. constructor. Defined.

Lemma streaming_pipeline_NoDup : NoDup (ids streaming_pipeline).
Proof. apply (bool_decide_unpack _). vm_compute. reflexivity. Defined.

Lemma streaming_pipeline_fresh : fresh_tree streaming_pipeline empty_world.
Proof.
  intros x Hx. simpl in Hx. destruct Hx as [<-|[<-|[]]]; reflexivity.
Defined.

(** The streaming scenario of the specification on the code: four states
    are streamed, not three, and the call returns the projected output field
    of the untouched input, not the last streamed state. *)
Lemma C2_counterexample :
  (stream_transform (leaf 1 "Generation" None (Some three_chunks)) (PDict 0)
                    {[ 0 := hi_state ]}).1
    = ([PDict 1; PDict 2; PDict 3], None) /\
  (BasePipeline_stream no_schedule streaming_pipeline hi_state empty_world).1
    = ([PDict 1; PDict 2; PDict 3; PDict 0], None) /\
  (BasePipeline_call no_schedule streaming_pipeline false hi_state
                     empty_world).1 = Ok PNone /\
  ~ (length (BasePipeline_stream no_schedule streaming_pipeline hi_state
                                 empty_world).1.1 = 3 /\
     (BasePipeline_call no_schedule streaming_pipeline false hi_state
                        empty_world).1 = Ok (PDict 3)).
Proof.
  split; [vm_compute; reflexivity|].
  split; [vm_compute; reflexivity|].
  split; [vm_compute; reflexivity|].
  intros [H _]. vm_compute in H. discriminate H.
Qed.

Lemma C2_witness :
  (BasePipeline_stream no_schedule streaming_pipeline hi_state empty_world).1
    = ([PDict 1; PDict 2; PDict 3; PDict 0], None) /\
  (BasePipeline_call no_schedule streaming_pipeline true hi_state
                     empty_world).1 = Ok (PDict 0).
Proof.
  destruct (C2_stream_yields_leaf_states_then_input no_schedule
              streaming_pipeline (leaf 1 "Generation" None (Some three_chunks))
              quiet_resource hi_state empty_world
              (PDict 1) (PDict 2) (PDict 3)
              (stream_transform (leaf 1 "Generation" None (Some three_chunks))
                 (PDict 0) {[ 0 := hi_state ]}).2
              eq_refl eq_refl eq_refl eq_refl eq_refl eq_refl eq_refl
              (or_introl (conj streaming_pipeline_NoDup
                               (conj streaming_pipeline_fresh eq_refl)))
              quiet_resource_observers) as [Hs Hc].
  - vm_compute. reflexivity.
  - split; [exact Hs|]. rewrite (Hc true). vm_compute. reflexivity.
Defined.

(** ** Sequential children (C3) *)

(** C3 (amended): a pipeline whose sequential children are leaves (plain
    transforms without children of their own), just built or initialised
    before, with listeners that only observe: a call leaves in every state
    dictionary what folding the transforms of the children, in order, over
    the input state leaves there; asked for the state, the call returns the
    state that the fold returns (or raises what the fold raises), and asked
    for the output field it returns that field of that state. *)
Theorem C3_sequential_run_is_fold sched p cs r kwargs w :
  klass_of p = BasePipeline -> transform_def p = None ->
  _transforms p = Some cs -> _run_in_parallel p = false ->
  Forall (fun c => klass_of c = BaseTransform /\ _transforms c = None) cs ->
  runnable r p w -> observers r ->
  let s := (new_state kwargs w).1 in
  let h0 := states (new_state kwargs w).2 in
  (forall return_state,
     states (BasePipeline_call sched p return_state kwargs w).2
     = (fold_transforms cs (PDict s) h0).2) /\
  (BasePipeline_call sched p true kwargs w).1
    = (fold_transforms cs (PDict s) h0).1 /\
  (BasePipeline_call sched p false kwargs w).1
    = match fold_transforms cs (PDict s) h0 with
      | (Ok state', h) => state_get state' (output_key p) h
      | (Raise e, _) => Raise e
      end.
Proof.
  intros Hk Hdef Hts Hpar Hleaf Hrun Hobs s h0. subst s h0.
  unfold BasePipeline_call.
  destruct (new_state kwargs w) as [s w0] eqn:Hnew. cbn [fst snd].
  set (h0 := states w0). assert (h0 = states w0) as Hh0 by done.
  assert (runnable r p w0) as Hrun0.
  { pose proof (runnable_new_state r p kwargs w Hrun) as H.
    by rewrite Hnew in H. }
  assert (forall b,
            __call__ sched p (PDict s) (Some (PBool b)) w0
            = match fold_transforms cs (PDict s) h0 with
              | (Raise e, h) => (Raise e, set_states h (_init sched p None w0).2)
              | (Ok state', h) =>
                  ((BasePipeline_transform p state' (Some (PBool b)) h).1,
                   set_states h (_init sched p None w0).2)
              end) as Hcall.
  { intros b.
    rewrite (__call___sequential_leaves sched p cs r (PDict s)
               (Some (PBool b)) w0 Hts Hpar Hleaf Hrun0 Hobs).
    rewrite <- Hh0.
    destruct (fold_transforms cs (PDict s) h0) as [[state'|e] h]; [|done].
    unfold transform. rewrite Hdef, Hk.
    unfold BasePipeline_transform. simpl. by destruct b. }
  split; [|split].
  - intros b. rewrite Hcall.
    by destruct (fold_transforms cs (PDict s) h0) as [[state'|e] h].
  - rewrite Hcall.
    by destruct (fold_transforms cs (PDict s) h0) as [[state'|e] h].
  - rewrite Hcall.
    by destruct (fold_transforms cs (PDict s) h0) as [[state'|e] h].
Qed.

Lemma marking_pipeline_NoDup : NoDup (ids marking_pipeline).
Proof. apply (bool_decide_unpack _). vm_compute. reflexivity. Defined.

Lemma marking_pipeline_fresh : fresh_tree marking_pipeline empty_world.
Proof.
  intros x Hx. simpl in Hx. destruct Hx as [<-|[<-|[<-|[]]]]; reflexivity.
Defined.

Lemma C3_witness :
  (BasePipeline_call no_schedule marking_pipeline true hi_state empty_world).1
    = Ok (PDict 0) /\
  deref (states (BasePipeline_call no_schedule marking_pipeline true hi_state
                                   empty_world).2) 0
    = <["response" := PStr "42"]> (<["context" := PStr "found"]> hi_state).
Proof.
  destruct (C3_sequential_run_is_fold no_schedule marking_pipeline
              [leaf 1 "Retriever" (Some (marking "context" "found")) None;
               leaf 2 "Generation" (Some (marking "response" "42")) None]
              quiet_resource hi_state empty_world
              eq_refl eq_refl eq_refl eq_refl) as (Hh & Hv & _).
  - repeat constructor.
  - left. split; [exact marking_pipeline_NoDup|].
    split; [exact marking_pipeline_fresh|reflexivity].
  - exact quiet_resource_observers.
  - split; [rewrite Hv; vm_compute; reflexivity|].
    rewrite (Hh true). vm_compute. reflexivity.
Defined.

(** C3 as stated fails for children that are not leaves.  What a run folds
    is the step of each child, not its [transform]: a child that groups two
    steps runs them, where its own [transform] does nothing, and a child
    that is a pipeline starts from a new, empty state and returns it, where
    its own [transform] reads the output field of the state it is given. *)
Lemma C3_counterexample :
  (_transforms grouped_pipeline
     = Some [leaf 1 "Retriever" (Some (marking "context" "found")) None;
             group 2 [leaf 3 "Reranker" (Some (marking "context" "ranked")) None;
                      leaf 4 "Generation" (Some (marking "response" "42"))
                           None]] /\
   _run_in_parallel grouped_pipeline = false /\
   deref (states (BasePipeline_call no_schedule grouped_pipeline true hi_state
                                    empty_world).2) 0
     = <["response" := PStr "42"]>
         (<["context" := PStr "ranked"]> hi_state) /\
   deref (fold_transforms
            [leaf 1 "Retriever" (Some (marking "context" "found")) None;
             group 2 [leaf 3 "Reranker" (Some (marking "context" "ranked")) None;
                      leaf 4 "Generation" (Some (marking "response" "42"))
                           None]]
            (PDict 0) {[ 0 := hi_state ]}).2 0
     = <["context" := PStr "found"]> hi_state /\
   states (BasePipeline_call no_schedule grouped_pipeline true hi_state
                             empty_world).2
     <> (fold_transforms
           [leaf 1 "Retriever" (Some (marking "context" "found")) None;
            group 2 [leaf 3 "Reranker" (Some (marking "context" "ranked")) None;
                     leaf 4 "Generation" (Some (marking "response" "42"))
                          None]]
           (PDict 0) {[ 0 := hi_state ]}).2) /\
  ((BasePipeline_call no_schedule nesting_pipeline true hi_state
                      empty_world).1 = Ok (PDict 1) /\
   states (BasePipeline_call no_schedule nesting_pipeline true hi_state
                             empty_world).2
     = {[ 0 := hi_state; 1 := ∅ ]} /\
   fold_transforms
     [Node 1 BasePipeline "BasePipeline" (Some quiet_resource) [] None false
           (KList ["query"; "history"; "doc_ids"]) (KStr "response") None None]
     (PDict 0) {[ 0 := hi_state ]}
     = (Ok PNone, {[ 0 := hi_state ]})).
Proof.
  split.
  - split; [reflexivity|]. split; [reflexivity|].
    assert (deref (states (BasePipeline_call no_schedule grouped_pipeline true
                             hi_state empty_world).2) 0
            = <["response" := PStr "42"]>
                (<["context" := PStr "ranked"]> hi_state)) as Hrun
      by (vm_compute; reflexivity).
    assert (deref (fold_transforms
                     [leaf 1 "Retriever" (Some (marking "context" "found")) None;
                      group 2 [leaf 3 "Reranker"
                                 (Some (marking "context" "ranked")) None;
                               leaf 4 "Generation"
                                 (Some (marking "response" "42")) None]]
                     (PDict 0) {[ 0 := hi_state ]}).2 0
            = <["context" := PStr "found"]> hi_state) as Hfold
      by (vm_compute; reflexivity).
    split; [exact Hrun|]. split; [exact Hfold|].
    intros Heq. rewrite Heq, Hfold in Hrun.
    apply (f_equal (fun d : dict => d !! "response")) in Hrun.
    vm_compute in Hrun. discriminate Hrun.
  - split; [vm_compute; reflexivity|].
    split; vm_compute; reflexivity.
Qed.

(** ** Initialising more than once (C4) *)

(** C4 (amended): on a tree each node of which is reached once, none
    initialised yet, with a resource at hand, the first [_init] succeeds; it
    leaves every node it reaches with that one resource instance and marked,
    the root under its own name and every other node renamed once, to the
    name of its parent, two colons and the name it had; any further calls
    made one after the other, whatever their arguments, return at once and
    leave every name, resource and mark as the first call left them. *)
Theorem C4_initialize_once sched n r shared_arg more w :
  NoDup (ids n) -> fresh_tree n w ->
  match shared_arg with
  | Some s => Some s
  | None => shared (attr n w)
  end = Some r ->
  let w1 := (_init sched n shared_arg w).2 in
  (_init sched n shared_arg w).1 = None /\
  (forall x, In x (nodes n) ->
             shared (attr x w1) = Some r /\ _inited (attr x w1) = true) /\
  name (attr n w1) = name (attr n w) /\
  (forall x d, In x (nodes n) -> In d (sub x) ->
               name (attr d w1)
               = name (attr x w1) +:+ "::" +:+ name (attr d w)) /\
  (forall a, _init sched n a w1 = (None, w1)) /\
  initialize_each sched n (shared_arg :: more) w = w1.
Proof.
  intros Hnd Hfr Heff w1.
  assert ((_init sched n shared_arg w).1 = None) as Hok.
  { apply _init_available. destruct shared_arg; [by left|right].
    by rewrite Heff. }
  assert (forall a, _init sched n a w1 = (None, w1)) as Hagain.
  { intros a. apply _init_again. by apply _init_marks. }
  destruct (_init_names sched n r shared_arg w Hnd Hfr Heff) as [Hroot Hnames].
  split; [done|]. split; [by apply _init_propagates|].
  split; [done|]. split; [done|]. split; [done|].
  unfold initialize_each. simpl. fold w1.
  induction more as [|a more IH]; simpl; [done|].
  by rewrite Hagain.
Qed.

Lemma two_leaves_NoDup : NoDup (ids two_leaves).
Proof.
  apply (bool_decide_unpack _). vm_compute. reflexivity.
Defined.

Lemma two_leaves_fresh : fresh_tree two_leaves empty_world.
Proof.
  intros x Hx. simpl in Hx.
  destruct Hx as [<-|[<-|[<-|[]]]]; reflexivity.
Defined.

Lemma C4_witness :
  NoDup (ids two_leaves) /\ fresh_tree two_leaves empty_world /\
  shared (attr two_leaves empty_world) = Some quiet_resource /\
  initialize_each no_schedule two_leaves [None; None; Some quiet_resource]
                  empty_world
  = (_init no_schedule two_leaves None empty_world).2 /\
  name (attr (leaf 2 "Generation" None None)
             (_init no_schedule two_leaves None empty_world).2)
  = "BasePipeline::Generation".
Proof.
  split; [exact two_leaves_NoDup|]. split; [exact two_leaves_fresh|].
  split; [reflexivity|].
  destruct (C4_initialize_once no_schedule two_leaves quiet_resource None
              [None; Some quiet_resource] empty_world
              two_leaves_NoDup two_leaves_fresh eq_refl)
    as (_ & _ & _ & Hnames & _ & Hall).
  split; [exact Hall|].
  rewrite (Hnames two_leaves (leaf 2 "Generation" None None)).
  - vm_compute. reflexivity.
  - left. reflexivity.
  - right. left. reflexivity.
Defined.

(** C4 as stated fails on trees that the first call does not find as it
    expects them.  A sub-transform that is both an attribute of its parent
    and a listed child is reached twice by the one call, and renamed twice;
    a sub-transform that was initialised before, with a resource of its own,
    is renamed by the call on its new parent but keeps its resource, so that
    the nodes of the tree do not hold one instance; and of two first calls
    started together, the second finds the node not yet marked while the
    first waits for its task group, and renames the children once more,
    where two calls made one after the other rename them once. *)
Lemma C4_counterexample :
  ((_init no_schedule twice_reached None empty_world).1 = None /\
   name (attr (leaf 1 "Generation" None None)
              (_init no_schedule twice_reached None empty_world).2)
     = "PromptAgent::PromptAgent::Generation") /\
  (_inited (attr (leaf 1 "Retriever" None None) used_world) = true /\
   (_init no_schedule two_leaves None used_world).1 = None /\
   name (attr (leaf 1 "Retriever" None None)
              (_init no_schedule two_leaves None used_world).2)
     = "BasePipeline::Retriever" /\
   rid <$> shared (attr (leaf 1 "Retriever" None None)
                        (_init no_schedule two_leaves None used_world).2)
     = Some 5 /\
   rid <$> shared (attr two_leaves
                        (_init no_schedule two_leaves None used_world).2)
     = Some 1 /\
   shared (attr (leaf 1 "Retriever" None None)
                (_init no_schedule two_leaves None used_world).2)
     <> shared (attr two_leaves
                     (_init no_schedule two_leaves None used_world).2)) /\
  ((par_group [0; 1]
      [co_init no_schedule two_leaves None; co_init no_schedule two_leaves None]
      empty_world).1.1 = None /\
   name (attr (leaf 1 "Retriever" None None)
              (par_group [0; 1]
                 [co_init no_schedule two_leaves None;
                  co_init no_schedule two_leaves None] empty_world).2)
     = "BasePipeline::BasePipeline::Retriever" /\
   name (attr (leaf 1 "Retriever" None None)
              (initialize_each no_schedule two_leaves [None; None] empty_world))
     = "BasePipeline::Retriever").
Proof.
  split; [split; vm_compute; reflexivity|].
  split; [|split; [vm_compute; reflexivity|split; vm_compute; reflexivity]].
  split; [vm_compute; reflexivity|].
  split; [vm_compute; reflexivity|].
  split; [vm_compute; reflexivity|].
  assert (rid <$> shared (attr (leaf 1 "Retriever" None None)
                               (_init no_schedule two_leaves None used_world).2)
          = Some 5) as H5 by (vm_compute; reflexivity).
  assert (rid <$> shared (attr two_leaves
                               (_init no_schedule two_leaves None used_world).2)
          = Some 1) as H1 by (vm_compute; reflexivity).
  split; [exact H5|]. split; [exact H1|].
  intros Heq. rewrite Heq, H1 in H5. discriminate H5.
Qed.

(** ** A listener that fails on enter (C5) *)

(** C5: when a listener task of the enter broadcast has failed, the
    broadcast raises the group of the failures, the step raises that same
    group and ends in the very world the broadcast left (neither the children
    nor the node's own transform have run), and by then no listener task is
    pending or suspended: each has finished, failed or been cancelled. *)
Theorem C5_enter_failure_aborts_step sched n state kwargs w w0 out tasks w1 :
  _init sched n None w = (None, w0) ->
  broadcast sched n on_transform_enter state w0 = (out, tasks, w1) ->
  (exists e0, In (Failed e0) tasks) ->
  out = Some (ExceptionGroup (failures tasks)) /\
  __call__ sched n state kwargs w
    = (Raise (ExceptionGroup (failures tasks)), w1) /\
  Forall (fun t => is_live t = false) tasks.
Proof.
  intros Hinit Hb [e0 He0].
  assert (out = Some (ExceptionGroup (failures tasks))) as Hout.
  { unfold broadcast, _on_event in Hb.
    destruct (shared (attr n w0)) as [r|].
    2:{ injection Hb as <- <- <-. destruct He0. }
    destruct (listeners (listener r)) as [|l ls].
    { injection Hb as <- <- <-. destruct He0. }
    unfold task_group in Hb.
    destruct (run_tasks _ _ _ w0) as [ts' w'].
    injection Hb as <- <- <-.
    pose proof (failures_In _ _ He0) as Hin.
    by destruct (failures ts'). }
  split; [done|]. split.
  - rewrite __call___eq, Hinit, Hb, Hout. done.
  - apply count_live_none.
    pose proof (broadcast_terminal sched n on_transform_enter state w0) as Ht.
    by rewrite Hb in Ht.
Qed.

Lemma C5_witness :
  let r := __call__ interleaved guarded_node (PDict 0) None hi_world in
  r.1 = Raise (ExceptionGroup [UserError 1]) /\
  states r.2 = states hi_world.
Proof.
  pose proof (C5_enter_failure_aborts_step interleaved guarded_node (PDict 0)
                None hi_world
                (_init interleaved guarded_node None hi_world).2
                (Some (ExceptionGroup [UserError 1]))
                [Cancelled; Failed (UserError 1)]
                (_init interleaved guarded_node None hi_world).2) as H.
  destruct H as (_ & H & _).
  - vm_compute. reflexivity.
  - vm_compute. reflexivity.
  - exists (UserError 1). right. left. reflexivity.
  - cbv zeta. rewrite H. split; [reflexivity|]. vm_compute. reflexivity.
Defined.

(** ** The missing resource (C6) *)

(** C6: on a node whose state is consistent (an initialised node has a
    resource), [_init] raises the error for the missing resource exactly when
    neither the argument nor the node provides one; with a resource at hand
    it raises nothing at all. *)
Theorem C6_init_fails_iff_no_resource sched n shared_arg w :
  (_inited (attr n w) = true -> shared (attr n w) <> None) ->
  ((_init sched n shared_arg w).1
     = Some (RuntimeError "SharedResource not provided.")
   <-> shared_arg = None /\ shared (attr n w) = None) /\
  ((exists e, (_init sched n shared_arg w).1 = Some e)
   <-> shared_arg = None /\ shared (attr n w) = None) /\
  (shared_arg <> None \/ shared (attr n w) <> None ->
   (_init sched n shared_arg w).1 = None).
Proof.
  intros Hcons.
  assert (shared_arg = None /\ shared (attr n w) = None ->
          (_init sched n shared_arg w).1
            = Some (RuntimeError "SharedResource not provided.")) as Hfail.
  { intros [-> Hown]. rewrite _init_eq, Hown.
    destruct (_inited (attr n w)); [|done].
    by destruct Hcons. }
  split; [|split].
  - split; [|done]. intros He.
    by destruct (_init_raises sched n shared_arg w _ He) as (_ & ? & ? & _).
  - split; [|by eauto]. intros [e He].
    by destruct (_init_raises sched n shared_arg w _ He) as (_ & ? & ? & _).
  - apply _init_available.
Qed.

Lemma C6_witness :
  let n := leaf 1 "Generation" None None in
  (_inited (attr n empty_world) = true -> shared (attr n empty_world) <> None) /\
  (_init no_schedule n None empty_world).1
    = Some (RuntimeError "SharedResource not provided.").
Proof.
  split.
  - intros H. discriminate H.
  - apply (C6_init_fails_iff_no_resource no_schedule
             (leaf 1 "Generation" None None) None empty_world).
    + intros H. discriminate H.
    + split; reflexivity.
Defined.

(** ** Missing keys (C7) *)

(** C7: a key that the state lacks reads as [None], through [dict.get],
    through the [get] of the output key, and through [_get_input] for a
    declared input key, given alone or in a list; none of these has a way to
    fail on a dictionary. *)
Theorem C7_missing_key_reads_as_none (d : dict) (k : string) :
  d !! k = None ->
  dict_get d k = PNone /\
  (forall h r, deref h r = d -> state_get (PDict r) (KStr k) h = Ok PNone) /\
  (forall n, input_key n = KStr k -> _get_input n d !! Some k = Some PNone) /\
  (forall n ks, input_key n = KList ks -> In k ks ->
                _get_input n d !! Some k = Some PNone).
Proof.
  intros Hk.
  assert (dict_get d k = PNone) as Hget by (unfold dict_get; by rewrite Hk).
  split; [done|]. split; [|split].
  - intros h r Hd. simpl. by rewrite Hd, Hget.
  - intros n Hn. unfold _get_input. rewrite Hn.
    by rewrite lookup_singleton_eq, Hget.
  - intros n ks Hn Hin. unfold _get_input. rewrite Hn.
    by rewrite _get_input_list, Hget.
Qed.

Lemma C7_witness :
  hi_state !! "response" = None /\ dict_get hi_state "response" = PNone.
Proof.
  split; [reflexivity|].
  apply (C7_missing_key_reads_as_none hi_state "response"). reflexivity.
Defined.

(** ** Listeners that only observe (C8) *)


Lemma observed_resource_observers : observers observed_resource.
Proof.
  repeat constructor; intros ev tname state; destruct ev; constructor.
Defined.



Lemma empty_world_quiet : quiet_world empty_world.
Proof. intros o m Ho. simpl in Ho. by rewrite lookup_empty in Ho. Defined.





(** ** Parallel children (C9) *)




(** ** What the exit listeners see (C10) *)

(** C10: in a step that succeeds, the exit broadcast is handed the state
    that [_run_sub_transforms] produced and that was passed to the node's
    own transform, while the step returns what that transform returned. *)
Theorem C10_exit_sees_input_of_transform sched n state kwargs w ret w' :
  __call__ sched n state kwargs w = (Ok ret, w') ->
  exists w0 t1 w1 state1 w2 h t2,
    _init sched n None w = (None, w0) /\
    broadcast sched n on_transform_enter state w0 = (None, t1, w1) /\
    _run_sub_transforms sched n state w1 = (Ok state1, w2) /\
    transform n state1 kwargs (states w2) = (Ok ret, h) /\
    broadcast sched n on_transform_exit state1 (set_states h w2)
      = (None, t2, w').
Proof.
  rewrite __call___eq. intros H.
  destruct (_init sched n None w) as [[e|] w0] eqn:Hi; [done|].
  destruct (broadcast sched n on_transform_enter state w0)
    as [[[e|] t1] w1] eqn:He; [done|].
  destruct (_run_sub_transforms sched n state w1) as [[state1|e] w2] eqn:Hs;
    [|done].
  destruct (transform n state1 kwargs (states w2)) as [[ret'|e] h] eqn:Ht;
    [|done].
  destruct (broadcast sched n on_transform_exit state1 (set_states h w2))
    as [[[e|] t2] w3] eqn:Hx; [done|].
  injection H as -> ->.
  exists w0, t1, w1, state1, w2, h, t2. repeat split; assumption.
Qed.

(** The pipeline whose child writes the response, called for the response
    alone: the call returns the text, the exit listener of the pipeline has
    been handed the state dictionary. *)
Lemma C10_witness :
  let r := BasePipeline_call no_schedule answering_pipeline false hi_state
                             empty_world in
  r.1 = Ok (PStr "42") /\
  deref (states r.2) 99 !! "seen" = Some (PDict 0) /\
  exists w0 t1 w1 state1 w2 h t2,
    let w := (new_state hi_state empty_world).2 in
    _init no_schedule answering_pipeline None w = (None, w0) /\
    broadcast no_schedule answering_pipeline on_transform_enter (PDict 0) w0
      = (None, t1, w1) /\
    _run_sub_transforms no_schedule answering_pipeline (PDict 0) w1
      = (Ok state1, w2) /\
    transform answering_pipeline state1 (Some (PBool false)) (states w2)
      = (Ok (PStr "42"), h) /\
    broadcast no_schedule answering_pipeline on_transform_exit state1
              (set_states h w2) = (None, t2, r.2).
Proof.
  cbv zeta. split; [vm_compute; reflexivity|].
  split; [vm_compute; reflexivity|].
  apply (C10_exit_sees_input_of_transform no_schedule answering_pipeline
           (PDict 0) (Some (PBool false)) (new_state hi_state empty_world).2
           (PStr "42")).
  vm_compute. reflexivity.
Defined.

(** * Further properties of the engine *)

Section BroadcastKeeps.
Variable sched : scheduler.
Variable I : world -> Prop.
Hypothesis I_states : forall h w, I w -> I (set_states h w).

Lemma lift_segment_keeps s : keeps I (lift_segment s).
Proof.
  intros w HI. unfold lift_segment. destruct (s (states w)) as [e h]. simpl.
  by apply I_states.
Qed.

Lemma _on_event_keeps sch l ev tname state w :
  I w -> I (_on_event sch l ev tname state w).2.
Proof.
  intros HI. unfold _on_event. destruct (listeners l) as [|x ls]; [done|].
  apply task_group_keeps; [|done].
  apply Forall_map, List.Forall_forall. intros y _.
  apply Forall_map, List.Forall_forall. intros s _. apply lift_segment_keeps.
Qed.

Lemma broadcast_keeps self ev state w :
  I w -> I (broadcast sched self ev state w).2.
Proof.
  intros HI. unfold broadcast. destruct (shared (attr self w)); [|done].
  by apply _on_event_keeps.
Qed.

End BroadcastKeeps.

Section RunKeeps.
Variable sched : scheduler.
Variable I : world -> Prop.
Variable G : world -> world -> Prop.
Hypothesis G_refl : forall w, G w w.
Hypothesis G_trans : forall w1 w2 w3, G w1 w2 -> G w2 w3 -> G w1 w3.
Hypothesis I_states : forall h w, I w -> I (set_states h w).
Hypothesis G_states : forall h w, G w (set_states h w).

Lemma _run_sub_streams_eq self state w :
  _run_sub_streams sched self state w =
    match _transforms self with
    | None => ([], None, w)
    | Some ts =>
        if _run_in_parallel self then
          let '(e, _, w') :=
            par_group (sched (StreamSite (oid_of self)))
                      (child_steps sched self state) w in
          match e with
          | Some e => ([], Some e, w')
          | None => ([state], None, w')
          end
        else
          fold_left
            (fun acc t =>
               match acc with
               | (ys, None, w) =>
                   let '(ys', e, w') := __stream__ sched t state w in
                   (ys ++ ys', e, w')
               | (ys, Some e, w) => (ys, Some e, w)
               end)
            ts ([], None, w)
    end.
Proof.
  unfold _run_sub_streams, _run_sub_streams_with.
  destruct (_transforms self) as [ts|]; [|done].
  destruct (_run_in_parallel self); [done|].
  by rewrite fold_left_map_fun.
Qed.

Lemma broadcast_rg x ev state w :
  I w ->
  I (broadcast sched x ev state w).2 /\ G w (broadcast sched x ev state w).2.
Proof.
  intros HI.
  apply (broadcast_keeps sched (fun w' => I w' /\ G w w')); [|auto].
  intros h w' [HI' HG]. split; [by apply I_states|].
  eapply G_trans; [exact HG|apply G_states].
Qed.

Lemma co_broadcast_rg x ev state w :
  proc_rg I G (co_broadcast sched x ev state) w.
Proof.
  simpl. intros HI. destruct (broadcast_rg x ev state w HI) as [H1 H2].
  destruct (broadcast sched x ev state w) as [[e tks] w']. simpl in *.
  split; [done|]. split; [done|]. by destruct (has_listeners x w).
Qed.

Lemma co_transform_rg x state kwargs w :
  proc_rg I G (co_transform x state kwargs) w.
Proof.
  simpl. intros HI.
  destruct (transform x state kwargs (states w)) as [r h]. simpl.
  split; [by apply I_states|]. split; [apply G_states|done].
Qed.

(** The step of a sub-transform, run as a task, keeps what the
    initialisation of the nodes it reaches keeps. *)
Lemma co_call_rg n :
  (forall x, In x (nodes n) -> forall w, proc_rg I G (co_init sched x None) w) ->
  forall state kwargs w, proc_rg I G (co_call sched n state kwargs) w.
Proof.
  induction n as [n _ IHt] using node_ind_nested. intros Hinit state kwargs w.
  rewrite co_call_eq.
  assert (forall c state w,
            In c (match _transforms n with Some ts => ts | None => [] end) ->
            proc_rg I G (co_bound (co_call sched c) c state) w) as Hkid.
  { intros c st w0 Hc. rewrite List.Forall_forall in IHt.
    assert (forall st kw w, proc_rg I G (co_call sched c st kw) w) as Hc'.
    { apply (IHt c Hc). intros x Hx. apply Hinit.
      eapply nodes_sub; [|exact Hx]. unfold sub.
      destruct (_transforms n) as [ts|]; [|done].
      apply in_or_app. by right. }
    unfold co_bound. destruct (klass_of c); [apply Hc'|].
    simpl. intros HI. unfold new_state. simpl.
    split; [by apply I_states|]. split; [apply G_states|apply Hc']. }
  apply (and_then_rg I G); [|apply Hinit, nodes_self]. intros _ w0.
  apply (and_then_rg I G); [|apply co_broadcast_rg]. intros _ w1.
  apply (and_then_rg I G).
  - intros state1 w2.
    apply (and_then_rg I G); [|apply co_transform_rg]. intros ret w3.
    apply (and_then_rg I G); [|apply co_broadcast_rg]. done.
  - unfold co_run_sub_with.
    destruct (_transforms n) as [ts|]; [|done].
    destruct (_run_in_parallel n).
    + simpl. intros HI.
      match goal with |- context [par_group ?s ?ps w1] =>
        pose proof (par_group_rg I G G_refl G_trans s ps w1 HI) as Hg;
        destruct (par_group s ps w1) as [[e tks] w']
      end.
      simpl in *. destruct Hg as [H1 H2].
      { rewrite map_map. apply Forall_map, List.Forall_forall.
        intros c Hc w'' _. by apply Hkid. }
      done.
    + rewrite fold_left_map_fun.
      assert (forall cs p, (forall c, In c cs -> In c ts) ->
                (forall w, proc_rg I G p w) ->
                forall w,
                  proc_rg I G
                    (fold_left
                       (fun acc t =>
                          and_then acc (co_bound (co_call sched t) t)) cs p) w)
        as Hfold.
      { induction cs as [|c cs IHcs]; intros p Hsub Hp; simpl; [done|].
        apply IHcs; [intros; apply Hsub; by right|].
        intros w'. apply (and_then_rg I G); [|apply Hp]. intros v w''.
        apply Hkid, Hsub. by left. }
      by apply Hfold.
Qed.

(** A property of the object store that initialisation keeps is kept by a
    whole step, called or streamed. *)
Lemma run_keeps n :
  (forall x, In x (nodes n) -> forall w, proc_rg I G (co_init sched x None) w) ->
  (forall state kwargs w, I w -> I (__call__ sched n state kwargs w).2) /\
  (forall state w, I w -> I (__stream__ sched n state w).2).
Proof.
  induction n as [n _ IHt] using node_ind_nested. intros Hco.
  assert (forall x, In x (nodes n) ->
            forall w, I w -> I (_init sched x None w).2) as Hinit.
  { intros x Hx w HI.
    destruct (run_alone_rg I G G_refl G_trans (co_init sched x None) w HI
                (Hco x Hx w)) as [H _].
    by rewrite run_alone_co_init in H. }
  assert (forall ts, _transforms n = Some ts -> forall c, In c ts ->
            (forall state kwargs w, I w -> I (__call__ sched c state kwargs w).2) /\
            (forall state w, I w -> I (__stream__ sched c state w).2)) as Hkids.
  { intros ts Hts c Hc. rewrite Hts in IHt.
    rewrite List.Forall_forall in IHt. apply (IHt c Hc).
    intros x Hx. apply Hco. eapply nodes_sub; [|exact Hx].
    unfold sub. rewrite Hts. apply in_or_app. by right. }
  assert (forall ts, _transforms n = Some ts -> forall c, In c ts ->
            forall state w, I w -> I (call sched c state w).2) as Hcall.
  { intros ts Hts c Hc state w HI. unfold call, bound_call.
    destruct (Hkids ts Hts c Hc) as [Hk _].
    destruct (klass_of c); [by apply Hk|].
    unfold new_state. apply Hk. by apply I_states. }
  assert (forall sch state w, I w ->
            I (par_group sch (child_steps sched n state) w).2) as Hgroup.
  { intros sch state w HI.
    apply (par_group_rg I G G_refl G_trans); [done|].
    unfold child_steps. destruct (_transforms n) as [ts|] eqn:Hts; [|done].
    apply Forall_map, List.Forall_forall. intros c Hc w' _.
    assert (forall st kw w, proc_rg I G (co_call sched c st kw) w) as Hc'.
    { apply co_call_rg. intros x Hx. apply Hco.
      eapply nodes_sub; [|exact Hx]. unfold sub. rewrite Hts.
      apply in_or_app. by right. }
    unfold co_bound. destruct (klass_of c); [apply Hc'|].
    simpl. intros HI'. unfold new_state. simpl.
    split; [by apply I_states|]. split; [apply G_states|apply Hc']. }
  split.
  - intros state kwargs w HI. rewrite __call___eq.
    pose proof (Hinit n (nodes_self n) w HI) as H0.
    destruct (_init sched n None w) as [[e|] w0]; [done|]. simpl in H0.
    pose proof (broadcast_keeps sched I I_states n on_transform_enter state w0 H0) as H1.
    destruct (broadcast sched n on_transform_enter state w0)
      as [[[e|] t1] w1]; [done|]. simpl in H1.
    assert (I (_run_sub_transforms sched n state w1).2) as H2.
    { rewrite _run_sub_transforms_eq.
      destruct (_transforms n) as [ts|] eqn:Hts; [|done].
      destruct (_run_in_parallel n).
      - pose proof (Hgroup (sched (RunSite (oid_of n))) state w1 H1) as Hg.
        destruct (par_group _ _ w1) as [[[e|] tks] w2]; done.
      - assert (forall cs acc, (forall c, In c cs -> In c ts) -> I acc.2 ->
                  I (fold_left
                       (fun acc t =>
                          match acc with
                          | (Ok state, w) => call sched t state w
                          | (Raise e, w) => (Raise e, w)
                          end) cs acc).2) as Hfold.
        { induction cs as [|c cs IHcs]; intros [res w'] Hsub HI'; simpl in *;
            [done|].
          apply IHcs; [intros; apply Hsub; by right|].
          destruct res as [st|e]; [|done].
          apply (Hcall ts eq_refl c); [apply Hsub; by left|done]. }
        by apply (Hfold ts (Ok state, w1)). }
    destruct (_run_sub_transforms sched n state w1) as [[state1|e] w2];
      [|done]. simpl in H2.
    destruct (transform n state1 kwargs (states w2)) as [[ret|e] h];
      [|by apply I_states].
    pose proof (broadcast_keeps sched I I_states n on_transform_exit state1
                  (set_states h w2) (I_states h w2 H2)) as H3.
    by destruct (broadcast sched n on_transform_exit state1 (set_states h w2))
      as [[[e|] t2] w3].
  - intros state w HI. rewrite __stream___eq.
    pose proof (Hinit n (nodes_self n) w HI) as H0.
    destruct (_init sched n None w) as [[e|] w0]; [done|]. simpl in H0.
    pose proof (broadcast_keeps sched I I_states n on_transform_enter state w0 H0) as H1.
    destruct (broadcast sched n on_transform_enter state w0)
      as [[[e|] t1] w1]; [done|]. simpl in H1.
    assert (I (_run_sub_streams sched n state w1).2) as H2.
    { rewrite _run_sub_streams_eq.
      destruct (_transforms n) as [ts|] eqn:Hts; [|done].
      destruct (_run_in_parallel n).
      - pose proof (Hgroup (sched (StreamSite (oid_of n))) state w1 H1) as Hg.
        destruct (par_group _ _ w1) as [[[e|] tks] w2]; done.
      - assert (forall cs acc, (forall c, In c cs -> In c ts) -> I acc.2 ->
                  I (fold_left
                       (fun acc t =>
                          match acc with
                          | (ys, None, w) =>
                              let '(ys', e, w') := __stream__ sched t state w in
                              (ys ++ ys', e, w')
                          | (ys, Some e, w) => (ys, Some e, w)
                          end) cs acc).2) as Hfold.
        { induction cs as [|c cs IHcs]; intros [[ys e] w'] Hsub HI'; simpl in *;
            [done|].
          apply IHcs; [intros; apply Hsub; by right|].
          destruct e as [e|]; [done|].
          destruct (Hkids ts eq_refl c (Hsub c (or_introl eq_refl))) as [_ Hs].
          pose proof (Hs state w' HI') as H.
          by destruct (__stream__ sched c state w') as [[ys' e'] w'']. }
        by apply (Hfold ts ([], None, w1)). }
    destruct (_run_sub_streams sched n state w1) as [[ys [e|]] w2];
      [done|]. simpl in H2.
    destruct (stream_transform n state (states w2)) as [[ys' [e|]] h];
      [by apply I_states|].
    pose proof (broadcast_keeps sched I I_states n on_transform_exit state
                  (set_states h w2) (I_states h w2 H2)) as H3.
    by destruct (broadcast sched n on_transform_exit state (set_states h w2))
      as [[[e|] t2] w3].
Qed.
End RunKeeps.

(** ** What initialisation writes *)

(** X1: initialisation never writes to a state dictionary, and it leaves
    every object alone that is not a node of the tree it is called on. *)
Theorem X1_init_writes_only_to_its_nodes sched n shared_arg w :
  states (_init sched n shared_arg w).2 = states w /\
  forall o, ~ In o (ids n) ->
            objs (_init sched n shared_arg w).2 !! o = objs w !! o.
Proof.
  split; [apply _init_states|]. intros o Ho. by apply _init_frame.
Qed.

(** X2: an initialisation that raises has written nothing, so that the same
    node can still be initialised afterwards: a later call that brings a
    resource succeeds and marks the node. *)
Theorem X2_failed_init_changes_nothing sched n shared_arg w e :
  (_init sched n shared_arg w).1 = Some e ->
  (_init sched n shared_arg w).2 = w /\
  forall r,
    (_init sched n (Some r) (_init sched n shared_arg w).2).1 = None /\
    _inited (attr n (_init sched n (Some r) (_init sched n shared_arg w).2).2)
      = true.
Proof.
  intros He.
  destruct (_init_raises sched n shared_arg w e He) as (_ & _ & Hs & Hi & Hw).
  split; [done|]. intros r. rewrite Hw.
  split; [apply _init_with_resource|].
  apply _init_marks, _init_with_resource.
Qed.

Lemma X2_witness :
  (_init no_schedule orphan None empty_world).1
    = Some (RuntimeError "SharedResource not provided.") /\
  (_init no_schedule orphan None empty_world).2 = empty_world /\
  _inited (attr orphan
             (_init no_schedule orphan (Some quiet_resource)
                (_init no_schedule orphan None empty_world).2).2) = true.
Proof.
  split; [reflexivity|].
  destruct (X2_failed_init_changes_nothing no_schedule orphan None empty_world
              (RuntimeError "SharedResource not provided.") eq_refl)
    as [Hw Hr].
  split; [exact Hw|]. exact (proj2 (Hr quiet_resource)).
Defined.

(** ** The invariant of the object store *)

Lemma consistent_set_attr x m w :
  consistent w -> (_inited m = true -> shared m <> None) ->
  consistent (set_attr x m w).
Proof.
  intros Hw Hm o m' Ho. unfold set_attr in Ho. simpl in Ho.
  destruct (decide (oid_of x = o)) as [<-|Hne].
  - rewrite lookup_insert_eq in Ho. by injection Ho as <-.
  - rewrite lookup_insert_ne in Ho; [|done]. by eapply Hw.
Qed.

Lemma consistent_attr x w :
  consistent w -> _inited (attr x w) = true -> shared (attr x w) <> None.
Proof.
  intros Hw. unfold attr.
  destruct (objs w !! oid_of x) as [m|] eqn:Hm; [by eapply Hw|done].
Qed.

Lemma has_resource_attr x w :
  has_resource (oid_of x) w -> shared (attr x w) <> None.
Proof. intros (m & Hm & Hs). unfold attr. by rewrite Hm. Qed.

Lemma has_resource_set_attr o x m w :
  has_resource o w -> (oid_of x = o -> shared m <> None) ->
  has_resource o (set_attr x m w).
Proof.
  intros (m0 & Hm0 & Hs0) Hm. unfold has_resource, set_attr. simpl.
  destruct (decide (oid_of x = o)) as [Heq|Hne].
  - exists m. rewrite <- Heq, lookup_insert_eq. split; [done|]. by apply Hm.
  - exists m0. by rewrite lookup_insert_ne.
Qed.

Section Consistency.
Variable sched : scheduler.

Lemma _init_consistent n :
  forall S shared_arg w,
    consistent w -> (forall o, In o S -> has_resource o w) ->
    consistent (_init sched n shared_arg w).2 /\
    forall o, In o S -> has_resource o (_init sched n shared_arg w).2.
Proof.
  induction n as [n IHa IHt] using node_ind_nested.
  intros S shared_arg w Hw HS.
  pose proof (Forall_sub _ n IHa IHt) as IH. clear IHa IHt.
  rewrite List.Forall_forall in IH.
  rewrite _init_eq_effective. destruct (_inited (attr n w)); [done|].
  destruct (match shared_arg with Some s => Some s | None => shared (attr n w) end)
    as [r|]; [|done].
  set (K := fun w' => consistent w' /\
                      forall o, In o (oid_of n :: S) -> has_resource o w').
  assert (K (set_shared n (Some r) w)) as HK1.
  { split.
    - unfold set_shared. by apply consistent_set_attr.
    - intros o [<-|Ho].
      + exists {| name := name (attr n w); shared := Some r;
                  _inited := _inited (attr n w) |}.
        unfold set_shared, set_attr. simpl. by rewrite lookup_insert_eq.
      + unfold set_shared. by apply has_resource_set_attr; [apply HS|]. }
  assert (forall t s w', K w' -> K (set_name t s w')) as Hname.
  { intros t s w' [Hc Hr]. split.
    - unfold set_name. apply consistent_set_attr; [done|]. simpl.
      by apply consistent_attr.
    - intros o Ho. unfold set_name. apply has_resource_set_attr; [by apply Hr|].
      intros Heq. simpl. apply has_resource_attr. rewrite Heq. by apply Hr. }
  assert (K (_init_sub_transforms sched n (set_shared n (Some r) w)).2) as HK2.
  { rewrite _init_sub_transforms_eq.
    destruct (_transforms n) as [ts|] eqn:Hts; [|done]. cbv zeta.
    match goal with |- context [task_group ?s ?cs ?w1] =>
      pose proof (task_group_keeps K s cs w1) as Hk;
      destruct (task_group s cs w1) as [[e tks] w2]
    end.
    simpl in *. apply Hk.
    - apply Forall_map, List.Forall_forall. intros c Hc.
      apply Forall_cons. split; [|done]. intros w' [Hc' Hr'].
      by apply (IH c Hc (oid_of n :: S)).
    - generalize (sub n) (set_shared n (Some r) w) HK1.
      induction l as [|c cs IHcs]; simpl; intros w0 HK0; [done|].
      apply IHcs. unfold rename_child. by apply Hname. }
  destruct (_init_sub_transforms sched n _) as [[e|] w2]; simpl in *.
  - destruct HK2 as [Hc Hr]. split; [done|]. intros o Ho. apply Hr. by right.
  - destruct HK2 as [Hc Hr].
    assert (shared (attr n w2) <> None) as Hn.
    { apply has_resource_attr, Hr. by left. }
    split.
    + unfold set_inited. by apply consistent_set_attr.
    + intros o Ho. unfold set_inited. apply has_resource_set_attr.
      * apply Hr. by right.
      * done.
Qed.
Lemma _init_sub_transforms_consistent x :
  forall S w,
    consistent w -> (forall o, In o S -> has_resource o w) ->
    consistent (_init_sub_transforms sched x w).2 /\
    forall o, In o S -> has_resource o (_init_sub_transforms sched x w).2.
Proof.
  intros S w Hw HS.
  set (K := fun w' => consistent w' /\ forall o, In o S -> has_resource o w').
  assert (K w) as HK by done.
  assert (forall t s w', K w' -> K (set_name t s w')) as Hname.
  { intros t s w' [Hc Hr]. split.
    - unfold set_name. apply consistent_set_attr; [done|]. simpl.
      by apply consistent_attr.
    - intros o Ho. unfold set_name. apply has_resource_set_attr; [by apply Hr|].
      intros Heq. simpl. apply has_resource_attr. rewrite Heq. by apply Hr. }
  change (K (_init_sub_transforms sched x w).2).
  rewrite _init_sub_transforms_eq.
  destruct (_transforms x) as [ts|] eqn:Hts; [|done]. cbv zeta.
  match goal with |- context [task_group ?s ?cs ?w1] =>
    pose proof (task_group_keeps K s cs w1) as Hk;
    destruct (task_group s cs w1) as [[e tks] w2]
  end.
  simpl in *. apply Hk.
  - apply Forall_map, List.Forall_forall. intros c Hc.
    apply Forall_cons. split; [|done]. intros w' [Hc' Hr'].
    by apply (_init_consistent c S).
  - generalize (sub x) w HK.
    induction l as [|c cs IHcs]; simpl; intros w0 HK0; [done|].
    apply IHcs. unfold rename_child. by apply Hname.
Qed.

(** The initialisation of a transform, run as a task beside others that
    take no resource away, keeps the store consistent. *)
Lemma co_init_consistent x w :
  proc_rg consistent keeps_resources (co_init sched x None) w.
Proof.
  unfold co_init. simpl. intros Hw.
  destruct (_inited (attr x w)) eqn:Hi; simpl;
    [split; [done|split; [by intros o Ho|done]]|].
  destruct (shared (attr x w)) as [r|] eqn:Hr; simpl;
    [|split; [done|split; [by intros o Ho|done]]].
  assert (consistent (set_shared x (Some r) w)) as Hw1.
  { unfold set_shared. by apply consistent_set_attr. }
  assert (keeps_resources w (set_shared x (Some r) w)) as HG1.
  { intros o Ho. unfold set_shared. by apply has_resource_set_attr. }
  assert (has_resource (oid_of x) (set_shared x (Some r) w)) as Hx1.
  { exists {| name := name (attr x w); shared := Some r;
              _inited := _inited (attr x w) |}.
    unfold set_shared, set_attr. simpl. by rewrite lookup_insert_eq. }
  assert (consistent (_init_sub_transforms sched x (set_shared x (Some r) w)).2)
    as Hw2.
  { by destruct (_init_sub_transforms_consistent x [] _ Hw1
                   ltac:(by intros ? [])). }
  assert (forall o, has_resource o (set_shared x (Some r) w) ->
            has_resource o
              (_init_sub_transforms sched x (set_shared x (Some r) w)).2)
    as HG2.
  { intros o Ho.
    destruct (_init_sub_transforms_consistent x [o] _ Hw1) as [_ H].
    - by intros ? [<-|[]].
    - apply H. by left. }
  destruct (_init_sub_transforms sched x (set_shared x (Some r) w))
    as [e w2]. simpl in *.
  split; [done|]. split; [intros o Ho; by apply HG2, HG1|].
  assert (forall w', keeps_resources w2 w' ->
            proc_rg consistent keeps_resources
              (match e with
               | Some e => Done (Raise e)
               | None =>
                   Act (fun w => (set_inited x true w, Done (Ok PNone)))
               end) w') as Hrest.
  { intros w' HG'. destruct e as [e|]; simpl; [done|]. intros Hw'.
    assert (has_resource (oid_of x) w') as Hx' by by apply HG', HG2.
    split; [|split; [|done]].
    - unfold set_inited. apply consistent_set_attr; [done|]. simpl.
      intros _. by apply has_resource_attr.
    - intros o Ho. unfold set_inited. apply has_resource_set_attr; [done|].
      intros _. simpl. by apply has_resource_attr. }
  destruct (_transforms x); simpl.
  - exact Hrest.
  - apply Hrest. by intros o Ho.
Qed.
End Consistency.

(** X3: the engine keeps the object store consistent: if every object marked
    as initialised holds a resource, the same is true after [_init], after
    [__call__] and after [__stream__], whether they return or raise. *)
Theorem X3_initialised_nodes_hold_a_resource
    sched n shared_arg state kwargs w :
  consistent w ->
  consistent (_init sched n shared_arg w).2 /\
  consistent (__call__ sched n state kwargs w).2 /\
  consistent (__stream__ sched n state w).2.
Proof.
  intros Hw.
  assert (forall x shared_arg w, consistent w ->
            consistent (_init sched x shared_arg w).2) as Hinit.
  { intros x a w' Hw'.
    by destruct (_init_consistent sched x [] a w' Hw' ltac:(by intros ? [])). }
  destruct (run_keeps sched consistent keeps_resources) with (n := n)
    as [Hc Hs].
  - by intros w' o Ho.
  - intros w1 w2 w3 H12 H23 o Ho. by apply H23, H12.
  - by intros h w' Hw'.
  - by intros h w' o Ho.
  - intros x _ w'. apply co_init_consistent.
  - split; [by apply Hinit|]. split; [by apply Hc|by apply Hs].
Qed.

Lemma empty_world_consistent : consistent empty_world.
Proof. intros o m Ho. simpl in Ho. by rewrite lookup_empty in Ho. Defined.

Lemma X3_witness :
  consistent empty_world /\
  consistent (_init no_schedule two_leaves None empty_world).2 /\
  consistent (__call__ no_schedule two_leaves (PDict 0) None hi_world).2.
Proof.
  split; [exact empty_world_consistent|].
  split.
  - exact (proj1 (X3_initialised_nodes_hold_a_resource no_schedule two_leaves
                    None (PDict 0) None empty_world empty_world_consistent)).
  - exact (proj1 (proj2 (X3_initialised_nodes_hold_a_resource no_schedule
                           two_leaves None (PDict 0) None hi_world
                           empty_world_consistent))).
Defined.

(** ** What a run writes to the object store *)

Lemma run_after_init sched p state kwargs w :
  (_init sched p None w).1 = None ->
  __call__ sched p state kwargs w
    = __call__ sched p state kwargs (_init sched p None w).2 /\
  __stream__ sched p state w = __stream__ sched p state (_init sched p None w).2.
Proof.
  intros Hok.
  pose proof (_init_again sched p None _ (_init_marks sched p None w Hok)) as Ha.
  rewrite (__call___eq sched p state kwargs (_init sched p None w).2), Ha.
  rewrite (__stream___eq sched p state (_init sched p None w).2), Ha.
  rewrite __call___eq, __stream___eq.
  destruct (_init sched p None w) as [[e|] w0]; done.
Qed.

Lemma ready_objs r p w w' : objs w' = objs w -> ready r p w -> ready r p w'.
Proof.
  intros Ho Hr x Hx. rewrite (attr_ext x w w'); [by apply Hr|]. by rewrite Ho.
Qed.

(** X4: a run writes names, resources and marks only through the
    initialisation it starts with: on a tree just built or initialised
    before, the object store after [__call__] or [__stream__], returned or
    raised, is the one that [_init] alone leaves, so that no node is renamed
    a second time by running the tree again. *)
Theorem X4_run_writes_nodes_only_by_init sched r p state kwargs w :
  runnable r p w ->
  objs (__call__ sched p state kwargs w).2 = objs (_init sched p None w).2 /\
  objs (__stream__ sched p state w).2 = objs (_init sched p None w).2 /\
  ready r p (__call__ sched p state kwargs w).2 /\
  ready r p (__stream__ sched p state w).2.
Proof.
  intros Hrun.
  destruct (first_init sched p r w Hrun) as (Hinit & Hready & _).
  assert ((_init sched p None w).1 = None) as Hok by by rewrite Hinit.
  destruct (run_after_init sched p state kwargs w Hok) as [-> ->].
  set (w1 := (_init sched p None w).2) in *.
  destruct (run_keeps sched (fun w' => objs w' = objs w1) (fun _ _ => True))
    with (n := p) as [Hc Hs]; try done.
  { intros x Hx w'. unfold co_init. simpl. intros Hw'.
    rewrite (attr_ext x w1 w'); [|by rewrite Hw'].
    destruct (Hready x Hx) as [_ ->]. done. }
  pose proof (Hc state kwargs w1 eq_refl) as H1.
  pose proof (Hs state w1 eq_refl) as H2.
  split; [done|]. split; [done|].
  split; by eapply ready_objs.
Qed.

Lemma X4_witness :
  runnable quiet_resource marking_pipeline hi_world /\
  objs (__call__ no_schedule marking_pipeline (PDict 0) None hi_world).2
    = objs (_init no_schedule marking_pipeline None hi_world).2.
Proof.
  assert (runnable quiet_resource marking_pipeline hi_world) as H.
  { left. split; [exact marking_pipeline_NoDup|].
    split; [exact marking_pipeline_fresh|reflexivity]. }
  split; [exact H|].
  exact (proj1 (X4_run_writes_nodes_only_by_init no_schedule quiet_resource
                  marking_pipeline (PDict 0) None hi_world H)).
Defined.

(** ** Running without a resource *)

(** X5: a transform that was built without a resource and has not been
    initialised by a parent cannot run: [__call__] raises the error for the
    missing resource and [__stream__] raises it before it yields anything,
    and neither has notified a listener, run a hook or written anything. *)
Theorem X5_run_without_resource_raises sched n state kwargs w :
  _inited (attr n w) = false -> shared (attr n w) = None ->
  __call__ sched n state kwargs w
    = (Raise (RuntimeError "SharedResource not provided."), w) /\
  __stream__ sched n state w
    = ([], Some (RuntimeError "SharedResource not provided."), w).
Proof.
  intros Hi Hs.
  rewrite __call___eq, __stream___eq, _init_eq, Hi, Hs. done.
Qed.

Lemma X5_witness :
  __call__ no_schedule orphan (PDict 0) None hi_world
    = (Raise (RuntimeError "SharedResource not provided."), hi_world) /\
  __stream__ no_schedule orphan (PDict 0) hi_world
    = ([], Some (RuntimeError "SharedResource not provided."), hi_world).
Proof.
  exact (X5_run_without_resource_raises no_schedule orphan (PDict 0) None
           hi_world eq_refl eq_refl).
Defined.

(** ** A failing child *)

Lemma fold_transforms_raise cs e h :
  fold_left
    (fun acc c =>
       match acc with
       | (Ok state, h) => transform c state None h
       | (Raise e, h) => (Raise e, h)
       end) cs (Raise e, h) = (Raise e, h).
Proof. induction cs as [|c cs IH]; simpl; done. Qed.

(** X6: among sequential children that are leaves, the first whose transform
    raises ends the step: the step raises that exception, the children
    after it and the parent's own transform are not run, and the states are
    left as the failing transform left them, with what the earlier children
    wrote. *)
Theorem X6_failing_child_aborts_the_rest
    sched p cs1 c cs2 r state kwargs w state1 h1 e h2 :
  _transforms p = Some (cs1 ++ c :: cs2) -> _run_in_parallel p = false ->
  Forall (fun c => klass_of c = BaseTransform /\ _transforms c = None)
         (cs1 ++ c :: cs2) ->
  runnable r p w -> observers r ->
  fold_transforms cs1 state (states w) = (Ok state1, h1) ->
  transform c state1 None h1 = (Raise e, h2) ->
  __call__ sched p state kwargs w
    = (Raise e, set_states h2 (_init sched p None w).2).
Proof.
  intros Hts Hpar Hleaf Hrun Hobs Hfold Hc.
  rewrite (__call___sequential_leaves sched p (cs1 ++ c :: cs2) r state kwargs w
             Hts Hpar Hleaf Hrun Hobs).
  unfold fold_transforms in *. rewrite fold_left_app, Hfold. simpl.
  by rewrite Hc, fold_transforms_raise.
Qed.

Lemma broken_pipeline_NoDup : NoDup (ids broken_pipeline).
Proof. apply (bool_decide_unpack _). vm_compute. reflexivity. Defined.

Lemma broken_pipeline_fresh : fresh_tree broken_pipeline hi_world.
Proof.
  intros x Hx. simpl in Hx.
  destruct Hx as [<-|[<-|[<-|[<-|[]]]]]; reflexivity.
Defined.

Lemma X6_witness :
  (__call__ no_schedule broken_pipeline (PDict 0) None hi_world).1
    = Raise (UserError 2) /\
  deref (states (__call__ no_schedule broken_pipeline (PDict 0) None
                          hi_world).2) 0
    = <["context" := PStr "found"]> hi_state.
Proof.
  rewrite (X6_failing_child_aborts_the_rest no_schedule broken_pipeline
             [leaf 1 "Retriever" (Some (marking "context" "found")) None]
             (leaf 2 "Reranker" (Some (failing 2)) None)
             [leaf 3 "Generation" (Some (marking "response" "42")) None]
             quiet_resource (PDict 0) None hi_world (PDict 0)
             {[ 0 := <["context" := PStr "found"]> hi_state ]}
             (UserError 2)
             {[ 0 := <["context" := PStr "found"]> hi_state ]}).
  - split; [reflexivity|]. vm_compute. reflexivity.
  - reflexivity.
  - reflexivity.
  - repeat constructor.
  - left. split; [exact broken_pipeline_NoDup|].
    split; [exact broken_pipeline_fresh|reflexivity].
  - exact quiet_resource_observers.
  - vm_compute. reflexivity.
  - reflexivity.
Defined.

(** ** Streaming *)

Section Streams.
Variable sched : scheduler.

Lemma __stream___sequential_leaves p cs r state w :
  _transforms p = Some cs -> _run_in_parallel p = false ->
  Forall (fun c => _transforms c = None) cs ->
  runnable r p w -> observers r ->
  __stream__ sched p state w =
    match fold_streams cs state (states w) with
    | (ys, Some e, h) => (ys, Some e, set_states h (_init sched p None w).2)
    | (ys, None, h) =>
        let '(ys', e, h') := stream_transform p state h in
        (ys ++ ys', e, set_states h' (_init sched p None w).2)
    end.
Proof.
  intros Hts Hpar Hleaf Hrun Hobs.
  destruct (first_init sched p r w Hrun) as (Hinit & Hready & Hst).
  set (w1 := (_init sched p None w).2) in *.
  rewrite __stream___eq, Hinit.
  destruct (Hready p (nodes_self p)) as [Hrp _].
  destruct (broadcast_quiet sched p on_transform_enter state w1 r Hrp Hobs)
    as [t1 ->].
  rewrite _run_sub_streams_eq, Hts, Hpar.
  assert (forall cs' ys e h,
            (forall c, In c cs' -> In c cs) ->
            fold_left
              (fun acc t =>
                 match acc with
                 | (ys, None, w) =>
                     let '(ys', e, w') := __stream__ sched t state w in
                     (ys ++ ys', e, w')
                 | (ys, Some e, w) => (ys, Some e, w)
                 end)
              cs' (ys, e, set_states h w1)
            = let '(ys', e', h') :=
                fold_left
                  (fun acc c =>
                     match acc with
                     | (ys, None, h) =>
                         let '(ys', e, h') := stream_transform c state h in
                         (ys ++ ys', e, h')
                     | (ys, Some e, h) => (ys, Some e, h)
                     end)
                  cs' (ys, e, h) in
              (ys', e', set_states h' w1)) as Hfold.
  { induction cs' as [|c cs' IH]; intros ys e h Hsub; simpl; [done|].
    destruct e as [e|].
    - apply IH. intros; apply Hsub; by right.
    - assert (In c (nodes p)) as Hc.
      { eapply nodes_sub; [|apply nodes_self].
        unfold sub. rewrite Hts. apply in_or_app. right. apply Hsub. by left. }
      destruct (Hready c Hc) as [Hrc Hic].
      rewrite List.Forall_forall in Hleaf.
      rewrite (__stream___leaf sched c state (set_states h w1) r
                 (Hleaf c (Hsub c (or_introl eq_refl))) Hic Hrc Hobs).
      rewrite states_set_states.
      destruct (stream_transform c state h) as [[ys' e'] h'].
      rewrite set_states_set_states. apply IH. intros; apply Hsub; by right. }
  specialize (Hfold cs [] None (states w1) (fun c H => H)).
  rewrite set_states_id in Hfold. rewrite Hfold. clear Hfold.
  unfold fold_streams. rewrite Hst.
  destruct (fold_left _ cs ([], None, states w)) as [[ys [e|]] h]; [done|].
  rewrite states_set_states.
  destruct (stream_transform p state h) as [[ys' [e|]] h']; [done|].
  destruct (broadcast_quiet sched p on_transform_exit state
              (set_states h' (set_states h w1)) r Hrp Hobs) as [t2 ->].
  done.
Qed.
End Streams.

(** X7: streaming a node whose sequential children are leaves yields what
    the children's [stream_transform] yield, child after child in the order
    of the list, and then what the node's own [stream_transform] yields;
    every child is handed the state the node was given, not what the child
    before it produced, and the first exception ends the stream after the
    states yielded so far. *)
Theorem X7_stream_concatenates_the_children sched p cs r state w :
  _transforms p = Some cs -> _run_in_parallel p = false ->
  Forall (fun c => _transforms c = None) cs ->
  runnable r p w -> observers r ->
  (__stream__ sched p state w).1 =
    match fold_streams cs state (states w) with
    | (ys, Some e, h) => (ys, Some e)
    | (ys, None, h) =>
        (ys ++ (stream_transform p state h).1.1, (stream_transform p state h).1.2)
    end /\
  (forall c cs', cs = c :: cs' ->
     exists ys' e h',
       stream_transform c state (states w) = (ys', e, h') /\
       exists rest, (__stream__ sched p state w).1.1 = ys' ++ rest).
Proof.
  intros Hts Hpar Hleaf Hrun Hobs.
  rewrite (__stream___sequential_leaves sched p cs r state w
             Hts Hpar Hleaf Hrun Hobs).
  split.
  - destruct (fold_streams cs state (states w)) as [[ys [e|]] h]; [done|].
    by destruct (stream_transform p state h) as [[ys' e'] h'].
  - intros c cs' ->. unfold fold_streams. simpl.
    destruct (stream_transform c state (states w)) as [[ys' e] h'].
    exists ys', e, h'. split; [done|].
    assert (forall l acc,
              exists rest,
                (fold_left
                   (fun acc c =>
                      match acc with
                      | (ys, None, h) =>
                          let '(ys', e, h') := stream_transform c state h in
                          (ys ++ ys', e, h')
                      | (ys, Some e, h) => (ys, Some e, h)
                      end) l acc).1.1 = acc.1.1 ++ rest) as Hpre.
    { induction l as [|x l IH]; intros [[ys0 e0] h0]; simpl.
      - exists []. by rewrite app_nil_r.
      - destruct e0 as [e0|]; [apply (IH (ys0, Some e0, h0))|].
        destruct (stream_transform x state h0) as [[ys1 e1] h1].
        destruct (IH (ys0 ++ ys1, e1, h1)) as [rest Hrest]. simpl in Hrest.
        exists (ys1 ++ rest). by rewrite Hrest, app_assoc. }
    destruct (Hpre cs' (ys', e, h')) as [rest Hrest]. simpl in Hrest.
    destruct (fold_left _ cs' (ys', e, h')) as [[ys2 [e2|]] h2]; simpl in *.
    + by exists rest.
    + destruct (stream_transform p state h2) as [[ys3 e3] h3]. simpl.
      exists (rest ++ ys3). by rewrite Hrest, app_assoc.
Qed.

Lemma two_streams_NoDup : NoDup (ids two_streams).
Proof. apply (bool_decide_unpack _). vm_compute. reflexivity. Defined.

Lemma two_streams_fresh : fresh_tree two_streams hi_world.
Proof.
  intros x Hx. simpl in Hx.
  destruct Hx as [<-|[<-|[<-|[]]]]; reflexivity.
Defined.

Lemma X7_witness :
  (__stream__ no_schedule two_streams (PDict 0) hi_world).1
    = ([PDict 0; PDict 0; PDict 1; PDict 2; PDict 3; PDict 0], None).
Proof.
  rewrite (proj1 (X7_stream_concatenates_the_children no_schedule two_streams
             [leaf 1 "Retriever" None (Some twice);
              leaf 2 "Generation" None (Some three_chunks)]
             quiet_resource (PDict 0) hi_world eq_refl eq_refl
             ltac:(repeat constructor)
             (or_introl (conj two_streams_NoDup
                              (conj two_streams_fresh eq_refl)))
             quiet_resource_observers)).
  vm_compute. reflexivity.
Defined.



(** X9: a transform without children that does not override
    [stream_transform] streams exactly what a call returns: the stream ends
    normally after yielding one value precisely when the call returns that
    value, and both leave the same states and objects. *)
Theorem X9_stream_of_a_plain_leaf sched n state w v w' :
  klass_of n = BaseTransform -> stream_transform_def n = None ->
  _transforms n = None ->
  __call__ sched n state None w = (Ok v, w') <->
  __stream__ sched n state w = ([v], None, w').
Proof.
  intros Hk Hs Hts.
  rewrite __call___eq, __stream___eq.
  destruct (_init sched n None w) as [[e|] w0]; [done|].
  destruct (broadcast sched n on_transform_enter state w0)
    as [[[e|] t1] w1]; [done|].
  rewrite _run_sub_transforms_eq, _run_sub_streams_eq, Hts.
  unfold stream_transform. rewrite Hs, Hk. unfold BaseTransform_stream_transform.
  destruct (transform n state None (states w1)) as [[ret|e] h]; [|done].
  destruct (broadcast sched n on_transform_exit state (set_states h w1))
    as [[[e|] t2] w2]; simpl; [done|].
  split; intros [= -> ->]; done.
Qed.

Lemma X9_witness :
  __stream__ no_schedule lone_leaf (PDict 0) hi_world
    = ([PDict 0], None,
       (__call__ no_schedule lone_leaf (PDict 0) None hi_world).2).
Proof.
  apply (X9_stream_of_a_plain_leaf no_schedule lone_leaf (PDict 0) hi_world
           (PDict 0) (__call__ no_schedule lone_leaf (PDict 0) None hi_world).2
           eq_refl eq_refl eq_refl).
  vm_compute. reflexivity.
Defined.

(** ** A pipeline used as a step *)

(** X10: a [BasePipeline] called as somebody's child takes the state it is
    handed for its [return_state] flag: its own children are folded over a
    new, empty dictionary, the state of the caller is not passed to them,
    and only its truth value is used, to choose between returning the new
    dictionary and returning its output field. *)
Theorem X10_nested_pipeline_starts_from_an_empty_state sched t cs r state w :
  klass_of t = BasePipeline -> transform_def t = None ->
  _transforms t = Some cs -> _run_in_parallel t = false ->
  Forall (fun c => klass_of c = BaseTransform /\ _transforms c = None) cs ->
  runnable r t w -> observers r ->
  states w !! fresh (dom (states w)) = None /\
  match fold_transforms cs (PDict (fresh (dom (states w))))
                        (<[fresh (dom (states w)) := ∅]> (states w)) with
  | (Raise e, h) =>
      (call sched t state w).1 = Raise e /\
      states (call sched t state w).2 = h
  | (Ok state', h) =>
      (call sched t state w).1
        = (if truthy state h then Ok state'
           else state_get state' (output_key t) h) /\
      states (call sched t state w).2 = h
  end.
Proof.
  intros Hk Htd Hts Hpar Hleaf Hrun Hobs. split.
  - apply not_elem_of_dom. apply is_fresh.
  - unfold call, bound_call. rewrite Hk. unfold new_state.
    rewrite (__call___sequential_leaves sched t cs r
               (PDict (fresh (dom (states w)))) (Some state)
               (set_states (<[fresh (dom (states w)) := ∅]> (states w)) w)
               Hts Hpar Hleaf Hrun Hobs).
    rewrite states_set_states.
    destruct (fold_transforms cs _ _) as [[state'|e] h]; [|done].
    unfold transform. rewrite Htd, Hk. unfold BasePipeline_transform.
    by destruct (truthy state h).
Qed.

Lemma inner_pipeline_NoDup : NoDup (ids inner_pipeline).
Proof. apply (bool_decide_unpack _). vm_compute. reflexivity. Defined.

Lemma inner_pipeline_fresh : fresh_tree inner_pipeline hi_world.
Proof.
  intros x Hx. simpl in Hx.
  destruct Hx as [<-|[<-|[]]]; reflexivity.
Defined.

Lemma X10_witness :
  (call no_schedule inner_pipeline (PDict 0) hi_world).1 = Ok (PDict 1) /\
  states (call no_schedule inner_pipeline (PDict 0) hi_world).2
    = {[ 1 := {[ "context" := PStr "found" ]}; 0 := hi_state ]}.
Proof.
  exact (proj2 (X10_nested_pipeline_starts_from_an_empty_state no_schedule
                  inner_pipeline
                  [leaf 2 "Retriever" (Some (marking "context" "found")) None]
                  quiet_resource (PDict 0) hi_world eq_refl eq_refl eq_refl
                  eq_refl ltac:(repeat constructor)
                  (or_introl (conj inner_pipeline_NoDup
                                   (conj inner_pipeline_fresh eq_refl)))
                  quiet_resource_observers)).
Defined.

(** ** The input slice *)

(** X11: for a list of input keys, [_get_input] builds a dictionary with
    exactly the declared keys, each bound to what [state.get] gives for it
    (so [None] when the state lacks it); a key that is not declared is
    absent, and a key declared twice appears once. *)
Theorem X11_get_input_has_the_declared_keys n ks d :
  input_key n = KList ks ->
  (forall k, In k ks -> _get_input n d !! Some k = Some (dict_get d k)) /\
  (forall k, ~ In k ks -> _get_input n d !! Some k = None) /\
  _get_input n d !! None = None /\
  size (_get_input n d) = length (remove_dups ks).
Proof.
  intros Hn. unfold _get_input. rewrite Hn. clear Hn.
  assert (forall (m : gmap (option string) pyval),
            fold_left (fun (m : gmap (option string) pyval) k =>
                         <[Some k := dict_get d k]> m) ks m !! None
            = m !! None) as Hnone.
  { induction ks as [|k ks IH]; simpl; intros m; [done|].
    by rewrite IH, lookup_insert_ne. }
  split; [|split; [|split]].
  - intros k Hk. by apply _get_input_list.
  - intros k Hk. by rewrite _get_input_list_other.
  - by rewrite Hnone.
  - assert (dom (fold_left (fun (m : gmap (option string) pyval) k =>
                              <[Some k := dict_get d k]> m) ks ∅)
            =@{gset (option string)} list_to_set (Some <$> ks)) as Hdom.
    { apply set_eq. intros [k|].
      - rewrite elem_of_dom, elem_of_list_to_set, list_elem_of_fmap.
        destruct (in_dec string_dec k ks) as [Hin|Hnin].
        + rewrite _get_input_list by done. split; [|eauto].
          intros _. exists k. split; [done|]. by apply list_elem_of_In.
        + rewrite _get_input_list_other, lookup_empty by done.
          split; [by intros [? ?]|].
          intros (k' & [= <-] & Hk'). by apply list_elem_of_In in Hk'.
      - rewrite elem_of_dom, Hnone, lookup_empty, elem_of_list_to_set,
          list_elem_of_fmap.
        split; [by intros [? ?]|]. by intros (? & ? & ?). }
    rewrite <- size_dom, Hdom.
    assert (list_to_set (Some <$> ks)
            =@{gset (option string)} list_to_set (Some <$> remove_dups ks))
      as ->.
    { apply set_eq. intros x.
      rewrite !elem_of_list_to_set, !list_elem_of_fmap.
      by setoid_rewrite elem_of_remove_dups. }
    rewrite size_list_to_set.
    + by rewrite length_fmap.
    + apply NoDup_fmap; [intros ? ? [=]; done|apply NoDup_remove_dups].
Qed.

Lemma X11_witness :
  _get_input two_leaves hi_state !! Some "query" = Some (PStr "hi") /\
  _get_input two_leaves hi_state !! Some "history" = Some PNone /\
  _get_input two_leaves hi_state !! Some "response" = None.
Proof.
  destruct (X11_get_input_has_the_declared_keys two_leaves
              ["query"; "history"; "doc_ids"] hi_state eq_refl)
    as (Hin & Hout & _ & _).
  split; [|split].
  - apply (Hin "query"). simpl. tauto.
  - apply (Hin "history"). simpl. tauto.
  - apply (Hout "response"). simpl. intros [H|[H|[H|[]]]]; discriminate H.
Defined.

(** ** Streaming without the listeners *)

Lemma stream_transform_strip x : stream_transform (strip_node x) = stream_transform x.
Proof.
  destruct x as [o k c s a t p i u [g1|] [g2|]]; by destruct k.
Qed.

Section QuietStreams.
Variable sched : scheduler.

Lemma _run_sub_streams_strip n state w :
  Forall (fun c => quiet_tree c -> sequential c -> forall state w,
            quiet_world w ->
            __stream__ sched (strip_node c) state (strip_world w)
            = ((__stream__ sched c state w).1,
               strip_world (__stream__ sched c state w).2) /\
            quiet_world (__stream__ sched c state w).2)
         (match _transforms n with Some ts => ts | None => [] end) ->
  quiet_tree n -> sequential n -> quiet_world w ->
  _run_sub_streams sched (strip_node n) state (strip_world w)
  = ((_run_sub_streams sched n state w).1,
     strip_world (_run_sub_streams sched n state w).2) /\
  quiet_world (_run_sub_streams sched n state w).2.
Proof.
  intros IH Hn Hseq Hw.
  rewrite !_run_sub_streams_eq, transforms_strip, parallel_strip.
  destruct (_transforms n) as [ts|] eqn:Hts; [|done].
  assert (forall c, In c ts -> quiet_tree c) as Hq.
  { intros c Hc. apply (quiet_tree_sub n c Hn).
    unfold sub. rewrite Hts. apply in_or_app. by right. }
  assert (forall c, In c ts -> sequential c) as Hsq.
  { intros c Hc. apply (sequential_sub n c Hseq).
    unfold sub. rewrite Hts. apply in_or_app. by right. }
  rewrite (Hseq n (nodes_self n)).
  set (step := fun (acc : list pyval * option exn * world) t =>
                 match acc with
                 | (ys, None, w) =>
                     let '(ys', e, w') := __stream__ sched t state w in
                     (ys ++ ys', e, w')
                 | (ys, Some e, w) => (ys, Some e, w)
                 end).
  assert (forall cs acc,
            (forall c, In c cs -> In c ts) -> quiet_world acc.2 ->
            fold_left step (map strip_node cs) (acc.1, strip_world acc.2)
            = ((fold_left step cs acc).1,
               strip_world (fold_left step cs acc).2) /\
            quiet_world (fold_left step cs acc).2) as Hfold.
  { rewrite List.Forall_forall in IH.
    induction cs as [|c cs IHcs]; intros [[ys e] w0] Hsub Hw0; simpl in *;
      [done|].
    destruct e as [e|].
    - apply (IHcs (ys, Some e, w0)); [|done]. intros; apply Hsub; by right.
    - destruct (IH c (Hsub c (or_introl eq_refl))
                   (Hq c (Hsub c (or_introl eq_refl)))
                   (Hsq c (Hsub c (or_introl eq_refl))) state w0 Hw0)
        as [Heq Hqw].
      rewrite Heq.
      destruct (__stream__ sched c state w0) as [[ys' e'] w'] eqn:Hc.
      simpl in *.
      apply (IHcs (ys ++ ys', e', w')); [|done].
      intros; apply Hsub; by right. }
  apply (Hfold ts ([], None, w)); done.
Qed.

(** With listeners that only observe, a stream yields what the same stream
    yields without any listener. *)
Lemma __stream___strip n :
  quiet_tree n -> sequential n ->
  forall state w,
    quiet_world w ->
    __stream__ sched (strip_node n) state (strip_world w)
    = ((__stream__ sched n state w).1,
       strip_world (__stream__ sched n state w).2) /\
    quiet_world (__stream__ sched n state w).2.
Proof.
  induction n as [n _ IHt] using node_ind_nested.
  intros Hn Hseq state w Hw.
  pose proof (Hn n (nodes_self n)) as Hcn.
  rewrite !__stream___eq.
  change (_init sched (strip_node n) None (strip_world w))
    with (_init sched (strip_node n) (strip_shared None) (strip_world w)).
  rewrite (_init_strip sched n None w).
  pose proof (_init_quiet sched n None w Hn ltac:(done) Hw) as Hw0.
  destruct (_init sched n None w) as [[e|] w0]; simpl in *; [done|].
  destruct (broadcast_strip sched n on_transform_enter state w0 Hw0 Hcn)
    as (He1 & He2 & He3).
  destruct (broadcast sched (strip_node n) on_transform_enter state
              (strip_world w0)) as [[e1' t1'] w1'].
  destruct (broadcast sched n on_transform_enter state w0) as [[e1 t1] w1].
  simpl in *. subst e1' w1' w1.
  destruct e1 as [e|]; [done|].
  destruct (_run_sub_streams_strip n state w0 IHt Hn Hseq Hw0) as [Hs Hw2].
  rewrite Hs.
  destruct (_run_sub_streams sched n state w0) as [[ys [e|]] w2];
    simpl in *; [done|].
  rewrite stream_transform_strip.
  destruct (stream_transform n state (states w2)) as [[ys' [e|]] h];
    [by split|].
  assert (quiet_world (set_states h w2)) as Hw3 by done.
  destruct (broadcast_strip sched n on_transform_exit state (set_states h w2)
              Hw3 Hcn) as (Hx1 & Hx2 & Hx3).
  change (set_states h (strip_world w2)) with (strip_world (set_states h w2)).
  destruct (broadcast sched (strip_node n) on_transform_exit state
              (strip_world (set_states h w2))) as [[e2' t2'] w3'].
  destruct (broadcast sched n on_transform_exit state (set_states h w2))
    as [[e2 t2] w3].
  simpl in *. subst e2' w3' w3.
  by destruct e2.
Qed.
End QuietStreams.

(** X12: a pipeline none of whose nodes runs its children in parallel, with
    listeners that only observe, and the same pipeline with an empty
    listener list, streamed with the same arguments under the same schedule:
    the two streams yield the same states, end in the same way, and leave
    the same contents in every state dictionary. *)
Theorem X12_listeners_do_not_change_the_stream sched p kwargs w :
  quiet_tree p -> sequential p -> quiet_world w ->
  (BasePipeline_stream sched (strip_node p) kwargs (strip_world w)).1
    = (BasePipeline_stream sched p kwargs w).1 /\
  states (BasePipeline_stream sched (strip_node p) kwargs (strip_world w)).2
    = states (BasePipeline_stream sched p kwargs w).2.
Proof.
  intros Hp Hseq Hw. unfold BasePipeline_stream, new_state. simpl.
  change (set_states (<[fresh (dom (states w)) := kwargs]> (states w))
                     (strip_world w))
    with (strip_world
            (set_states (<[fresh (dom (states w)) := kwargs]> (states w)) w)).
  destruct (__stream___strip sched p Hp Hseq (PDict (fresh (dom (states w))))
              (set_states (<[fresh (dom (states w)) := kwargs]> (states w)) w))
    as [Heq _]; [done|].
  rewrite Heq. done.
Qed.

Lemma observed_stream_quiet : quiet_tree observed_stream.
Proof.
  intros x Hx. simpl in Hx.
  destruct Hx as [<-|[<-|[]]]; intros r Hr; simpl in Hr.
  - injection Hr as <-. exact observed_resource_observers.
  - discriminate Hr.
Defined.

Lemma observed_stream_sequential : sequential observed_stream.
Proof.
  intros x Hx. simpl in Hx.
  destruct Hx as [<-|[<-|[]]]; reflexivity.
Defined.

Lemma X12_witness :
  quiet_tree observed_stream /\ sequential observed_stream /\
  quiet_world empty_world /\
  (BasePipeline_stream no_schedule (strip_node observed_stream) hi_state
                       (strip_world empty_world)).1
    = (BasePipeline_stream no_schedule observed_stream hi_state empty_world).1.
Proof.
  split; [exact observed_stream_quiet|].
  split; [exact observed_stream_sequential|].
  split; [exact empty_world_quiet|].
  apply (X12_listeners_do_not_change_the_stream no_schedule observed_stream
           hi_state empty_world observed_stream_quiet
           observed_stream_sequential empty_world_quiet).
Defined.

(** * Documents *)

Lemma get_chunks_from acc cs :
  fold_left
    (fun flatten_chunks chunk =>
       match Chunk.children chunk with
       | _ :: _ => flatten_chunks ++ Chunk.children chunk
       | [] => flatten_chunks ++ [chunk]
       end) cs acc
  = acc ++ flat_map leaves_of cs.
Proof.
  revert acc. induction cs as [|c cs IH]; intros acc; simpl.
  - by rewrite app_nil_r.
  - unfold leaves_of at 1.
    destruct (Chunk.children c) as [|x xs]; rewrite IH, <- app_assoc; done.
Qed.

Lemma chunks_add_all d cs :
  Document.chunks (fold_left Document.add_chunk cs d) = Document.chunks d ++ cs.
Proof.
  revert d. induction cs as [|c cs IH]; intros d; simpl.
  - by rewrite app_nil_r.
  - rewrite IH. simpl. by rewrite <- app_assoc.
Qed.

(** X13: after chunks have been added through [add_chunk], at least one, the
    document's [num_chunks] is the length of its chunk list and its
    [child_chunk_ids] are the ids of its chunks in list order; the chunk
    list is the old one followed by the added chunks, and no other field
    has changed. *)
Theorem X13_add_chunk_keeps_the_counters d cs :
  cs <> [] ->
  let d' := fold_left Document.add_chunk cs d in
  Document.chunks d' = Document.chunks d ++ cs /\
  Document.num_chunks d' = Some (Z.of_nat (length (Document.chunks d'))) /\
  Document.child_chunk_ids d' = Some (map Chunk.id (Document.chunks d')) /\
  Document.id d' = Document.id d /\
  Document.source d' = Document.source d /\
  Document.description d' = Document.description d /\
  Document.created_at d' = Document.created_at d /\
  Document.updated_at d' = Document.updated_at d /\
  Document.index_name d' = Document.index_name d /\
  Document.index_time d' = Document.index_time d /\
  Document.metadata d' = Document.metadata d.
Proof.
  intros Hcs d'. subst d'.
  destruct (exists_last Hcs) as (cs0 & c & ->).
  rewrite fold_left_app. simpl.
  split; [by rewrite chunks_add_all, app_assoc|].
  split; [done|]. split; [done|].
  clear Hcs. revert d.
  induction cs0 as [|c0 cs0 IH]; intros d; simpl; [done|].
  destruct (IH (Document.add_chunk d c0)) as (?&?&?&?&?&?&?&?).
  done.
Qed.

Lemma X13_witness :
  Document.num_chunks
    (fold_left Document.add_chunk [section_chunk; lone_chunk]
               (empty_document "d")) = Some 2%Z /\
  Document.child_chunk_ids
    (fold_left Document.add_chunk [section_chunk; lone_chunk]
               (empty_document "d")) = Some ["s"; "q"].
Proof.
  destruct (X13_add_chunk_keeps_the_counters (empty_document "d")
              [section_chunk; lone_chunk] ltac:(discriminate))
    as (_ & Hn & Hids & _).
  split; [exact Hn|exact Hids].
Defined.

(** X14: [get_chunks] after [add_chunk] is [get_chunks] before it, followed
    by what the new chunk contributes: its children when it has some, the
    chunk itself otherwise.  For a document built by [add_chunk] alone the
    flattened list is the concatenation of these contributions in the order
    the chunks were added. *)
Theorem X14_get_chunks_after_add_chunk d c cs :
  Document.get_chunks (Document.add_chunk d c)
    = Document.get_chunks d ++
      (if decide (Chunk.children c = []) then [c] else Chunk.children c) /\
  Document.get_chunks (fold_left Document.add_chunk cs d)
    = Document.get_chunks d ++ flat_map leaves_of cs.
Proof.
  unfold Document.get_chunks. split.
  - simpl. rewrite !get_chunks_from. simpl.
    rewrite flat_map_app. simpl. rewrite app_nil_r. f_equal.
    unfold leaves_of. by destruct (Chunk.children c).
  - rewrite chunks_add_all, !get_chunks_from. simpl.
    by rewrite flat_map_app.
Qed.

(** X15: [get_chunks] flattens one level and no more: it lists, in order,
    the chunks that have no children and the children of the chunks that
    have some; a chunk with children is replaced by them, and the children
    are listed as they are, whatever they contain.  So there are at least as
    many flattened chunks as chunks, and a document none of whose chunks has
    children is returned as it is, in a new list. *)
Theorem X15_get_chunks_flattens_one_level d :
  (forall x,
     In x (Document.get_chunks d) <->
     exists c, In c (Document.chunks d) /\
               ((Chunk.children c = [] /\ x = c) \/ In x (Chunk.children c))) /\
  length (Document.chunks d) <= length (Document.get_chunks d) /\
  (Forall (fun c => Chunk.children c = []) (Document.chunks d) ->
   Document.get_chunks d = Document.chunks d) /\
  (Document.chunks d = [] -> Document.get_chunks d = []).
Proof.
  unfold Document.get_chunks. rewrite get_chunks_from. simpl.
  split; [|split; [|split]].
  - intros x. rewrite in_flat_map. split.
    + intros (c & Hc & Hx). exists c. split; [done|].
      unfold leaves_of in Hx.
      destruct (Chunk.children c) as [|y ys] eqn:Hch.
      * left. destruct Hx as [<-|[]]. done.
      * by right.
    + intros (c & Hc & [[Hch ->]|Hx]); exists c; (split; [done|]);
        unfold leaves_of.
      * rewrite Hch. by left.
      * by destruct (Chunk.children c).
  - induction (Document.chunks d) as [|c cs IH]; simpl; [lia|].
    rewrite length_app. unfold leaves_of at 1.
    destruct (Chunk.children c); simpl; lia.
  - intros Hall. induction Hall as [|c cs Hc _ IH]; simpl; [done|].
    unfold leaves_of at 1. rewrite Hc. simpl. by rewrite IH.
  - by intros ->.
Qed.

Lemma X15_witness :
  Document.get_chunks
    (fold_left Document.add_chunk [lone_chunk; chunk "r" []]
               (empty_document "d"))
  = [lone_chunk; chunk "r" []].
Proof.
  apply (proj1 (proj2 (proj2 (X15_get_chunks_flattens_one_level
           (fold_left Document.add_chunk [lone_chunk; chunk "r" []]
                      (empty_document "d")))))).
  repeat constructor.
Defined.

(** * Steps grouped in a transform *)

Section Groups.
Variable sched : scheduler.

(** Sequential children each of which acts on the states alone. *)
Lemma __call___sequential_hooks p cs r state kwargs w
    (F : node -> pyval -> heap -> result pyval * heap) :
  _transforms p = Some cs -> _run_in_parallel p = false ->
  runnable r p w -> observers r ->
  (forall c st h,
     In c cs ->
     call sched c st (set_states h (_init sched p None w).2)
     = ((F c st h).1, set_states (F c st h).2 (_init sched p None w).2)) ->
  __call__ sched p state kwargs w =
    match
      fold_left
        (fun acc c =>
           match acc with
           | (Ok state, h) => F c state h
           | (Raise e, h) => (Raise e, h)
           end) cs (Ok state, states w)
    with
    | (Raise e, h) => (Raise e, set_states h (_init sched p None w).2)
    | (Ok state', h) =>
        let '(res, h') := transform p state' kwargs h in
        (res, set_states h' (_init sched p None w).2)
    end.
Proof.
  intros Hts Hpar Hrun Hobs HF.
  destruct (first_init sched p r w Hrun) as (Hinit & Hready & Hst).
  set (w1 := (_init sched p None w).2) in *.
  rewrite __call___eq, Hinit.
  destruct (Hready p (nodes_self p)) as [Hrp _].
  destruct (broadcast_quiet sched p on_transform_enter state w1 r Hrp Hobs)
    as [t1 ->].
  rewrite _run_sub_transforms_eq, Hts, Hpar.
  assert (forall cs' res h,
            (forall c, In c cs' -> In c cs) ->
            fold_left
              (fun acc t =>
                 match acc with
                 | (Ok state, w) => call sched t state w
                 | (Raise e, w) => (Raise e, w)
                 end)
              cs' (res, set_states h w1)
            = let '(res', h') :=
                fold_left
                  (fun acc c =>
                     match acc with
                     | (Ok state, h) => F c state h
                     | (Raise e, h) => (Raise e, h)
                     end)
                  cs' (res, h) in
              (res', set_states h' w1)) as Hfold.
  { induction cs' as [|c cs' IH]; intros res h Hsub; simpl; [done|].
    destruct res as [st|e].
    - rewrite (HF c st h (Hsub c (or_introl eq_refl))).
      destruct (F c st h) as [res' h']. simpl.
      apply IH. intros; apply Hsub; by right.
    - apply IH. intros; apply Hsub; by right. }
  specialize (Hfold cs (Ok state) (states w1) (fun c H => H)).
  rewrite set_states_id in Hfold. rewrite Hfold. clear Hfold.
  rewrite Hst.
  destruct (fold_left _ cs (Ok state, states w)) as [[state'|e] h]; [|done].
  rewrite states_set_states.
  destruct (transform p state' kwargs h) as [[ret|e] h']; [|done].
  destruct (broadcast_quiet sched p on_transform_exit state'
              (set_states h' (set_states h w1)) r Hrp Hobs) as [t2 ->].
  by rewrite set_states_set_states.
Qed.

Lemma ready_sub r p c w : ready r p w -> In c (sub p) -> ready r c w.
Proof.
  intros Hr Hc x Hx. apply Hr. by eapply nodes_sub.
Qed.

Lemma fold_transforms_flat cs res h :
  fold_left
    (fun acc c =>
       match acc with
       | (Ok state, h) => fold_transforms (steps_of c) state h
       | (Raise e, h) => (Raise e, h)
       end) cs (res, h)
  = fold_left
      (fun acc c =>
         match acc with
         | (Ok state, h) => transform c state None h
         | (Raise e, h) => (Raise e, h)
         end) (flat_map steps_of cs) (res, h).
Proof.
  revert res h. induction cs as [|c cs IH]; intros res h; simpl; [done|].
  rewrite fold_left_app. destruct res as [st|e].
  - match goal with
    | |- _ = fold_left ?T _ (fold_left ?T ?l ?a) =>
        change (fold_transforms (steps_of c) st h) with (fold_left T l a);
        destruct (fold_left T l a) as [res' h']
    end.
    apply IH.
  - rewrite fold_transforms_raise. apply IH.
Qed.
End Groups.

(** X16: a plain [BaseTransform] that only groups sequential steps is
    transparent.  A node whose sequential children are leaves or such groups
    of leaves computes what it would compute with the grouped steps listed
    in place of their groups: the transforms of all the steps are folded
    over the state in order, and the node's own transform is applied to the
    outcome. *)
Theorem X16_grouped_steps_run_as_if_listed sched p cs r state kwargs w :
  _transforms p = Some cs -> _run_in_parallel p = false ->
  Forall (fun c =>
            klass_of c = BaseTransform /\
            match _transforms c with
            | None => True
            | Some gs =>
                transform_def c = None /\ _run_in_parallel c = false /\
                Forall (fun g => klass_of g = BaseTransform /\
                                 _transforms g = None) gs
            end) cs ->
  runnable r p w -> observers r ->
  __call__ sched p state kwargs w =
    match fold_transforms (flat_map steps_of cs) state (states w) with
    | (Raise e, h) => (Raise e, set_states h (_init sched p None w).2)
    | (Ok state', h) =>
        let '(res, h') := transform p state' kwargs h in
        (res, set_states h' (_init sched p None w).2)
    end.
Proof.
  intros Hts Hpar Hcs Hrun Hobs.
  rewrite (__call___sequential_hooks sched p cs r state kwargs w
             (fun c st h => fold_transforms (steps_of c) st h)
             Hts Hpar Hrun Hobs).
  - unfold fold_transforms at 2. by rewrite fold_transforms_flat.
  - intros c st h Hc.
    destruct (first_init sched p r w Hrun) as (_ & Hready & _).
    set (w1 := (_init sched p None w).2) in *.
    assert (ready r c (set_states h w1)) as Hrc.
    { apply (ready_sub r p c w1 Hready).
      unfold sub. rewrite Hts. apply in_or_app. by right. }
    rewrite List.Forall_forall in Hcs.
    destruct (Hcs c Hc) as [Hk Hg].
    rewrite (call_BaseTransform sched c st _ Hk).
    destruct (Hrc c (nodes_self c)) as [Hsc Hic].
    unfold steps_of.
    destruct (_transforms c) as [gs|] eqn:Hgs.
    + destruct Hg as (Htd & Hseq & Hleaves).
      rewrite (__call___sequential_leaves sched c gs r st None
                 (set_states h w1) Hgs Hseq Hleaves (or_intror Hrc) Hobs).
      rewrite (_init_again sched c None (set_states h w1) Hic).
      rewrite states_set_states. simpl.
      destruct (fold_transforms gs st h) as [[st'|e] h'].
      * unfold transform. rewrite Htd, Hk. simpl.
        by rewrite set_states_set_states.
      * by rewrite set_states_set_states.
    + rewrite (__call___leaf sched c st None (set_states h w1) r
                 Hgs Hic Hsc Hobs).
      rewrite states_set_states. unfold fold_transforms. simpl.
      destruct (transform c st None h) as [res h'].
      by rewrite set_states_set_states.
Qed.

Lemma grouped_pipeline_NoDup : NoDup (ids grouped_pipeline).
Proof. apply (bool_decide_unpack _). vm_compute. reflexivity. Defined.

Lemma grouped_pipeline_fresh : fresh_tree grouped_pipeline hi_world.
Proof.
  intros x Hx. simpl in Hx.
  destruct Hx as [<-|[<-|[<-|[<-|[<-|[]]]]]]; reflexivity.
Defined.

Lemma X16_witness :
  (__call__ no_schedule grouped_pipeline (PDict 0) (Some (PBool false))
            hi_world).1 = Ok (PStr "42") /\
  deref (states (__call__ no_schedule grouped_pipeline (PDict 0)
                          (Some (PBool false)) hi_world).2) 0
    = <["response" := PStr "42"]>
        (<["context" := PStr "ranked"]>
           (<["context" := PStr "found"]> hi_state)).
Proof.
  rewrite (X16_grouped_steps_run_as_if_listed no_schedule grouped_pipeline
             [leaf 1 "Retriever" (Some (marking "context" "found")) None;
              group 2 [leaf 3 "Reranker" (Some (marking "context" "ranked")) None;
                       leaf 4 "Generation" (Some (marking "response" "42"))
                            None]]
             quiet_resource (PDict 0) (Some (PBool false)) hi_world
             eq_refl eq_refl).
  - split; vm_compute; reflexivity.
  - repeat constructor.
  - left. split; [exact grouped_pipeline_NoDup|].
    split; [exact grouped_pipeline_fresh|reflexivity].
  - exact quiet_resource_observers.
Defined.

(** X17: a [BasePipeline] that keeps the inherited [transform] and was given
    a list as output key cannot be asked for its output: a call without
    [return_state] never returns, whatever the children, the listeners and
    the schedule; it raises. *)
Theorem X17_list_output_key_never_returns sched p ks kwargs w :
  klass_of p = BasePipeline -> transform_def p = None ->
  output_key p = KList ks ->
  exists e, (BasePipeline_call sched p false kwargs w).1 = Raise e.
Proof.
  intros Hk Hdef Hout. unfold BasePipeline_call.
  destruct (new_state kwargs w) as [s w0]. rewrite __call___eq.
  destruct (_init sched p None w0) as [[e|] w1]; [by exists e|].
  destruct (broadcast sched p on_transform_enter (PDict s) w1)
    as [[[e|] t1] w2]; [by exists e|].
  destruct (_run_sub_transforms sched p (PDict s) w2) as [[state1|e] w3];
    [|by exists e].
  unfold transform. rewrite Hdef, Hk. unfold BasePipeline_transform.
  simpl. rewrite Hout.
  destruct state1; simpl; eauto.
Qed.

Lemma X17_witness :
  exists e,
    (BasePipeline_call no_schedule listkey_pipeline false hi_state
                       empty_world).1 = Raise e.
Proof.
  exact (X17_list_output_key_never_returns no_schedule listkey_pipeline
           ["response"; "cost"] hi_state empty_world eq_refl eq_refl eq_refl).
Defined.

(** * The prompt of a [PromptAgent] *)

Lemma split_nonempty sep s : split sep s <> [].
Proof.
  destruct s as [|c s]; simpl; [done|].
  destruct (N.eqb c sep); [done|]. by destruct (split sep s).
Qed.

Lemma split_no_sep sep s : Forall (fun l => ~ In sep l) (split sep s).
Proof.
  induction s as [|c s IH]; simpl.
  - constructor; [|constructor]. by intros [].
  - destruct (N.eqb_spec c sep) as [->|Hne].
    + constructor; [by intros []|done].
    + destruct (split sep s) as [|l ls]; simpl.
      * constructor; [|constructor]. intros [->|[]]. done.
      * inversion IH as [|? ? Hl Hls]; subst.
        constructor; [|done]. intros [->|Hin]; [done|]. by apply Hl.
Qed.

Lemma split_app_sep sep l s :
  ~ In sep l ->
  split sep (l ++ sep :: s) = l :: split sep s.
Proof.
  induction l as [|c l IH]; intros Hl; simpl.
  - by rewrite N.eqb_refl.
  - destruct (N.eqb_spec c sep) as [->|Hne]; [exfalso; apply Hl; by left|].
    rewrite IH; [done|]. intros Hin. apply Hl. by right.
Qed.

Lemma split_line sep l : ~ In sep l -> split sep l = [l].
Proof.
  induction l as [|c l IH]; intros Hl; simpl; [done|].
  destruct (N.eqb_spec c sep) as [->|Hne]; [exfalso; apply Hl; by left|].
  rewrite IH; [done|]. intros Hin. apply Hl. by right.
Qed.

Lemma split_join sep ls :
  ls <> [] -> Forall (fun l => ~ In sep l) ls -> split sep (join sep ls) = ls.
Proof.
  induction ls as [|l ls IH]; intros Hne Hall; [done|].
  inversion Hall as [|? ? Hl Hls]; subst.
  destruct ls as [|l' ls]; [by apply split_line|].
  change (join sep (l :: l' :: ls)) with (l ++ sep :: join sep (l' :: ls)).
  rewrite split_app_sep by done. by rewrite IH.
Qed.

Lemma head_rev_last {A} (s : list A) : head (rev s) = last s.
Proof.
  induction s as [|x s _] using rev_ind; [done|].
  by rewrite rev_app_distr, last_snoc.
Qed.

Section StripFacts.
Variable isspace : N -> bool.

Lemma lstrip_In s c : In c (lstrip isspace s) -> In c s.
Proof.
  induction s as [|x s IH]; simpl; [done|].
  destruct (isspace x); [|done]. intros H. right. by apply IH.
Qed.

Lemma lstrip_idem s : lstrip isspace (lstrip isspace s) = lstrip isspace s.
Proof.
  induction s as [|x s IH]; simpl; [done|].
  destruct (isspace x) eqn:Hx; [done|]. simpl. by rewrite Hx.
Qed.

Lemma lstrip_head s c :
  head (lstrip isspace s) = Some c -> isspace c = false.
Proof.
  induction s as [|x s IH]; simpl; [done|].
  destruct (isspace x) eqn:Hx; [done|]. simpl. by intros [= <-].
Qed.

Lemma lstrip_fixed s :
  lstrip isspace s = s <->
  forall c, head s = Some c -> isspace c = false.
Proof.
  split.
  - intros <-. apply lstrip_head.
  - destruct s as [|x s]; simpl; [done|]. intros H. by rewrite (H x eq_refl).
Qed.

(** Dropping leading whitespace keeps the last character. *)
Lemma lstrip_rev_head s :
  lstrip isspace (rev s) = rev s ->
  lstrip isspace (rev (lstrip isspace s)) = rev (lstrip isspace s).
Proof.
  induction s as [|x s IH]; simpl; [done|].
  destruct (isspace x) eqn:Hx; [|done].
  intros H. apply IH. apply lstrip_fixed. intros c Hc.
  rewrite lstrip_fixed in H. apply H.
  destruct (rev s) as [|y r]; [done|]. exact Hc.
Qed.

Lemma strip_In s c : In c (strip isspace s) -> In c s.
Proof.
  unfold strip, rstrip. intros H. apply lstrip_In in H.
  apply in_rev in H. apply lstrip_In in H. by apply in_rev in H.
Qed.

Lemma rstrip_fixed s :
  lstrip isspace (rev (rstrip isspace s)) = rev (rstrip isspace s).
Proof. unfold rstrip. by rewrite rev_involutive, lstrip_idem. Qed.

Lemma strip_idem s : strip isspace (strip isspace s) = strip isspace s.
Proof.
  unfold strip at 1. unfold rstrip.
  assert (lstrip isspace (rev (strip isspace s)) = rev (strip isspace s))
    as ->.
  { unfold strip. apply lstrip_rev_head, rstrip_fixed. }
  rewrite rev_involutive. unfold strip. apply lstrip_idem.
Qed.

Lemma strip_ends s :
  (forall c, head (strip isspace s) = Some c -> isspace c = false) /\
  (forall c, last (strip isspace s) = Some c -> isspace c = false).
Proof.
  split.
  - intros c. unfold strip. apply lstrip_head.
  - intros c Hc.
    assert (lstrip isspace (rev (strip isspace s)) = rev (strip isspace s))
      as Hfix.
    { unfold strip. apply lstrip_rev_head, rstrip_fixed. }
    rewrite lstrip_fixed in Hfix. apply Hfix.
    by rewrite head_rev_last.
Qed.
End StripFacts.

(** X18: the prompt of a [PromptAgent] has as many lines as the docstring
    of its class, each line being the line of the docstring without its
    leading and trailing whitespace: no line of the prompt begins or ends
    with a whitespace character, and building a prompt from a prompt gives
    the prompt again. *)
Theorem X18_prompt_lines_are_stripped isspace d p :
  prompt_of isspace (Some d) = Ok p ->
  split newline p = map (strip isspace) (split newline d) /\
  length (split newline p) = length (split newline d) /\
  (forall l c, In l (split newline p) ->
               head l = Some c \/ last l = Some c -> isspace c = false) /\
  prompt_of isspace (Some p) = Ok p.
Proof.
  intros [= <-].
  assert (split newline
            (join newline (map (strip isspace) (split newline d)))
          = map (strip isspace) (split newline d)) as Hsplit.
  { apply split_join.
    - pose proof (split_nonempty newline d) as Hne.
      by destruct (split newline d).
    - pose proof (split_no_sep newline d) as Hall.
      rewrite List.Forall_forall in Hall. apply List.Forall_forall.
      intros l Hl. apply in_map_iff in Hl as (l0 & <- & Hl0).
      intros Hin. apply (Hall l0 Hl0). by apply strip_In in Hin. }
  split; [done|]. split; [by rewrite Hsplit, length_map|]. split.
  - intros l c. rewrite Hsplit. intros Hl Hc.
    apply in_map_iff in Hl as (l0 & <- & _).
    destruct (strip_ends isspace l0) as [Hh Ht].
    destruct Hc; eauto.
  - simpl. rewrite Hsplit, map_map. f_equal. f_equal.
    apply map_ext. intros l. apply strip_idem.
Qed.

Lemma X18_witness :
  prompt_of ascii_isspace
    (Some (codes ("User question: {query}" +:+ String (Ascii.ascii_of_nat 10)
                  ("    Your answer:"))))
  = Ok (codes ("User question: {query}" +:+ String (Ascii.ascii_of_nat 10)
               "Your answer:")) /\
  length (split newline
            (codes ("User question: {query}" +:+ String (Ascii.ascii_of_nat 10)
                    "Your answer:"))) = 2.
Proof.
  assert (prompt_of ascii_isspace
            (Some (codes ("User question: {query}"
                          +:+ String (Ascii.ascii_of_nat 10)
                                ("    Your answer:"))))
          = Ok (codes ("User question: {query}"
                       +:+ String (Ascii.ascii_of_nat 10) "Your answer:")))
    as H by (vm_compute; reflexivity).
  split; [exact H|].
  destruct (X18_prompt_lines_are_stripped ascii_isspace _ _ H)
    as (_ & -> & _).
  vm_compute. reflexivity.
Defined.
